(** * Susa: the dense matrix container and the signal-processing routines

    A shallow embedding of [inc/susa/matrix.h] and [inc/susa/signal.h].

    Conventions of the embedding.
    - [size_t] quantities (row and column counts, element counts, loop
      counters) are [nat].  A sum or product of sizes in the model is the
      [size_t] value the code computes as long as it is below 2^64 ([fits]).
      Sizes bounded by the element count of a buffer that exists are.  Where
      an extent is computed from an argument the caller chooses freely, the
      reduction modulo 2^64 is written out ([size_t_of]: the product in
      [upsample], the sums in [convmtx]); elsewhere the theorem about the
      function states the bound under which no computation of the code
      leaves [size_t] (the length argument of [filter], the square of the
      length in [toeplitz], the indices [swap_rows] and [swap_cols] do not
      check).  Each subtraction of the source is reached only when it does
      not underflow (noted where it occurs), except in [toeplitz] and
      [right], whose wrapping subtractions are written out over [Z].
    - The element type [T] of the templates is an arbitrary type with the
      operators the templates use ([Element]); no algebraic law is assumed
      unless a theorem says so.  [filter] is a template over a second
      element type [TT], that of its coefficient matrices ([Coefficient]).
    - An argument passed by reference is an object other than the receiver,
      unless the definition says otherwise ([set_row_self]).
    - Every function that can hit a [SUSA_ASSERT], read or write outside a
      buffer, or divide by zero returns a [result]. *)

From Stdlib Require Import ZArith List Bool Lia Ring String Ascii.
From stdpp Require Import base list.

Set Default Proof Using "Type".
Local Open Scope nat_scope.

(** ** Element types *)

(** The operators of the template parameter [T] that the two headers use. *)
Class Element (T : Type) : Type := {
  T_lit : Z -> T;                (* conversion of an int literal: 0, 1, 0x30 *)
  T_add : T -> T -> T;
  T_sub : T -> T -> T;
  T_mul : T -> T -> T;
  T_div : T -> T -> option T;    (* [None]: the division is undefined *)
  T_neq : T -> T -> bool;        (* operator != *)
  T_is_8bit : bool;              (* is_same<T,uint8_t> || is_same<T,int8_t> *)
  T_extract : list ascii -> option T
                                 (* std::istringstream(s) >> t; [None]: it fails *)
}.

(** *** Formatted extraction

    [operator>>] of the standard library skips leading white space; for an
    integer type it then reads an optional sign and decimal digits and fails
    when there is no digit; for a character type it reads one character and
    fails when there is none. *)

Definition is_space (c : ascii) : bool :=
  let n := nat_of_ascii c in (n =? 32) || ((9 <=? n) && (n <=? 13)).

Fixpoint skip_spaces (l : list ascii) : list ascii :=
  match l with
  | c :: l' => if is_space c then skip_spaces l' else l
  | [] => []
  end.

Definition digit_of (c : ascii) : option Z :=
  let n := nat_of_ascii c in
  if (48 <=? n) && (n <=? 57) then Some (Z.of_nat (n - 48)) else None.

Fixpoint read_digits (l : list ascii) (acc : option Z) : option Z :=
  match l with
  | c :: l' =>
      match digit_of c with
      | Some d => read_digits l' (Some (10 * default 0 acc + d))%Z
      | None => acc
      end
  | [] => acc
  end.

Definition extract_integer (l : list ascii) : option Z :=
  match skip_spaces l with
  | c :: l' =>
      if nat_of_ascii c =? 45 then Z.opp <$> read_digits l' None
      else if nat_of_ascii c =? 43 then read_digits l' None
      else read_digits (c :: l') None
  | [] => None
  end.

Definition extract_char (l : list ascii) : option Z :=
  match skip_spaces l with
  | c :: _ => Some (Z.of_nat (nat_of_ascii c))
  | [] => None
  end.

(** An integer element type in which no operation overflows. *)
#[export] Instance Z_Element : Element Z := {|
  T_lit z := z;
  T_add := Z.add;
  T_sub := Z.sub;
  T_mul := Z.mul;
  T_div a b := if Z.eqb b 0 then None else Some (Z.quot a b);
  T_neq a b := negb (Z.eqb a b);
  T_is_8bit := false;
  T_extract := extract_integer
|}.

(** [uint8_t]: arithmetic is done after promotion to [int] and the result is
    reduced modulo 256 when it is stored back. *)
Record uint8_t : Type := mk_uint8 { uint8_val : Z }.

Definition to_uint8 (z : Z) : uint8_t := mk_uint8 (z mod 256).

#[export] Instance uint8_Element : Element uint8_t := {|
  T_lit z := to_uint8 z;
  T_add a b := to_uint8 (uint8_val a + uint8_val b);
  T_sub a b := to_uint8 (uint8_val a - uint8_val b);
  T_mul a b := to_uint8 (uint8_val a * uint8_val b);
  T_div a b := if Z.eqb (uint8_val b) 0 then None
               else Some (to_uint8 (Z.quot (uint8_val a) (uint8_val b)));
  T_neq a b := negb (Z.eqb (uint8_val a) (uint8_val b));
  T_is_8bit := true;
  T_extract l := to_uint8 <$> extract_char l
|}.

(** [int8_t]: as [uint8_t], stored back into the range -128..127. *)
Record int8_t : Type := mk_int8 { int8_val : Z }.

Definition to_int8 (z : Z) : int8_t := mk_int8 ((z + 128) mod 256 - 128).

#[export] Instance int8_Element : Element int8_t := {|
  T_lit z := to_int8 z;
  T_add a b := to_int8 (int8_val a + int8_val b);
  T_sub a b := to_int8 (int8_val a - int8_val b);
  T_mul a b := to_int8 (int8_val a * int8_val b);
  T_div a b := if Z.eqb (int8_val b) 0 then None
               else Some (to_int8 (Z.quot (int8_val a) (int8_val b)));
  T_neq a b := negb (Z.eqb (int8_val a) (int8_val b));
  T_is_8bit := true;
  T_extract l := to_int8 <$> extract_char l
|}.

(** [bool]: the operands are promoted to [int] and the result converts
    back to [bool], true when it is not zero.  The sum of two values is
    their disjunction, the difference is true when they differ, the product
    is their conjunction.  Extraction reads an integer and accepts 0 and
    1. *)
Definition extract_bool (l : list ascii) : option bool :=
  match extract_integer l with
  | Some 0%Z => Some false
  | Some 1%Z => Some true
  | _ => None
  end.

#[export] Instance bool_Element : Element bool := {|
  T_lit z := negb (Z.eqb z 0);
  T_add a b := a || b;
  T_sub a b := xorb a b;
  T_mul a b := a && b;
  T_div a b := if b then Some a else None;
  T_neq a b := xorb a b;
  T_is_8bit := false;
  T_extract := extract_bool
|}.

(** *** The two element types of [filter]

    [filter] takes coefficient matrices of element type [TT] and a signal of
    element type [T].  [mat_y(i) += x * mat_arg_b(k)] multiplies a [T] by a
    [TT], adds the product to a [T] and stores the sum as a [T];
    [mat_y(i) -= y * mat_arg_a(k)] subtracts the product. *)
Class Coefficient (TT T : Type) : Type := {
  T_add_product : T -> T -> TT -> T;   (* acc += x * c *)
  T_sub_product : T -> T -> TT -> T    (* acc -= y * c *)
}.

(** With coefficients of the signal's element type the operators are those
    of [T]. *)
#[export] Instance same_type_coefficient {T : Type} `{Element T} : Coefficient T T := {|
  T_add_product acc x c := T_add acc (T_mul x c);
  T_sub_product acc y c := T_sub acc (T_mul y c)
|}.

(** A signal of integers filtered with coefficients of type [uint8_t]: the
    coefficient is promoted and the arithmetic is that of the integers. *)
#[export] Instance uint8_coefficient : Coefficient uint8_t Z := {|
  T_add_product acc x c := (acc + x * uint8_val c)%Z;
  T_sub_product acc y c := (acc - y * uint8_val c)%Z
|}.

(** ** Outcomes *)

Inductive fault : Type :=
| AssertionFailed      (* a SUSA_ASSERT halted the program *)
| UndefinedBehaviour.  (* access outside a buffer, division by zero *)

Inductive result (A : Type) : Type :=
| Done (a : A)
| Stop (f : fault).
Arguments Done {A} a.
Arguments Stop {A} f.

Definition bind {A B : Type} (r : result A) (k : A -> result B) : result B :=
  match r with
  | Done a => k a
  | Stop f => Stop f
  end.

Declare Scope susa_scope.
Delimit Scope susa_scope with susa.
Notation "x <- e ;; k" := (bind e (fun x => k))
  (at level 100, e at next level, right associativity) : susa_scope.
Notation "e ;;; k" := (bind e (fun _ => k))
  (at level 100, right associativity) : susa_scope.
Local Open Scope susa_scope.

(** [for (i = lo; i < hi; i++) body]: the loop-carried variables are the
    state [S]. *)
Fixpoint iterate {S : Type} (count i : nat) (body : nat -> S -> result S) (s : S)
  : result S :=
  match count with
  | 0 => Done s
  | S count' => s' <- body i s ;; iterate count' (i + 1) body s'
  end.

Definition for_loop {S : Type} (lo hi : nat) (body : nat -> S -> result S) (s : S)
  : result S :=
  iterate (hi - lo) lo body s.

(** A [for] loop whose body may [return]: the body yields [Some r] to return
    [r] at once; [dflt] is returned after the loop. *)
Fixpoint iterate_return {R : Type} (count i : nat)
    (body : nat -> result (option R)) (dflt : R) : result R :=
  match count with
  | 0 => Done dflt
  | S count' =>
      o <- body i ;;
      match o with
      | Some r => Done r
      | None => iterate_return count' (i + 1) body dflt
      end
  end.

(** Division of two [size_t] values. *)
Definition size_div (a b : nat) : result nat :=
  if b =? 0 then Stop UndefinedBehaviour else Done (a / b).

(** A size that [size_t] holds. *)
Definition fits (n : nat) : Prop := (Z.of_nat n < 2 ^ 64)%Z.

(** The [size_t] value of an integer: its residue modulo 2^64. *)
Definition size_t_of (z : Z) : nat := Z.to_nat (z mod 2 ^ 64).

Arguments size_t_of : simpl never.

(** ** The build and the allocator *)

(** What the headers leave to their collaborators [debug.h] and [memory.h]:
    whether the SUSA_ASSERT macros are compiled in, and what a newly
    allocated block contains. *)
Record build (T : Type) : Type := {
  assertions : bool;      (* SUSA_ASSERT halts on a false condition *)
  junk : nat -> T;        (* the element found at offset i of a new block *)
  fake_junk : T           (* the value of a new [T_fake] object *)
}.
Arguments assertions {T} _.
Arguments junk {T} _ _.
Arguments fake_junk {T} _.

(** ** The matrix *)

(** [sizet_objects] of the buffer base class is the length of [_matrix]. *)
Record matrix (T : Type) : Type := mk_matrix {
  sizet_rows : nat;
  sizet_cols : nat;
  _matrix : list T;
  T_fake : T
}.
Arguments mk_matrix {T} _ _ _ _.
Arguments sizet_rows {T} _.
Arguments sizet_cols {T} _.
Arguments _matrix {T} _.
Arguments T_fake {T} _.

(** The target of a [T&] returned by the non-const [operator()]. *)
Inductive place : Type :=
| Cell (i : nat)   (* _matrix[i] *)
| Fake.            (* *T_fake *)

(** [_matrix[i]] as an rvalue. *)
Definition raw_read {T : Type} (buf : list T) (i : nat) : result T :=
  match buf !! i with
  | Some v => Done v
  | None => Stop UndefinedBehaviour
  end.

(** [_matrix[i] = v]. *)
Definition raw_write {T : Type} (buf : list T) (i : nat) (v : T) : result (list T) :=
  if i <? length buf then Done (<[i := v]> buf) else Stop UndefinedBehaviour.

(** Modelled from the spec: [size()] of the buffer is its element count. *)
Definition size {T : Type} (m : matrix T) : nat := length (_matrix m).

(** [_matrix != NULL]: the buffer pointer is null exactly when nothing is
    allocated. *)
Definition non_null {T : Type} (m : matrix T) : bool := 0 <? length (_matrix m).

Section Matrix.
Context {T : Type} `{Element T}.
Variable E : build T.

Definition zero : T := T_lit 0.
Definition one : T := T_lit 1.

Definition SUSA_ASSERT (cond : bool) : result unit :=
  if assertions E && negb cond then Stop AssertionFailed else Done tt.

(** Modelled from the spec: the element buffer [susa::memory<T>] is not
    part of the two headers.  [allocate(n)] yields a block of [n] elements
    that nothing has initialised. *)
Definition allocate (n : nat) : list T := junk E <$> seq 0 n.

Definition no_rows (m : matrix T) : nat := sizet_rows m.
Definition no_cols (m : matrix T) : nat := sizet_cols m.

Definition with_buf (m : matrix T) (buf : list T) : matrix T :=
  mk_matrix (sizet_rows m) (sizet_cols m) buf (T_fake m).

Definition with_fake (m : matrix T) (v : T) : matrix T :=
  mk_matrix (sizet_rows m) (sizet_cols m) (_matrix m) v.

(** *** Constructors and assignment *)

(** [matrix()] *)
Definition matrix_empty : matrix T := mk_matrix 0 0 [] (fake_junk E).

(** [matrix(size_t, size_t)] and [matrix(const std::tuple&)]: the elements
    are not initialised. *)
Definition matrix_new (rows cols : nat) : result (matrix T) :=
  SUSA_ASSERT ((0 <? cols) && (0 <? rows)) ;;;
  let r := if rows <? 2 then 1 else rows in
  let c := if cols <? 2 then 1 else cols in
  Done (mk_matrix r c (allocate (r * c)) (fake_junk E)).

(** [matrix(size_t, size_t, T)]: every element is then set to [Tinitial]. *)
Definition matrix_init (rows cols : nat) (Tinitial : T) : result (matrix T) :=
  SUSA_ASSERT ((0 <? cols) && (0 <? rows)) ;;;
  let r := if rows <? 2 then 1 else rows in
  let c := if cols <? 2 then 1 else cols in
  Done (mk_matrix r c ((fun _ => Tinitial) <$> allocate (r * c)) (fake_junk E)).

Definition shape (m : matrix T) : nat * nat := (sizet_rows m, sizet_cols m).

Definition matrix_of_shape (tshape : nat * nat) : result (matrix T) :=
  matrix_new (fst tshape) (snd tshape).

(** [operator=(const matrix&)].  Modelled from the spec: the assignment of
    the buffer base class copies the elements of the source. *)
Definition assign (this mat_arg : matrix T) : matrix T :=
  let buf := _matrix mat_arg in
  if 0 <? length buf
  then mk_matrix (sizet_rows mat_arg) (sizet_cols mat_arg) buf (T_fake this)
  else mk_matrix 0 0 buf (T_fake this).

(** *** Element access *)

(** [get_lindex]: [sizet_row + sizet_col * sizet_rows], in [nat].  The
    checked accessors call it with indices inside the matrix, where the sum
    is below the element count; [swap_rows] and [swap_cols] pass the
    indices of their callers unchecked, and the theorem about such calls
    bounds the sum by 2^64. *)
Definition get_lindex (m : matrix T) (sizet_row sizet_col : nat) : nat :=
  sizet_row + sizet_col * sizet_rows m.

(** [get(row, col)], which is also [operator()(row, col) const]. *)
Definition get (m : matrix T) (sizet_row sizet_col : nat) : result T :=
  SUSA_ASSERT (non_null m) ;;;
  SUSA_ASSERT ((sizet_row <? sizet_rows m) && (sizet_col <? sizet_cols m)) ;;;
  raw_read (_matrix m) (get_lindex m sizet_row sizet_col).

(** [get(elem)], which is also [operator()(elem) const].  The matrix read
    may have another element type than the one being computed with:
    [filter] reads its coefficient matrices this way. *)
Definition get_elem {U : Type} (m : matrix U) (sizet_elem : nat) : result U :=
  SUSA_ASSERT (non_null m) ;;;
  SUSA_ASSERT (sizet_elem <? size m) ;;;
  raw_read (_matrix m) sizet_elem.

(** [T& operator()(row, col)] *)
Definition ref (m : matrix T) (sizet_row sizet_col : nat) : result place :=
  SUSA_ASSERT (non_null m) ;;;
  SUSA_ASSERT ((sizet_row <? sizet_rows m) && (sizet_col <? sizet_cols m)) ;;;
  if (sizet_row <? sizet_rows m) && (sizet_col <? sizet_cols m) && non_null m
  then Done (Cell (get_lindex m sizet_row sizet_col))
  else Done Fake.

(** [T& operator()(elem)] *)
Definition ref_elem (m : matrix T) (sizet_elem : nat) : result place :=
  SUSA_ASSERT (non_null m) ;;;
  SUSA_ASSERT (sizet_elem <? size m) ;;;
  if (sizet_elem <? size m) && non_null m
  then Done (Cell sizet_elem)
  else Done Fake.

Definition load (m : matrix T) (p : place) : result T :=
  match p with
  | Cell i => raw_read (_matrix m) i
  | Fake => Done (T_fake m)
  end.

Definition store (m : matrix T) (p : place) (v : T) : result (matrix T) :=
  match p with
  | Cell i => buf <- raw_write (_matrix m) i v ;; Done (with_buf m buf)
  | Fake => Done (with_fake m v)
  end.

Definition is_vector (m : matrix T) : bool :=
  ((sizet_rows m =? 1) && (1 <? sizet_cols m))
  || ((1 <? sizet_rows m) && (sizet_cols m =? 1)).

Definition is_scalar (m : matrix T) : bool :=
  (sizet_rows m =? 1) && (sizet_cols m =? 1).

End Matrix.

(** ** Operators of [matrix.h] *)

Section Operators.
Context {T : Type} `{Element T}.
Variable E : build T.

(** The loop shared by the element-wise operators:
    [mat_ret._matrix[i] = op(mat_argl._matrix[i], mat_argr._matrix[i])]. *)
Definition zip_loop (op : T -> T -> result T) (sizet_size : nat)
    (mat_argl mat_argr mat_ret : matrix T) : result (matrix T) :=
  for_loop 0 sizet_size (fun sizet_index ret =>
    l <- raw_read (_matrix mat_argl) sizet_index ;;
    r <- raw_read (_matrix mat_argr) sizet_index ;;
    v <- op l r ;;
    buf <- raw_write (_matrix ret) sizet_index v ;;
    Done (with_buf ret buf)) mat_ret.

Definition same_shape (l r : matrix T) : bool :=
  (sizet_rows l =? sizet_rows r) && (sizet_cols l =? sizet_cols r).

(** [operator+(const matrix&, const matrix&)] *)
Definition op_add (mat_argl mat_argr : matrix T) : result (matrix T) :=
  mat_ret <- matrix_new E (sizet_rows mat_argl) (sizet_cols mat_argl) ;;
  let sizet_size := sizet_rows mat_argl * sizet_cols mat_argl in
  SUSA_ASSERT E (same_shape mat_argl mat_argr) ;;;
  if same_shape mat_argl mat_argr
  then zip_loop (fun l r => Done (T_add l r)) sizet_size mat_argl mat_argr mat_ret
  else Done mat_ret.

(** The body shared by [operator-], [operator*] and [operator/] on two
    matrices, which differ from [operator+] in taking the result's shape
    from [shape()] and the count from [sizet_objects]. *)
Definition zip_objects (op : T -> T -> result T)
    (mat_argl mat_argr : matrix T) : result (matrix T) :=
  mat_ret <- matrix_of_shape E (shape mat_argl) ;;
  let sizet_size := size mat_argl in
  SUSA_ASSERT E (same_shape mat_argl mat_argr) ;;;
  if same_shape mat_argl mat_argr
  then zip_loop op sizet_size mat_argl mat_argr mat_ret
  else Done mat_ret.

Definition op_sub : matrix T -> matrix T -> result (matrix T) :=
  zip_objects (fun l r => Done (T_sub l r)).

Definition op_mul : matrix T -> matrix T -> result (matrix T) :=
  zip_objects (fun l r => Done (T_mul l r)).

Definition op_div : matrix T -> matrix T -> result (matrix T) :=
  zip_objects (fun l r =>
    match T_div l r with
    | Some q => Done q
    | None => Stop UndefinedBehaviour
    end).

(** [operator*(T, const matrix&)] *)
Definition scalar_mul (T_arg : T) (mat_argr : matrix T) : result (matrix T) :=
  mat_ret <- matrix_of_shape E (shape mat_argr) ;;
  let sizet_size := size mat_argr in
  for_loop 0 sizet_size (fun sizet_index ret =>
    r <- raw_read (_matrix mat_argr) sizet_index ;;
    buf <- raw_write (_matrix ret) sizet_index (T_mul T_arg r) ;;
    Done (with_buf ret buf)) mat_ret.

(** [operator!=]: true at the first index where the elements differ. *)
Definition op_ne (mat_argl mat_argr : matrix T) : result bool :=
  iterate_return (size mat_argl) 0 (fun sizet_indx =>
    l <- raw_read (_matrix mat_argl) sizet_indx ;;
    r <- raw_read (_matrix mat_argr) sizet_indx ;;
    Done (if T_neq l r then Some true else None)) false.

(** [operator==]: false at the first index where the elements differ. *)
Definition op_eq (mat_argl mat_argr : matrix T) : result bool :=
  iterate_return (size mat_argl) 0 (fun sizet_indx =>
    l <- raw_read (_matrix mat_argl) sizet_indx ;;
    r <- raw_read (_matrix mat_argr) sizet_indx ;;
    Done (if T_neq l r then Some false else None)) true.

(** [set_row] with an argument that is an object other than the receiver:
    the stores into the receiver leave [mat_arg] as it is.  The result is
    the returned flag and the receiver. *)
Definition set_row (this : matrix T) (row : nat) (mat_arg : matrix T)
  : result (bool * matrix T) :=
  SUSA_ASSERT E ((row <? sizet_rows this) || (sizet_cols this <=? size mat_arg)) ;;;
  if (sizet_rows this <? row) || (size mat_arg <? sizet_cols this)
  then Done (false, this)
  else
    this' <- for_loop 0 (sizet_cols this) (fun indx m =>
               v <- raw_read (_matrix mat_arg) indx ;;
               buf <- raw_write (_matrix m) (get_lindex m row indx) v ;;
               Done (with_buf m buf)) this ;;
    Done (true, this').

(** [m.set_row(row, m)]: [mat_arg] refers to the receiver, so
    [mat_arg._matrix[indx]] reads the buffer as the stores before it have
    left it, and [mat_arg.sizet_objects] is the receiver's count. *)
Definition set_row_self (this : matrix T) (row : nat) : result (bool * matrix T) :=
  SUSA_ASSERT E ((row <? sizet_rows this) || (sizet_cols this <=? size this)) ;;;
  if (sizet_rows this <? row) || (size this <? sizet_cols this)
  then Done (false, this)
  else
    this' <- for_loop 0 (sizet_cols this) (fun indx m =>
               v <- raw_read (_matrix m) indx ;;
               buf <- raw_write (_matrix m) (get_lindex m row indx) v ;;
               Done (with_buf m buf)) this ;;
    Done (true, this').

(** [set_col] with an argument other than the receiver. *)
Definition set_col (this : matrix T) (col : nat) (mat_arg : matrix T)
  : result (bool * matrix T) :=
  SUSA_ASSERT E ((col <? sizet_cols this) || (sizet_rows this <=? size mat_arg)) ;;;
  if (sizet_cols this <? col) || (size mat_arg <? sizet_rows this)
  then Done (false, this)
  else
    this' <- for_loop 0 (sizet_rows this) (fun indx m =>
               v <- raw_read (_matrix mat_arg) indx ;;
               buf <- raw_write (_matrix m) (get_lindex m indx col) v ;;
               Done (with_buf m buf)) this ;;
    Done (true, this').

(** Modelled from the spec: [matmul] is declared in [matrix.h] and defined
    elsewhere.  Entry (i,j) of the matrix product accumulates
    l(i,k) * r(k,j) for k = 0, 1, ... *)
Definition matmul_entry (l r : matrix T) (i j : nat) : T :=
  fold_left (fun acc k =>
      T_add acc (T_mul (nth (get_lindex l i k) (_matrix l) zero)
                       (nth (get_lindex r k j) (_matrix r) zero)))
    (seq 0 (sizet_cols l)) zero.

(** Modelled from the spec: the matrix product [matmul(l, r)], defined when
    the column count of [l] is the row count of [r]; the result is stored
    column by column. *)
Definition matmul (l r : matrix T) : option (matrix T) :=
  if sizet_cols l =? sizet_rows r
  then Some (mk_matrix (sizet_rows l) (sizet_cols r)
               (flat_map (fun j => map (fun i => matmul_entry l r i j)
                                       (seq 0 (sizet_rows l)))
                         (seq 0 (sizet_cols r)))
               (fake_junk E))
  else None.

End Operators.

(** ** [signal.h] *)

Section Signal.
Context {T : Type} `{Element T}.
Variable E : build T.

(** [mat(row, col) = v] through the non-const [operator()]. *)
Definition put (m : matrix T) (row col : nat) (v : T) : result (matrix T) :=
  p <- ref E m row col ;; store m p v.

(** [mat(elem) = v] *)
Definition put_elem (m : matrix T) (elem : nat) (v : T) : result (matrix T) :=
  p <- ref_elem E m elem ;; store m p v.

(** [upsample].  The factor is any [size_t]: the products
    [uint_u * mat_arg.no_rows()] and [uint_row * uint_u] are taken modulo
    2^64. *)
Definition upsample (mat_arg : matrix T) (uint_u : nat) : result (matrix T) :=
  mat_tmp <- matrix_new E (size_t_of (Z.of_nat uint_u * Z.of_nat (no_rows mat_arg)))
                          (no_cols mat_arg) ;;
  for_loop 0 (no_cols mat_arg) (fun size_col mat_tmp =>
    for_loop 0 (no_rows mat_arg) (fun uint_row mat_tmp =>
      v <- get E mat_arg uint_row size_col ;;
      put mat_tmp (size_t_of (Z.of_nat uint_row * Z.of_nat uint_u)) size_col v)
      mat_tmp) mat_tmp.

Definition downsample (mat_arg : matrix T) (uint_d : nat) : result (matrix T) :=
  rows <- size_div (no_rows mat_arg) uint_d ;;
  mat_tmp <- matrix_new E rows (no_cols mat_arg) ;;
  for_loop 0 (no_cols mat_arg) (fun size_col mat_tmp =>
    for_loop 0 rows (fun uint_row mat_tmp =>
      v <- get E mat_arg (uint_row * uint_d) size_col ;;
      put mat_tmp uint_row size_col v) mat_tmp) mat_tmp.

(** The loop nest that the three branches of [filter] share.  [x_at j] is
    [mat_arg_x(j)] or [mat_arg_x(j, size_col)] and [y_at m j] is [mat_y(j)]
    or [mat_y(j, size_col)]; [len_x] and [len_y] are the bounds the branch
    compares against.  [i - k] is evaluated only when [i + 1 > k]. *)
Definition filter_loop {TT : Type} {C : Coefficient TT T}
    (mat_arg_b mat_arg_a : matrix TT)
    (size_b size_a len_x len_y size_ret_len : nat)
    (x_at : nat -> result T) (y_at : matrix T -> nat -> result place)
    (mat_y : matrix T) : result (matrix T) :=
  for_loop 0 size_ret_len (fun i mat_y =>
    mat_y <- for_loop 0 size_b (fun k mat_y =>
               x <- (if (i <? len_x + k) && (k <? i + 1)
                     then x_at (i - k) else Done zero) ;;
               b <- get_elem E mat_arg_b k ;;
               p <- y_at mat_y i ;;
               old <- load mat_y p ;;
               store mat_y p (T_add_product old x b)) mat_y ;;
    for_loop 1 size_a (fun k mat_y =>
      y <- (if (i <? len_y + k) && (k <? i + 1)
            then (q <- y_at mat_y (i - k) ;; load mat_y q) else Done zero) ;;
      a <- get_elem E mat_arg_a k ;;
      p <- y_at mat_y i ;;
      old <- load mat_y p ;;
      store mat_y p (T_sub_product old y a)) mat_y) mat_y.

(** [filter<T, TT>].  The sums [size_x_rows + size_length] and
    [size_x + size_length] are written in [nat]: [conv] passes the element
    count of its other operand less one, and the theorem about a free
    [size_length] states the bound ([fits]). *)
Definition filter {TT : Type} {C : Coefficient TT T}
    (mat_arg_b mat_arg_a : matrix TT) (mat_arg_x : matrix T) (size_length : nat)
  : result (matrix T) :=
  let mat_y := matrix_empty E in
  let size_b := size mat_arg_b in
  let size_a := size mat_arg_a in
  let size_x_rows := no_rows mat_arg_x in
  let size_x_cols := no_cols mat_arg_x in
  let size_x := size mat_arg_x in
  if (1 <? size_x_cols) && (1 <? size_x_rows) then
    let size_ret_len := size_x_rows + size_length in
    tmp <- matrix_init E size_ret_len size_x_cols zero ;;
    let mat_y := assign mat_y tmp in
    let size_y_rows := no_rows mat_y in
    for_loop 0 size_x_cols (fun size_col mat_y =>
      filter_loop mat_arg_b mat_arg_a size_b size_a size_x_rows size_y_rows
        size_ret_len
        (fun j => get E mat_arg_x j size_col)
        (fun m j => ref E m j size_col) mat_y) mat_y
  else if (size_x_cols =? 1) && (1 <? size_x_rows) then
    let size_ret_len := size_x + size_length in
    tmp <- matrix_init E size_ret_len 1 zero ;;
    let mat_y := assign mat_y tmp in
    let size_y := size mat_y in
    filter_loop mat_arg_b mat_arg_a size_b size_a size_x size_y size_ret_len
      (fun j => get_elem E mat_arg_x j) (fun m j => ref_elem E m j) mat_y
  else if (1 <? size_x_cols) && (size_x_rows =? 1) then
    let size_ret_len := size mat_arg_x + size_length in
    tmp <- matrix_init E 1 size_ret_len zero ;;
    let mat_y := assign mat_y tmp in
    let size_y := size mat_y in
    filter_loop mat_arg_b mat_arg_a size_b size_a size_x size_y size_ret_len
      (fun j => get_elem E mat_arg_x j) (fun m j => ref_elem E m j) mat_y
  else Done mat_y.

Definition is_column_or_row (m : matrix T) : bool :=
  ((1 <? no_rows m) && (no_cols m =? 1)) || ((1 <? no_cols m) && (no_rows m =? 1)).

(** [conv].  [size() - 1] is taken of a matrix with more than one row or
    column.  The loop of the fifth branch has no effect. *)
Definition conv (mat_arg_a mat_arg_b : matrix T) : result (matrix T) :=
  let mat_ret := matrix_empty E in
  if is_column_or_row mat_arg_b then
    let size_length := size mat_arg_b - 1 in
    den <- matrix_init E 1 1 one ;;
    r <- filter mat_arg_b den mat_arg_a size_length ;;
    Done (assign mat_ret r)
  else if is_column_or_row mat_arg_a then
    let size_length := size mat_arg_a - 1 in
    den <- matrix_init E 1 1 one ;;
    r <- filter mat_arg_a den mat_arg_b size_length ;;
    Done (assign mat_ret r)
  else if (no_cols mat_arg_b =? 1) && (no_rows mat_arg_b =? 1) then
    s <- get_elem E mat_arg_b 0 ;;
    r <- scalar_mul E s mat_arg_a ;;
    Done (assign mat_ret r)
  else if (no_cols mat_arg_a =? 1) && (no_rows mat_arg_a =? 1) then
    s <- get_elem E mat_arg_a 0 ;;
    r <- scalar_mul E s mat_arg_b ;;
    Done (assign mat_ret r)
  else if (1 <? no_cols mat_arg_b) && (1 <? no_rows mat_arg_b)
          && ((1 <? no_cols mat_arg_a) && (1 <? no_rows mat_arg_a))
          && (no_cols mat_arg_a =? no_cols mat_arg_b) then
    SUSA_ASSERT E false ;;;
    Done mat_ret
  else
    SUSA_ASSERT E false ;;;
    Done mat_ret.

(** [convmtx].  The sums [size_m + size_len - 1], [size_m + size_col] and
    [size_m + uint_row] are [size_t] sums of an element count and the
    caller's [size_len], reduced modulo 2^64. *)
Definition convmtx (mat_arg : matrix T) (size_len : nat) : result (matrix T) :=
  SUSA_ASSERT E (is_vector mat_arg) ;;;
  let size_m := size mat_arg in
  let mat_ret := matrix_empty E in
  if (no_cols mat_arg =? 1) && (1 <=? no_rows mat_arg) then
    tmp <- matrix_init E (size_t_of (Z.of_nat size_m + Z.of_nat size_len - 1)) size_len zero ;;
    let mat_ret := assign mat_ret tmp in
    for_loop 0 size_len (fun size_col mat_ret =>
      mat_ret <- for_loop 0 size_col (fun uint_row mat_ret =>
                   put mat_ret uint_row size_col zero) mat_ret ;;
      mat_ret <- for_loop size_col (size_t_of (Z.of_nat size_m + Z.of_nat size_col))
                   (fun uint_row mat_ret =>
                      v <- get_elem E mat_arg (uint_row - size_col) ;;
                      put mat_ret uint_row size_col v) mat_ret ;;
      for_loop (size_t_of (Z.of_nat size_m + Z.of_nat size_col))
               (size_t_of (Z.of_nat size_m + Z.of_nat size_len - 1))
        (fun uint_row mat_ret => put mat_ret uint_row size_col zero) mat_ret) mat_ret
  else if (no_rows mat_arg =? 1) && (1 <=? no_cols mat_arg) then
    tmp <- matrix_init E size_len (size_t_of (Z.of_nat size_m + Z.of_nat size_len - 1)) zero ;;
    let mat_ret := assign mat_ret tmp in
    for_loop 0 size_len (fun uint_row mat_ret =>
      mat_ret <- for_loop 0 uint_row (fun size_col mat_ret =>
                   put mat_ret uint_row size_col zero) mat_ret ;;
      mat_ret <- for_loop uint_row (size_t_of (Z.of_nat size_m + Z.of_nat uint_row))
                   (fun size_col mat_ret =>
                      v <- get_elem E mat_arg (size_col - uint_row) ;;
                      put mat_ret uint_row size_col v) mat_ret ;;
      for_loop (size_t_of (Z.of_nat size_m + Z.of_nat uint_row))
               (size_t_of (Z.of_nat size_m + Z.of_nat size_len - 1))
        (fun size_col mat_ret => put mat_ret uint_row size_col zero) mat_ret) mat_ret
  else Done mat_ret.

(** [std::abs((long int)(size_col - uint_row))] converted back to [size_t]:
    the subtraction wraps modulo 2^64, the cast reads the 64 bits as a
    signed number. *)
Definition wrap64 (z : Z) : Z := (z mod 2 ^ 64)%Z.

Definition to_long (z : Z) : Z :=
  (if z <? 2 ^ 63 then z else z - 2 ^ 64)%Z.

Definition abs_diff (size_col uint_row : nat) : nat :=
  Z.to_nat (wrap64 (Z.abs (to_long (wrap64 (Z.of_nat size_col - Z.of_nat uint_row))))).

(** [toeplitz(mat_col)].  The constructor and [operator()] multiply the
    extents in [nat]; the theorems bound [size_len * size_len] by 2^64. *)
Definition toeplitz (mat_col : matrix T) : result (matrix T) :=
  let size_len := size mat_col in
  mat_ret <- matrix_new E size_len size_len ;;
  for_loop 0 size_len (fun uint_row mat_ret =>
    for_loop 0 size_len (fun size_col mat_ret =>
      v <- get_elem E mat_col (abs_diff size_col uint_row) ;;
      put mat_ret uint_row size_col v) mat_ret) mat_ret.

End Signal.

(** ** The parser of [matrix.h] *)

(** A [std::stringstream] being read: the characters not yet extracted, and
    the fail bit. *)
Record stream : Type := mk_stream { pending : list ascii; failbit : bool }.

Definition open_stream (l : list ascii) : stream := mk_stream l false.

(** The scan of [getline(buf, count, delim)] with room for [room] more
    characters: the characters stored, the characters left, and whether the
    scan stopped for lack of room. *)
Fixpoint getline_scan (room : nat) (l : list ascii) (delim : ascii)
  : list ascii * list ascii * bool :=
  match l with
  | [] => ([], [], false)
  | c :: l' =>
      if Ascii.eqb c delim then ([], l', false)
      else match room with
           | 0 => ([], l, true)
           | S room' =>
               let '(tok, rest, full) := getline_scan room' l' delim in
               (c :: tok, rest, full)
           end
  end.

(** [getline(buf, count, delim)]: on a stream that has failed, or from which
    nothing can be extracted, [buf] receives the empty string and the fail
    bit is set. *)
Definition getline (s : stream) (count : nat) (delim : ascii) : list ascii * stream :=
  if failbit s then ([], s)
  else match pending s with
       | [] => ([], mk_stream [] true)
       | _ => let '(tok, rest, full) := getline_scan (count - 1) (pending s) delim in
              (tok, mk_stream rest full)
       end.

Definition MAX_STR_LEN : nat := 4096.

(** The first loop of [parser]: the separators counted. *)
Definition count_separators (l : list ascii) : nat * nat :=
  fold_left (fun '(rows_, cols_) c =>
               let n := nat_of_ascii c in
               if n =? 59 then (rows_ + 1, cols_ + 1)
               else if n =? 10 then (rows_ + 1, cols_)
               else if n =? 32 then (rows_, cols_ + 1)
               else (rows_, cols_))
            l (0, 0).

Section Parser.
Context {T : Type} `{Element T}.
Variable E : build T.

(** [pre_parser] is declared in [matrix.h] and defined elsewhere. *)
Variable pre_parser : string -> string.

(** [parser]: the result is the returned flag and the receiver.  The
    scratch buffer is taken to be allocated. *)
Definition parser (this : matrix T) (str_string : string)
  : result (bool * matrix T) :=
  let str := list_ascii_of_string (pre_parser str_string) in
  let '(rows0, cols0) := count_separators str in
  let sizet_cols_ := cols0 + 1 in
  let sizet_rows_ := rows0 + 1 in
  let sizet_size := sizet_cols_ * sizet_rows_ in
  SUSA_ASSERT E (sizet_cols_ mod sizet_rows_ =? 0) ;;;
  if negb (sizet_cols_ mod sizet_rows_ =? 0) then Done (false, this)
  else if negb (sizet_size =? 0) then
    let rows := sizet_rows_ in
    let cols := sizet_cols_ / sizet_rows_ in
    let sizet_size := cols * rows in
    let buf := if negb (size this =? sizet_size)
               then allocate E sizet_size else _matrix this in
    let this := mk_matrix rows cols buf (T_fake this) in
    let T_delta := if T_is_8bit then T_lit 48 else T_lit 0 in
    st <- for_loop 0 rows (fun sizet_row '(m, ss_all) =>
            let '(char_buff, ss_all) := getline ss_all MAX_STR_LEN ";" in
            let ssrow := open_stream char_buff in
            st <- for_loop 0 cols (fun sizet_col '(m, ssrow) =>
                    let '(char_buff, ssrow) := getline ssrow MAX_STR_LEN " " in
                    let T_tmp := match T_extract char_buff with
                                 | Some v => v
                                 | None => T_lit 0
                                 end in
                    buf <- raw_write (_matrix m) (get_lindex m sizet_row sizet_col)
                                     (T_sub T_tmp T_delta) ;;
                    Done (with_buf m buf, ssrow)) (m, ssrow) ;;
            Done (fst st, ss_all)) (this, open_stream str) ;;
    Done (true, fst st)
  else Done (true, mk_matrix 0 0 [] (T_fake this)).

End Parser.


(** ** The rest of [matrix.h] and [signal.h] *)

(** [for (i = hi; i > lo; i--) body] *)
Fixpoint iterate_down {S : Type} (count i : nat) (body : nat -> S -> result S) (s : S)
  : result S :=
  match count with
  | 0 => Done s
  | S count' => s' <- body i s ;; iterate_down count' (i - 1) body s'
  end.

Definition for_loop_down {S : Type} (hi lo : nat) (body : nat -> S -> result S) (s : S)
  : result S :=
  iterate_down (hi - lo) hi body s.

Section MoreMatrix.
Context {T : Type} `{Element T}.
Variable E : build T.

(** The copy constructor, used by [return *this].  Modelled from the spec:
    the copy constructor of the buffer base class copies the elements. *)
Definition copy_matrix (mat_arg : matrix T) : matrix T :=
  if 0 <? length (_matrix mat_arg)
  then mk_matrix (sizet_rows mat_arg) (sizet_cols mat_arg) (_matrix mat_arg) (fake_junk E)
  else mk_matrix 0 0 (_matrix mat_arg) (fake_junk E).

Definition is_square (m : matrix T) : bool := sizet_rows m =? sizet_cols m.

(** [set_all] *)
Definition set_all (this : matrix T) (T_arg : T) : result (matrix T) :=
  for_loop 0 (size this) (fun sizet_counter m =>
    buf <- raw_write (_matrix m) sizet_counter T_arg ;;
    Done (with_buf m buf)) this.

(** [row] *)
Definition matrix_row (this : matrix T) (sizet_row : nat) : result (matrix T) :=
  mat_ret <- matrix_new E 1 (sizet_cols this) ;;
  if sizet_row <? sizet_rows this then
    for_loop 0 (sizet_cols this) (fun sizet_i mat_ret =>
      v <- raw_read (_matrix this) (get_lindex this sizet_row sizet_i) ;;
      put_elem E mat_ret sizet_i v) mat_ret
  else Done mat_ret.

(** [col] *)
Definition matrix_col (this : matrix T) (sizet_col : nat) : result (matrix T) :=
  mat_ret <- matrix_new E (sizet_rows this) 1 ;;
  if sizet_col <? sizet_cols this then
    for_loop 0 (sizet_rows this) (fun sizet_i mat_ret =>
      v <- raw_read (_matrix this) (get_lindex this sizet_i sizet_col) ;;
      put_elem E mat_ret sizet_i v) mat_ret
  else Done mat_ret.

(** [swap_cols] *)
Definition swap_cols (this : matrix T) (col_a col_b : nat) : result (matrix T) :=
  for_loop 0 (sizet_rows this) (fun row m =>
    T_tmp <- raw_read (_matrix m) (get_lindex m row col_a) ;;
    b <- raw_read (_matrix m) (get_lindex m row col_b) ;;
    buf <- raw_write (_matrix m) (get_lindex m row col_a) b ;;
    buf <- raw_write buf (get_lindex m row col_b) T_tmp ;;
    Done (with_buf m buf)) this.

(** [swap_rows] *)
Definition swap_rows (this : matrix T) (row_a row_b : nat) : result (matrix T) :=
  for_loop 0 (sizet_cols this) (fun col m =>
    T_tmp <- raw_read (_matrix m) (get_lindex m row_a col) ;;
    b <- raw_read (_matrix m) (get_lindex m row_b col) ;;
    buf <- raw_write (_matrix m) (get_lindex m row_a col) b ;;
    buf <- raw_write buf (get_lindex m row_b col) T_tmp ;;
    Done (with_buf m buf)) this.

(** [shrink].  The tests [sizet_elim_row >= 0] and [sizet_elim_col >= 0] of
    the source hold for every [size_t]; [sizet_rows - 1] and [sizet_cols - 1]
    are taken of extents above 1, and [sizet_row - 1] of a row above the
    eliminated one. *)
Definition shrink (this : matrix T) (sizet_elim_row sizet_elim_col : nat)
  : result (matrix T) :=
  let mat_ret := matrix_empty E in
  let sizet_rows := sizet_rows this in
  let sizet_cols := sizet_cols this in
  SUSA_ASSERT E ((1 <? sizet_cols) && (1 <? sizet_rows)) ;;;
  if (1 <? sizet_cols) && (1 <? sizet_rows) then
    tmp <- matrix_new E (sizet_rows - 1) (sizet_cols - 1) ;;
    let mat_ret := assign mat_ret tmp in
    SUSA_ASSERT E ((sizet_elim_col <? sizet_cols) && (sizet_elim_row <? sizet_rows)) ;;;
    if (sizet_elim_col <? sizet_cols) && (sizet_elim_row <? sizet_rows) then
      for_loop 0 sizet_rows (fun sizet_row mat_ret =>
        for_loop 0 sizet_cols (fun sizet_col mat_ret =>
          if negb (sizet_col =? sizet_elim_col) || negb (sizet_row =? sizet_elim_row) then
            let sizet_new_row :=
              if sizet_elim_row <? sizet_row then sizet_row - 1 else sizet_row in
            let sizet_new_col :=
              if sizet_elim_col <? sizet_col then sizet_col - 1 else sizet_col in
            if (sizet_new_row <? sizet_rows - 1) && (sizet_new_col <? sizet_cols - 1) then
              v <- raw_read (_matrix this) (get_lindex this sizet_row sizet_col) ;;
              put E mat_ret sizet_new_row sizet_new_col v
            else Done mat_ret
          else Done mat_ret) mat_ret) mat_ret
    else Done (copy_matrix this)
  else Done (copy_matrix this).

(** The result of [left], [right] and [mid] before it is filled: a row or a
    column of [n] elements for a row or column receiver, nothing for a 1x1
    receiver, and an assertion for any other. *)
Definition slice_result (this : matrix T) (n : nat) : result (matrix T) :=
  let mat_ret := matrix_empty E in
  if (sizet_rows this =? 1) && negb (sizet_cols this =? 1) then
    tmp <- matrix_new E 1 n ;; Done (assign mat_ret tmp)
  else if negb (sizet_rows this =? 1) && (sizet_cols this =? 1) then
    tmp <- matrix_new E n 1 ;; Done (assign mat_ret tmp)
  else if negb (sizet_rows this =? 1) && negb (sizet_cols this =? 1) then
    SUSA_ASSERT E false ;;; Done mat_ret
  else Done mat_ret.

(** [left] *)
Definition matrix_left (this : matrix T) (sizet_left : nat) : result (matrix T) :=
  let mat_ret := matrix_empty E in
  SUSA_ASSERT E (sizet_left <=? size this) ;;;
  if sizet_left <=? size this then
    mat_ret <- slice_result this sizet_left ;;
    for_loop 0 sizet_left (fun sizet_i mat_ret =>
      v <- raw_read (_matrix this) sizet_i ;;
      put_elem E mat_ret sizet_i v) mat_ret
  else Done mat_ret.

(** [sizet_right - sizet_objects + sizet_i - 1] in [size_t] arithmetic: the
    difference wraps and the sum wraps back. *)
Definition right_index (sizet_right sizet_objects sizet_i : nat) : nat :=
  Z.to_nat (wrap64 (wrap64 (wrap64 (Z.of_nat sizet_right - Z.of_nat sizet_objects)
                            + Z.of_nat sizet_i) - 1)).

(** [right].  [sizet_objects - sizet_right] is taken when [sizet_right] is
    below [sizet_objects], and [sizet_i - 1] of a positive [sizet_i]. *)
Definition matrix_right (this : matrix T) (sizet_right : nat) : result (matrix T) :=
  let mat_ret := matrix_empty E in
  SUSA_ASSERT E (sizet_right <=? size this) ;;;
  if size this <? sizet_right then Done mat_ret
  else if size this =? sizet_right then Done (copy_matrix this)
  else
    mat_ret <- slice_result this sizet_right ;;
    for_loop_down (size this) (size this - sizet_right) (fun sizet_i mat_ret =>
      v <- raw_read (_matrix this) (sizet_i - 1) ;;
      put_elem E mat_ret (right_index sizet_right (size this) sizet_i) v) mat_ret.

(** [mid].  [sizet_end - sizet_begin] is used only when [sizet_end] is above
    [sizet_begin]. *)
Definition matrix_mid (this : matrix T) (sizet_begin sizet_end : nat)
  : result (matrix T) :=
  let mat_ret := matrix_empty E in
  let sizet_mid := sizet_end - sizet_begin in
  let ok := (sizet_begin <? size this) && (sizet_end <? size this)
            && (sizet_begin <? sizet_end) in
  SUSA_ASSERT E ok ;;;
  if ok then
    mat_ret <- slice_result this (sizet_mid + 1) ;;
    for_loop sizet_begin (sizet_end + 1) (fun sizet_i mat_ret =>
      v <- raw_read (_matrix this) sizet_i ;;
      put_elem E mat_ret (sizet_i - sizet_begin) v) mat_ret
  else Done mat_ret.

(** The body shared by the operators between a matrix and a scalar:
    [mat_ret._matrix[i] = f(mat_arg._matrix[i])]. *)
Definition map_loop (f : T -> result T) (mat_arg : matrix T) : result (matrix T) :=
  mat_ret <- matrix_of_shape E (shape mat_arg) ;;
  let sizet_size := size mat_arg in
  for_loop 0 sizet_size (fun sizet_index ret =>
    x <- raw_read (_matrix mat_arg) sizet_index ;;
    v <- f x ;;
    buf <- raw_write (_matrix ret) sizet_index v ;;
    Done (with_buf ret buf)) mat_ret.

(** [operator+(const matrix&, T)] and [operator+(T, const matrix&)]: both
    compute [_matrix[i] + T_arg]. *)
Definition op_add_scalar (mat_argl : matrix T) (T_arg : T) : result (matrix T) :=
  map_loop (fun x => Done (T_add x T_arg)) mat_argl.

Definition scalar_add (T_arg : T) (mat_argr : matrix T) : result (matrix T) :=
  map_loop (fun x => Done (T_add x T_arg)) mat_argr.

(** [operator-(const matrix&, T)] and [operator-(T, const matrix&)] *)
Definition op_sub_scalar (mat_argl : matrix T) (T_arg : T) : result (matrix T) :=
  map_loop (fun x => Done (T_sub x T_arg)) mat_argl.

Definition scalar_sub (T_arg : T) (mat_argr : matrix T) : result (matrix T) :=
  map_loop (fun x => Done (T_sub T_arg x)) mat_argr.

(** [operator*(const matrix&, T)] *)
Definition op_mul_scalar (mat_argl : matrix T) (T_arg : T) : result (matrix T) :=
  map_loop (fun x => Done (T_mul x T_arg)) mat_argl.

(** [operator/(const matrix&, T)] *)
Definition op_div_scalar (mat_argl : matrix T) (T_arg : T) : result (matrix T) :=
  map_loop (fun x => match T_div x T_arg with
                     | Some q => Done q
                     | None => Stop UndefinedBehaviour
                     end) mat_argl.

(** The body shared by [operator+=] and [operator-=]: the receiver after the
    call; the value returned is a copy of it. *)
Definition assign_loop (op : T -> T -> T) (this mat_arg : matrix T)
  : result (matrix T) :=
  SUSA_ASSERT E (non_null this) ;;;
  SUSA_ASSERT E (same_shape mat_arg this) ;;;
  if same_shape mat_arg this && non_null this then
    for_loop 0 (size this) (fun sizet_index m =>
      x <- raw_read (_matrix m) sizet_index ;;
      y <- raw_read (_matrix mat_arg) sizet_index ;;
      buf <- raw_write (_matrix m) sizet_index (op x y) ;;
      Done (with_buf m buf)) this
  else Done this.

Definition op_add_assign : matrix T -> matrix T -> result (matrix T) :=
  assign_loop T_add.

Definition op_sub_assign : matrix T -> matrix T -> result (matrix T) :=
  assign_loop T_sub.

(** [toeplitz(mat_col, mat_row)]: the result is built with [mat_col.size()]
    rows and [mat_row.size()] columns and filled for row indices below
    [mat_row.size()] and column indices below [mat_col.size()].  The
    product of the two extents is taken in [nat]; the theorem about equal
    lengths bounds it by 2^64. *)
Definition toeplitz2 (mat_col mat_row : matrix T) : result (matrix T) :=
  let size_cols := size mat_col in
  let size_rows := size mat_row in
  mat_ret <- matrix_new E size_cols size_rows ;;
  for_loop 0 size_rows (fun uint_row mat_ret =>
    for_loop 0 size_cols (fun size_col mat_ret =>
      v <- get_elem E mat_col (abs_diff size_col uint_row) ;;
      put E mat_ret uint_row size_col v) mat_ret) mat_ret.

End MoreMatrix.


(** ** Properties used to state the theorems *)

Section Properties.
Context {T : Type} `{Element T}.

(** The invariant of the container: the buffer holds rows x cols elements. *)
Definition wf (m : matrix T) : Prop :=
  length (_matrix m) = sizet_rows m * sizet_cols m.

(** The empty state: no rows, no columns, no elements. *)
Definition is_empty (m : matrix T) : Prop :=
  sizet_rows m = 0 /\ sizet_cols m = 0 /\ _matrix m = [].

(** Same shape and same elements. *)
Definition same_matrix (m n : matrix T) : Prop :=
  sizet_rows m = sizet_rows n /\ sizet_cols m = sizet_cols n
  /\ _matrix m = _matrix n.

(** The elements of the two buffers agree at every linear index. *)
Definition agree_everywhere (l r : list T) : Prop :=
  forall i a b, l !! i = Some a -> r !! i = Some b -> T_neq a b = false.

(** Every element is zero and the shape is that of [like]. *)
Definition zero_filled_like (like m : matrix T) : Prop :=
  sizet_rows m = sizet_rows like /\ sizet_cols m = sizet_cols like
  /\ _matrix m = replicate (sizet_rows like * sizet_cols like) zero.

(** [col[|j - i|]]: the index the claims about [toeplitz] speak of. *)
Definition abs_index (i j : nat) : nat :=
  Z.to_nat (Z.abs (Z.of_nat j - Z.of_nat i)).

(** The cells [(r, c)] selected by [W] hold [F r c], in a matrix of shape
    [R] x [C] whose [T_fake] is [f]. *)
Definition filled (R C : nat) (F : nat -> nat -> T) (W : nat -> nat -> Prop)
    (f : T) (m : matrix T) : Prop :=
  sizet_rows m = R /\ sizet_cols m = C /\ T_fake m = f /\ wf m
  /\ forall r c, r < R -> c < C -> W r c ->
                 _matrix m !! (r + c * R) = Some (F r c).


(** *** The filter on lists *)

(** What one pass of the first inner loop of [filter] reads for [x]: the
    element [i - k] of [v] when the two tests of the source hold. *)
Definition tap (v : list T) (len i k : nat) : T :=
  if (i <? len + k) && (k <? i + 1) then nth (i - k) v zero else zero.

(** The accumulator after [taps] passes of the first inner loop. *)
Definition fir_acc (b xs : list T) (len_x i taps : nat) : T :=
  fold_left (fun acc k => T_add acc (T_mul (tap xs len_x i k) (nth k b zero)))
            (seq 0 taps) zero.

(** The accumulator after passes 1..[taps] of the second inner loop. *)
Definition iir_acc (a ys : list T) (len_y i taps : nat) (acc : T) : T :=
  fold_left (fun acc k => T_sub acc (T_mul (tap ys len_y i k) (nth k a zero)))
            (seq 1 taps) acc.

(** The first [n] output samples. *)
Fixpoint run_filter (b a xs : list T) (len_x len_y n : nat) : list T :=
  match n with
  | 0 => []
  | S n' =>
      let ys := run_filter b a xs len_x len_y n' in
      ys ++ [iir_acc a ys len_y n' (length a - 1)
               (fir_acc b xs len_x n' (length b))]
  end.

(** *** The difference equation of the specification *)

(** [v[n - k]], zero when [n - k] is outside the valid sample range. *)
Definition sample (v : list T) (n k : nat) : T :=
  if (k <=? n) && (n - k <? length v) then nth (n - k) v zero else zero.

(** The sum of [f k] for [lo <= k < hi]. *)
Definition sigma (lo hi : nat) (f : nat -> T) : T :=
  fold_right (fun k acc => T_add (f k) acc) zero (seq lo (hi - lo)).

(** [y[n] = sum_{k=0}^{|b|-1} b[k] x[n-k] - sum_{k=1}^{|a|-1} a[k] y[n-k]] *)
Definition difference_equation (b a x y : list T) (n : nat) : Prop :=
  nth n y zero
  = T_sub (sigma 0 (length b) (fun k => T_mul (nth k b zero) (sample x n k)))
          (sigma 1 (length a) (fun k => T_mul (nth k a zero) (sample y n k))).

(** Column [c] of a matrix, top to bottom. *)
Definition column (m : matrix T) (c : nat) : list T :=
  map (fun r => nth (r + c * sizet_rows m) (_matrix m) zero)
      (seq 0 (sizet_rows m)).

(** The laws of a commutative ring, for element types that have them. *)
Definition element_ring : Prop :=
  ring_theory zero one T_add T_mul T_sub (fun x => T_sub zero x) eq.


(** *** The band of a convolution matrix *)

(** Entry [(r, c)] of the matrix whose columns are [h] shifted down by the
    column index and padded with zeros. *)
Definition band (h : list T) (r c : nat) : T :=
  if (c <=? r) && (r <? length h + c) then nth (r - c) h zero else zero.


(** *** The bodies of the two comparison loops *)

Definition eq_body (l r : list T) (i : nat) : result (option bool) :=
  a <- raw_read l i ;; b <- raw_read r i ;;
  Done (if T_neq a b then Some false else None).

Definition ne_body (l r : list T) (i : nat) : result (option bool) :=
  a <- raw_read l i ;; b <- raw_read r i ;;
  Done (if T_neq a b then Some true else None).

(** The matrix a two-argument constructor leaves behind: the requested
    shape around a block nobody has written to. *)
Definition untouched (E : build T) (rows cols : nat) : matrix T :=
  mk_matrix rows cols (allocate E (rows * cols)) (fake_junk E).

(** The output buffer of the general-matrix branch of [filter]: one
    filtered column after the other. *)
Definition filtered_columns (b a : list T) (x : matrix T) (N : nat) : list T :=
  flat_map (fun c => run_filter b a (column x c) (sizet_rows x) N N)
           (seq 0 (sizet_cols x)).

(** *** Statements about rows and columns *)

(** [r] is a 1 x cols matrix holding row [i] of [m]. *)
Definition is_row_of (E : build T) (m : matrix T) (i : nat) (r : matrix T) : Prop :=
  sizet_rows r = 1 /\ sizet_cols r = sizet_cols m
  /\ forall c, c < sizet_cols m ->
       exists v, get E m i c = Done v /\ get_elem E r c = Done v.

(** [r] is a rows x 1 matrix holding column [j] of [m]. *)
Definition is_col_of (E : build T) (m : matrix T) (j : nat) (r : matrix T) : Prop :=
  sizet_rows r = sizet_rows m /\ sizet_cols r = 1
  /\ forall i, i < sizet_rows m ->
       exists v, get E m i j = Done v /\ get_elem E r i = Done v.


(** *** The pass shared by the two swaps

    Pass [k] exchanges the elements at the linear indices [ia m k] and
    [ib m k]. *)
Definition swap_body (ia ib : matrix T -> nat -> nat) (k : nat) (m : matrix T)
  : result (matrix T) :=
  T_tmp <- raw_read (_matrix m) (ia m k) ;;
  b <- raw_read (_matrix m) (ib m k) ;;
  buf <- raw_write (_matrix m) (ia m k) b ;;
  buf <- raw_write buf (ib m k) T_tmp ;;
  Done (with_buf m buf).

(** *** The index map of a minor *)

(** The index in the receiver of index [i] of [shrink]'s result, when the
    row or column [e] is the one left out. *)
Definition skip (e i : nat) : nat := if i <? e then i else i + 1.


(** *** Slices of a vector *)

(** [M] holds the elements [l] in the orientation of the vector [this]. *)
Definition is_slice (this : matrix T) (l : list T) (M : matrix T) : Prop :=
  _matrix M = l
  /\ (sizet_rows this = 1 -> sizet_rows M = 1 /\ sizet_cols M = length l)
  /\ (sizet_cols this = 1 -> sizet_rows M = length l /\ sizet_cols M = 1).


(** *** The fault of an access outside a buffer *)

(** What an element access outside the matrix ends in: the assertion of a
    build that has them, the access itself in a build that has none. *)
Definition halting_fault (E : build T) : fault :=
  if assertions E then AssertionFailed else UndefinedBehaviour.


(** *** Coefficients of another element type *)

(** A coefficient matrix converted element by element to the signal's
    element type. *)
Definition matrix_cast {TT : Type} (cast : TT -> T) (m : matrix TT) : matrix T :=
  mk_matrix (sizet_rows m) (sizet_cols m) (cast <$> _matrix m) (cast (T_fake m)).

(** The coefficients convert to the signal's element type without loss:
    multiplying by a coefficient and accumulating is multiplying by its
    conversion and adding, or subtracting, in [T]. *)
Definition exact_coefficients {TT : Type} {C : Coefficient TT T} (cast : TT -> T)
  : Prop :=
  (forall acc x c, T_add_product acc x c = T_add acc (T_mul x (cast c)))
  /\ (forall acc y c, T_sub_product acc y c = T_sub acc (T_mul y (cast c))).


End Properties.

(** ** Running the model *)

Module Examples.
(** A release build whose allocator hands out blocks filled with 7. *)
Definition release7 : build Z := {| assertions := false; junk := fun _ => 7%Z; fake_junk := 7%Z |}.
Definition debug7 : build Z := {| assertions := true; junk := fun _ => 7%Z; fake_junk := 7%Z |}.

(** A build for [matrix<bool>], assertions on. *)
Definition debug_bool : build bool :=
  {| assertions := true; junk := fun _ => false; fake_junk := false |}.

Definition row_vec (l : list Z) : matrix Z := mk_matrix 1 (length l) l 7%Z.
Definition col_vec (l : list Z) : matrix Z := mk_matrix (length l) 1 l 7%Z.

(** The 2x3 matrix with rows (1 3 5) and (2 4 6). *)
Definition grid23 : matrix Z := mk_matrix 2 3 [1; 2; 3; 4; 5; 6]%Z 0%Z.

(** The 3x3 matrix with rows (1 4 7), (2 5 8) and (3 6 9). *)
Definition grid33 : matrix Z := mk_matrix 3 3 [1; 2; 3; 4; 5; 6; 7; 8; 9]%Z 0%Z.

End Examples.

(** * Facts about the embedding *)

(** ** The monad and the loops *)

Lemma bind_Done {A B : Type} (a : A) (k : A -> result B) : bind (Done a) k = k a.
Proof. reflexivity. Qed.

Lemma bind_inv {A B : Type} (r : result A) (k : A -> result B) (b : B) :
  bind r k = Done b -> exists a, r = Done a /\ k a = Done b.
Proof. destruct r as [a|f]; simpl; intros Hk; [eauto | discriminate]. Qed.

Lemma iterate_inv {St : Type} (I : nat -> St -> Prop) (body : nat -> St -> result St) :
  forall count i s,
    I i s ->
    (forall j t, i <= j < i + count -> I j t ->
                 exists t', body j t = Done t' /\ I (j + 1) t') ->
    exists s', iterate count i body s = Done s' /\ I (i + count) s'.
Proof.
  induction count as [|count IH]; intros i s Hi Hstep; simpl.
  - exists s. rewrite Nat.add_0_r. auto.
  - destruct (Hstep i s) as (t & Hb & Ht); [lia | assumption |].
    rewrite Hb; simpl.
    destruct (IH (i + 1) t Ht) as (s' & Hrun & Hs').
    + intros j u Hj Hu. apply Hstep; [lia | assumption].
    + exists s'. split; [assumption |].
      replace (i + S count) with (i + 1 + count) by lia. assumption.
Qed.

Lemma for_loop_inv {St : Type} (I : nat -> St -> Prop) lo hi
    (body : nat -> St -> result St) (s : St) :
  lo <= hi ->
  I lo s ->
  (forall j t, lo <= j < hi -> I j t ->
               exists t', body j t = Done t' /\ I (j + 1) t') ->
  exists s', for_loop lo hi body s = Done s' /\ I hi s'.
Proof.
  intros Hle Hlo Hstep. unfold for_loop.
  destruct (iterate_inv I body (hi - lo) lo s Hlo) as (s' & Hrun & Hs').
  - intros j t Hj. apply Hstep. lia.
  - exists s'. split; [assumption |].
    replace hi with (lo + (hi - lo)) by lia. assumption.
Qed.

(** Two bodies that agree on every state satisfying an invariant run alike. *)
Lemma iterate_agree {St : Type} (I : nat -> St -> Prop)
    (f g : nat -> St -> result St) :
  forall count i s,
    I i s ->
    (forall j t, i <= j < i + count -> I j t ->
                 f j t = g j t /\ forall t', g j t = Done t' -> I (j + 1) t') ->
    iterate count i f s = iterate count i g s.
Proof.
  induction count as [|count IH]; intros i s Hi Hstep; simpl; [reflexivity |].
  destruct (Hstep i s) as [Heq Hnext]; [lia | assumption |].
  rewrite Heq. destruct (g i s) as [t | e]; simpl; [| reflexivity].
  apply IH; [apply Hnext; reflexivity |].
  intros j u Hj Hu. apply Hstep; [lia | assumption].
Qed.

Lemma for_loop_agree {St : Type} (I : nat -> St -> Prop) lo hi
    (f g : nat -> St -> result St) (s : St) :
  I lo s ->
  (forall j t, lo <= j < hi -> I j t ->
               f j t = g j t /\ forall t', g j t = Done t' -> I (j + 1) t') ->
  for_loop lo hi f s = for_loop lo hi g s.
Proof.
  intros Hlo Hstep. unfold for_loop.
  apply (iterate_agree I); [assumption |].
  intros j t Hj. apply Hstep. lia.
Qed.

Lemma for_loop_none {St : Type} lo hi (body : nat -> St -> result St) (s : St) :
  hi <= lo -> for_loop lo hi body s = Done s.
Proof.
  intros Hle. unfold for_loop. replace (hi - lo) with 0 by lia. reflexivity.
Qed.

(** ** Sizes *)

Lemma fits_le (a b : nat) : a <= b -> fits b -> fits a.
Proof. unfold fits. lia. Qed.

Lemma size_t_of_fits (n : nat) : fits n -> size_t_of (Z.of_nat n) = n.
Proof.
  unfold fits, size_t_of. intros Hn.
  rewrite Z.mod_small by lia. apply Nat2Z.id.
Qed.

Lemma size_t_of_mul (a b : nat) :
  fits (a * b) -> size_t_of (Z.of_nat a * Z.of_nat b) = a * b.
Proof. intros Hab. rewrite <- Nat2Z.inj_mul. apply size_t_of_fits, Hab. Qed.

Lemma size_t_of_add (a b : nat) :
  fits (a + b) -> size_t_of (Z.of_nat a + Z.of_nat b) = a + b.
Proof. intros Hab. rewrite <- Nat2Z.inj_add. apply size_t_of_fits, Hab. Qed.

(** A square count below 2^64 has a side below 2^32. *)
Lemma fits_square (n : nat) : fits (n * n) -> (Z.of_nat n < 2 ^ 32)%Z.
Proof.
  unfold fits. intros Hn.
  destruct (Z.lt_ge_cases (Z.of_nat n) (2 ^ 32)) as [Hlt | Hge]; [exact Hlt |].
  exfalso.
  assert (H64 : (2 ^ 64 = 2 ^ 32 * 2 ^ 32)%Z) by reflexivity.
  rewrite Nat2Z.inj_mul in Hn. nia.
Qed.

Lemma size_t_of_add_pred (a b : nat) :
  1 <= a + b -> fits (a + b - 1) ->
  size_t_of (Z.of_nat a + Z.of_nat b - 1) = a + b - 1.
Proof.
  intros Hpos Hab.
  replace (Z.of_nat a + Z.of_nat b - 1)%Z with (Z.of_nat (a + b - 1)) by lia.
  apply size_t_of_fits, Hab.
Qed.

(** ** Assertions and element access *)

Section Access.
Context {T : Type} `{Element T}.
Variable E : build T.

Lemma assert_true : SUSA_ASSERT E true = Done tt.
Proof. unfold SUSA_ASSERT. rewrite andb_false_r. reflexivity. Qed.

Lemma assert_release c : assertions E = false -> SUSA_ASSERT E c = Done tt.
Proof. intros Hr. unfold SUSA_ASSERT. rewrite Hr. reflexivity. Qed.

Lemma assert_debug_false : assertions E = true -> SUSA_ASSERT E false = Stop AssertionFailed.
Proof. intros Hd. unfold SUSA_ASSERT. rewrite Hd. reflexivity. Qed.

Lemma raw_read_Some (buf : list T) i v : buf !! i = Some v -> raw_read buf i = Done v.
Proof. intros Hl. unfold raw_read. rewrite Hl. reflexivity. Qed.

Lemma raw_write_lt (buf : list T) i v :
  i < length buf -> raw_write buf i v = Done (<[i := v]> buf).
Proof.
  intros Hlt. unfold raw_write.
  destruct (Nat.ltb_spec i (length buf)); [reflexivity | lia].
Qed.

Lemma lindex_lt R C r c : r < R -> c < C -> r + c * R < R * C.
Proof.
  intros Hr Hc.
  assert (Hle : (c + 1) * R <= C * R) by (apply Nat.mul_le_mono_r; lia).
  lia.
Qed.

Lemma lindex_inj R r c r' c' :
  r < R -> r' < R -> r + c * R = r' + c' * R -> r = r' /\ c = c'.
Proof.
  intros Hr Hr' Heq.
  destruct (Nat.lt_trichotomy c c') as [Hlt | [Heq' | Hgt]].
  - assert (Hle : (c + 1) * R <= c' * R) by (apply Nat.mul_le_mono_r; lia). lia.
  - subst c'. lia.
  - assert (Hle : (c' + 1) * R <= c * R) by (apply Nat.mul_le_mono_r; lia). lia.
Qed.

Lemma get_Some (m : matrix T) r c v :
  r < sizet_rows m -> c < sizet_cols m ->
  _matrix m !! (r + c * sizet_rows m) = Some v ->
  get E m r c = Done v.
Proof.
  intros Hr Hc Hl. unfold get, non_null, get_lindex.
  assert (Hlen : 0 < length (_matrix m)).
  { apply lookup_lt_Some in Hl. lia. }
  destruct (Nat.ltb_spec 0 (length (_matrix m))); [| lia].
  destruct (Nat.ltb_spec r (sizet_rows m)); [| lia].
  destruct (Nat.ltb_spec c (sizet_cols m)); [| lia].
  simpl. rewrite assert_true. simpl. apply raw_read_Some, Hl.
Qed.

Lemma get_elem_Some (m : matrix T) i v :
  _matrix m !! i = Some v -> get_elem E m i = Done v.
Proof.
  intros Hl. unfold get_elem, non_null, size.
  pose proof (lookup_lt_Some _ _ _ Hl) as Hlt.
  destruct (Nat.ltb_spec 0 (length (_matrix m))); [| lia].
  destruct (Nat.ltb_spec i (length (_matrix m))); [| lia].
  rewrite assert_true. simpl. apply raw_read_Some, Hl.
Qed.

Lemma put_in_range (m : matrix T) r c v :
  wf m -> r < sizet_rows m -> c < sizet_cols m ->
  put E m r c v = Done (with_buf m (<[r + c * sizet_rows m := v]> (_matrix m))).
Proof.
  intros Hwf Hr Hc. unfold put, ref, non_null, get_lindex.
  pose proof (lindex_lt _ _ _ _ Hr Hc) as Hlt. rewrite <- Hwf in Hlt.
  destruct (Nat.ltb_spec 0 (length (_matrix m))); [| lia].
  destruct (Nat.ltb_spec r (sizet_rows m)); [| lia].
  destruct (Nat.ltb_spec c (sizet_cols m)); [| lia].
  simpl. rewrite assert_true. simpl.
  rewrite raw_write_lt by assumption. reflexivity.
Qed.

Lemma ref_elem_in_range (m : matrix T) i :
  i < length (_matrix m) -> ref_elem E m i = Done (Cell i).
Proof.
  intros Hlt. unfold ref_elem, non_null, size.
  destruct (Nat.ltb_spec 0 (length (_matrix m))); [| lia].
  destruct (Nat.ltb_spec i (length (_matrix m))); [| lia].
  rewrite assert_true. reflexivity.
Qed.

Lemma ref_in_range (m : matrix T) r c :
  wf m -> r < sizet_rows m -> c < sizet_cols m ->
  ref E m r c = Done (Cell (r + c * sizet_rows m)).
Proof.
  intros Hwf Hr Hc. unfold ref, non_null, get_lindex.
  pose proof (lindex_lt _ _ _ _ Hr Hc) as Hlt. rewrite <- Hwf in Hlt.
  destruct (Nat.ltb_spec 0 (length (_matrix m))); [| lia].
  destruct (Nat.ltb_spec r (sizet_rows m)); [| lia].
  destruct (Nat.ltb_spec c (sizet_cols m)); [| lia].
  simpl. rewrite assert_true. reflexivity.
Qed.

Lemma length_allocate n : length (allocate E n) = n.
Proof. unfold allocate. rewrite length_fmap, length_seq. reflexivity. Qed.

Lemma matrix_new_ok rows cols :
  1 <= rows -> 1 <= cols ->
  matrix_new E rows cols
  = Done (mk_matrix rows cols (allocate E (rows * cols)) (fake_junk E)).
Proof.
  intros Hr Hc. unfold matrix_new.
  destruct (Nat.ltb_spec 0 cols); [| lia].
  destruct (Nat.ltb_spec 0 rows); [| lia].
  simpl. rewrite assert_true. simpl.
  destruct (Nat.ltb_spec rows 2), (Nat.ltb_spec cols 2);
    repeat f_equal; lia.
Qed.

Lemma matrix_init_ok rows cols v :
  1 <= rows -> 1 <= cols ->
  matrix_init E rows cols v
  = Done (mk_matrix rows cols (replicate (rows * cols) v) (fake_junk E)).
Proof.
  intros Hr Hc. unfold matrix_init.
  destruct (Nat.ltb_spec 0 cols); [| lia].
  destruct (Nat.ltb_spec 0 rows); [| lia].
  simpl. rewrite assert_true. simpl.
  assert (Hfill : forall n, (fun _ : T => v) <$> allocate E n = replicate n v).
  { intros n. unfold allocate. rewrite <- list_fmap_compose.
    generalize 0. induction n as [|n IH]; intros s; simpl; [reflexivity |].
    f_equal. apply IH. }
  rewrite Hfill.
  destruct (Nat.ltb_spec rows 2), (Nat.ltb_spec cols 2);
    repeat f_equal; lia.
Qed.

End Access.

(** * The filter on a scalar input, and convolution with a scalar *)

Section ScalarInput.
Context {T : Type} `{Element T}.
Variable E : build T.


Lemma filter_scalar_input (b a x : matrix T) (extra_length : nat) :
  sizet_rows x = 1 -> sizet_cols x = 1 ->
  filter E b a x extra_length = Done (matrix_empty E).
Proof.
  intros Hr Hc. unfold filter, no_rows, no_cols. rewrite Hr, Hc. reflexivity.
Qed.

Lemma scalar_not_column_or_row (q : matrix T) :
  sizet_rows q = 1 -> sizet_cols q = 1 -> is_column_or_row q = false.
Proof.
  intros Hr Hc. unfold is_column_or_row, no_rows, no_cols. rewrite Hr, Hc.
  reflexivity.
Qed.

(** With a vector and a 1x1 operand, in either order, [conv] takes one of
    its two [filter] branches with the 1x1 operand as the filter input. *)
Lemma conv_vector_scalar (p q : matrix T) :
  is_column_or_row p = true -> sizet_rows q = 1 -> sizet_cols q = 1 ->
  conv E p q = Done (matrix_empty E) /\ conv E q p = Done (matrix_empty E).
Proof.
  intros Hp Hr Hc.
  pose proof (scalar_not_column_or_row q Hr Hc) as Hq.
  assert (Hden : matrix_init E 1 1 one
                 = Done (mk_matrix 1 1 (replicate (1 * 1) one) (fake_junk E))).
  { apply matrix_init_ok; lia. }
  split; unfold conv; rewrite ?Hq, Hp, Hden; simpl;
    rewrite filter_scalar_input by assumption; reflexivity.
Qed.

End ScalarInput.


(** C3. The convolution of the column vector [1;2;3] with the scalar [2], in
    either order and in every build, is the empty matrix and not [2;4;6]. *)
Theorem conv_vector_scalar_is_empty (E : build Z) :
  conv E (Examples.col_vec [1; 2; 3]%Z) (Examples.row_vec [2]%Z) = Done (matrix_empty E)
  /\ conv E (Examples.row_vec [2]%Z) (Examples.col_vec [1; 2; 3]%Z) = Done (matrix_empty E).
Proof. apply conv_vector_scalar; reflexivity. Qed.

(** * Equality and inequality *)

Section Comparison.
Context {T : Type} `{Element T}.

(** Both scans, started at index [i] with [count] elements left. *)
Lemma scan_from (l r : list T) :
  length l = length r ->
  forall count i, i + count = length l ->
    exists b,
      iterate_return count i (eq_body l r) true = Done b
      /\ iterate_return count i (ne_body l r) false = Done (negb b)
      /\ (b = true <->
          forall j x y, i <= j -> l !! j = Some x -> r !! j = Some y ->
                        T_neq x y = false).
Proof.
  intros Hlen. induction count as [|count IH]; intros i Hi; simpl.
  - exists true. repeat split; try reflexivity.
    intros _ j x y Hj Hx. apply lookup_lt_Some in Hx. lia.
  - destruct (lookup_lt_is_Some_2 l i) as [x Hx]; [lia |].
    destruct (lookup_lt_is_Some_2 r i) as [y Hy]; [lia |].
    unfold eq_body at 1, ne_body at 1, raw_read. rewrite Hx, Hy. simpl.
    destruct (T_neq x y) eqn:Hxy.
    + exists false. repeat split; try discriminate.
      intros Hall. rewrite (Hall i x y) in Hxy; [discriminate | lia | | ]; assumption.
    + destruct (IH (i + 1)) as (b & Heq & Hne & Hiff); [lia |].
      exists b. repeat split; try assumption.
      * intros Hb j x' y' Hj Hx' Hy'.
        destruct (Nat.eq_dec j i) as [-> | Hji].
        -- congruence.
        -- apply (proj1 Hiff Hb j); [lia | assumption | assumption].
      * intros Hall. apply Hiff. intros j x' y' Hj. apply Hall. lia.
Qed.

(** C8. For two matrices with equal element counts, [==] is true exactly
    when the elements agree at every linear index, [!=] is its negation,
    and neither looks at the shapes: the answers are the same for any
    other row and column counts around the same two buffers. *)
Theorem equality_is_a_linear_scan (A B : matrix T) :
  size A = size B ->
  exists b,
    op_eq A B = Done b
    /\ op_ne A B = Done (negb b)
    /\ (b = true <-> agree_everywhere (_matrix A) (_matrix B))
    /\ (forall rows cols rows' cols' f f',
           op_eq (mk_matrix rows cols (_matrix A) f)
                 (mk_matrix rows' cols' (_matrix B) f') = Done b
           /\ op_ne (mk_matrix rows cols (_matrix A) f)
                    (mk_matrix rows' cols' (_matrix B) f') = Done (negb b)).
Proof.
  unfold size. intros Hsize.
  destruct (scan_from (_matrix A) (_matrix B) Hsize (length (_matrix A)) 0)
    as (b & Heq & Hne & Hiff); [lia |].
  exists b. split; [exact Heq |]. split; [exact Hne |]. split.
  - rewrite Hiff. unfold agree_everywhere. split.
    + intros Hall j x y. apply Hall. lia.
    + intros Hall j x y _. apply Hall.
  - intros rows cols rows' cols' f f'. split; [exact Heq | exact Hne].
Qed.

End Comparison.

(** C8 on a 2x3 and a 3x2 matrix over the same six elements. *)
Lemma equality_is_a_linear_scan_witness :
  exists b,
    op_eq (mk_matrix 2 3 [1; 2; 3; 4; 5; 6]%Z 0%Z) (mk_matrix 3 2 [1; 2; 3; 4; 5; 6]%Z 0%Z)
    = Done b
    /\ op_ne (mk_matrix 2 3 [1; 2; 3; 4; 5; 6]%Z 0%Z) (mk_matrix 3 2 [1; 2; 3; 4; 5; 6]%Z 0%Z)
       = Done (negb b)
    /\ (b = true <-> agree_everywhere [1; 2; 3; 4; 5; 6]%Z [1; 2; 3; 4; 5; 6]%Z)
    /\ (forall rows cols rows' cols' f f',
           op_eq (mk_matrix rows cols [1; 2; 3; 4; 5; 6]%Z f)
                 (mk_matrix rows' cols' [1; 2; 3; 4; 5; 6]%Z f') = Done b
           /\ op_ne (mk_matrix rows cols [1; 2; 3; 4; 5; 6]%Z f)
                    (mk_matrix rows' cols' [1; 2; 3; 4; 5; 6]%Z f') = Done (negb b)).
Proof.
  apply (equality_is_a_linear_scan (mk_matrix 2 3 [1; 2; 3; 4; 5; 6]%Z 0%Z)
                                   (mk_matrix 3 2 [1; 2; 3; 4; 5; 6]%Z 0%Z)).
  reflexivity.
Defined.

(** * Element-wise operators on operands of different shapes *)

Section ShapeMismatch.
Context {T : Type} `{Element T}.
Variable E : build T.

Lemma op_add_mismatch (A B : matrix T) :
  1 <= sizet_rows A -> 1 <= sizet_cols A -> same_shape A B = false ->
  op_add E A B
  = if assertions E then Stop AssertionFailed
    else Done (untouched E (sizet_rows A) (sizet_cols A)).
Proof.
  intros Hr Hc Hs. unfold op_add. rewrite matrix_new_ok by assumption. simpl.
  rewrite Hs. unfold SUSA_ASSERT. destruct (assertions E); reflexivity.
Qed.

Lemma zip_objects_mismatch op (A B : matrix T) :
  1 <= sizet_rows A -> 1 <= sizet_cols A -> same_shape A B = false ->
  zip_objects E op A B
  = if assertions E then Stop AssertionFailed
    else Done (untouched E (sizet_rows A) (sizet_cols A)).
Proof.
  intros Hr Hc Hs. unfold zip_objects, matrix_of_shape, shape. simpl.
  rewrite matrix_new_ok by assumption. simpl.
  rewrite Hs. unfold SUSA_ASSERT. destruct (assertions E); reflexivity.
Qed.

(** C4, as the code has it. For a non-empty left operand and a right
    operand of another shape, each of [+], [-], [*], [/] halts when the
    assertions are compiled in, and otherwise returns a matrix of the left
    operand's shape whose elements are whatever the new buffer held: they
    are zero when the allocator hands out zeroed blocks. *)
Theorem elementwise_shape_mismatch (A B : matrix T) :
  1 <= sizet_rows A -> 1 <= sizet_cols A -> same_shape A B = false ->
  let fresh := untouched E (sizet_rows A) (sizet_cols A) in
  (assertions E = true ->
     op_add E A B = Stop AssertionFailed /\ op_sub E A B = Stop AssertionFailed
     /\ op_mul E A B = Stop AssertionFailed /\ op_div E A B = Stop AssertionFailed)
  /\ (assertions E = false ->
        op_add E A B = Done fresh /\ op_sub E A B = Done fresh
        /\ op_mul E A B = Done fresh /\ op_div E A B = Done fresh)
  /\ ((forall i, junk E i = zero) -> zero_filled_like A fresh).
Proof.
  intros Hr Hc Hs fresh. unfold op_sub, op_mul, op_div.
  rewrite op_add_mismatch, !zip_objects_mismatch by assumption.
  split; [| split].
  - intros ->. repeat split.
  - intros ->. repeat split.
  - intros Hz. repeat split. simpl. unfold allocate.
    apply list_eq. intros i. rewrite list_lookup_fmap.
    destruct (Nat.lt_ge_cases i (sizet_rows A * sizet_cols A)) as [Hlt | Hge].
    + rewrite lookup_seq_lt by assumption. simpl. rewrite Hz.
      symmetry. apply lookup_replicate. auto.
    + rewrite lookup_seq_ge by assumption. simpl.
      symmetry. apply lookup_replicate_None. assumption.
Qed.

End ShapeMismatch.

(** C4 as amended, on a 1x2 and a 2x1 operand. *)
Lemma elementwise_shape_mismatch_witness :
  let A := Examples.row_vec [1; 2]%Z in
  let B := Examples.col_vec [1; 2]%Z in
  let E := Examples.release7 in
  let fresh := untouched E 1 2 in
  (assertions E = true ->
     op_add E A B = Stop AssertionFailed /\ op_sub E A B = Stop AssertionFailed
     /\ op_mul E A B = Stop AssertionFailed /\ op_div E A B = Stop AssertionFailed)
  /\ (assertions E = false ->
        op_add E A B = Done fresh /\ op_sub E A B = Done fresh
        /\ op_mul E A B = Done fresh /\ op_div E A B = Done fresh)
  /\ ((forall i, junk E i = zero) -> zero_filled_like A fresh).
Proof.
  apply (elementwise_shape_mismatch Examples.release7
           (Examples.row_vec [1; 2]%Z) (Examples.col_vec [1; 2]%Z));
    [simpl; lia | simpl; lia | reflexivity].
Defined.

(** C4 as stated fails: with an allocator that hands out blocks filled with 7
    and the assertions compiled out, the sum of a 1x2 and a 2x1 matrix is the
    1x2 matrix [7 7]. *)
Lemma elementwise_shape_mismatch_not_zero :
  ~ (exists r, op_add Examples.release7 (Examples.row_vec [1; 2]%Z)
                 (Examples.col_vec [1; 2]%Z) = Done r
               /\ zero_filled_like (Examples.row_vec [1; 2]%Z) r).
Proof.
  intros (r & Hr & _ & _ & Hz). vm_compute in Hr. injection Hr as <-.
  vm_compute in Hz. discriminate.
Qed.

(** * [set_row] and [set_col] at an index equal to the extent *)

(** C5. On a 2x2 receiver and a two-element source, [set_row(2, src)] and
    [set_col(2, src)] pass the guard (which tests [>] against the extent) and
    store outside the buffer, in every build; neither returns false. *)
Theorem set_row_set_col_at_extent (E : build Z) :
  let m := mk_matrix 2 2 [1; 2; 3; 4]%Z 0%Z in
  let src := mk_matrix 1 2 [8; 9]%Z 0%Z in
  set_row E m 2 src = Stop UndefinedBehaviour
  /\ set_col E m 2 src = Stop UndefinedBehaviour
  /\ set_row E m 2 src <> Done (false, m)
  /\ set_col E m 2 src <> Done (false, m).
Proof.
  destruct E as [a j f]. destruct a; repeat split; try reflexivity; discriminate.
Qed.

(** * Loops that store cell by cell *)

Section Filling.
Context {T : Type} `{Element T}.
Variable E : build T.

Lemma lookup_nth (l : list T) i d : i < length l -> l !! i = Some (nth i l d).
Proof.
  intros Hlt. destruct (lookup_lt_is_Some_2 l i Hlt) as [x Hx].
  rewrite Hx. f_equal. symmetry. apply nth_lookup_Some. assumption.
Qed.

Lemma get_in_range (m : matrix T) r c d :
  wf m -> r < sizet_rows m -> c < sizet_cols m ->
  get E m r c = Done (nth (r + c * sizet_rows m) (_matrix m) d).
Proof.
  intros Hwf Hr Hc. apply get_Some; try assumption.
  apply lookup_nth. rewrite Hwf. apply lindex_lt; assumption.
Qed.

Lemma get_elem_in_range (m : matrix T) i d :
  i < length (_matrix m) -> get_elem E m i = Done (nth i (_matrix m) d).
Proof. intros Hlt. apply get_elem_Some, lookup_nth, Hlt. Qed.

Lemma filled_weaken R C F (W W' : nat -> nat -> Prop) f (m : matrix T) :
  (forall r c, r < R -> c < C -> W' r c -> W r c) ->
  filled R C F W f m -> filled R C F W' f m.
Proof.
  intros Himp (Hr & Hc & Hf & Hwf & Hcells).
  repeat split; try assumption. intros r c Hlt Hlt' Hw. auto.
Qed.

Lemma put_filled R C F (W : nat -> nat -> Prop) f (m : matrix T) r0 c0 v :
  filled R C F W f m -> r0 < R -> c0 < C -> v = F r0 c0 ->
  exists m', put E m r0 c0 v = Done m'
             /\ filled R C F (fun r c => W r c \/ (r = r0 /\ c = c0)) f m'.
Proof.
  intros (Hr & Hc & Hf & Hwf & Hcells) Hr0 Hc0 ->.
  eexists. split.
  - apply put_in_range; [assumption | lia | lia].
  - rewrite Hr. unfold filled, wf, with_buf; simpl.
    rewrite length_insert. repeat split; try assumption.
    intros r c Hlt Hlt' Hw.
    destruct (Nat.eq_dec (r + c * R) (r0 + c0 * R)) as [Heq | Hne].
    + destruct (lindex_inj R r c r0 c0 Hlt Hr0 Heq) as [-> ->].
      apply list_lookup_insert_eq. rewrite Hwf, Hr, Hc.
      apply lindex_lt; assumption.
    + rewrite list_lookup_insert_ne by congruence.
      destruct Hw as [Hw | [-> ->]]; [auto | congruence].
Qed.

Lemma filled_get R C F (W : nat -> nat -> Prop) f (m : matrix T) r c :
  filled R C F W f m -> r < R -> c < C -> W r c -> get E m r c = Done (F r c).
Proof.
  intros (Hr & Hc & Hf & Hwf & Hcells) Hlt Hlt' Hw.
  apply get_Some; [lia | lia |]. rewrite Hr. auto.
Qed.

(** A matrix all of whose cells are known has the buffer of another matrix
    with the same cells. *)
Lemma filled_buffer_eq R C F f (m : matrix T) (buf : list T) :
  filled R C F (fun _ _ => True) f m ->
  length buf = R * C ->
  (forall r c, r < R -> c < C -> buf !! (r + c * R) = Some (F r c)) ->
  _matrix m = buf.
Proof.
  intros (Hr & Hc & Hf & Hwf & Hcells) Hlen Hbuf.
  unfold wf in Hwf. rewrite Hr, Hc in Hwf.
  apply list_eq. intros i.
  destruct (Nat.lt_ge_cases i (R * C)) as [Hlt | Hge].
  - assert (HR : 0 < R) by (destruct R; [simpl in Hlt; lia | lia]).
    pose proof (Nat.div_mod_eq i R) as Hdm.
    pose proof (Nat.mod_upper_bound i R ltac:(lia)) as Hmod.
    assert (Hdiv : i / R < C).
    { apply Nat.Div0.div_lt_upper_bound. lia. }
    replace i with (i mod R + (i / R) * R) by lia.
    rewrite Hcells, Hbuf by (assumption || exact I). reflexivity.
  - rewrite (proj2 (lookup_ge_None _ _)), (proj2 (lookup_ge_None _ _)) by lia.
    reflexivity.
Qed.

End Filling.

(** Relaxing the set of cells known to be filled, when arithmetic decides
    the inclusion. *)
Ltac widen H :=
  eapply filled_weaken; [| exact H]; simpl; intros; lia.

(** * [upsample] and [downsample] *)

Section Resampling.
Context {T : Type} `{Element T}.
Variable E : build T.

Lemma stride_div (j u : nat) : 1 <= u -> j * u / u = j.
Proof. intros Hu. apply Nat.div_mul. lia. Qed.

Lemma stride_multiple (r u : nat) : 1 <= u -> r mod u = 0 -> r = r / u * u.
Proof. intros Hu Hm. pose proof (Nat.div_mod_eq r u). lia. Qed.

(** After [upsample], row [j * u] of every column holds row [j] of the
    input. *)
Lemma upsample_filled (x : matrix T) (u : nat) :
  wf x -> 1 <= sizet_rows x -> 1 <= sizet_cols x -> 1 <= u ->
  fits (u * sizet_rows x) ->
  exists y,
    upsample E x u = Done y
    /\ filled (u * sizet_rows x) (sizet_cols x)
         (fun r c => nth (r / u + c * sizet_rows x) (_matrix x) (fake_junk E))
         (fun r _ => r mod u = 0) (fake_junk E) y.
Proof.
  intros Hwf HR HC Hu Hfits.
  set (R := sizet_rows x) in *. set (C := sizet_cols x) in *.
  set (F := fun r c => nth (r / u + c * R) (_matrix x) (fake_junk E)).
  unfold upsample, no_rows, no_cols. fold R C.
  assert (HuR : 1 <= u * R) by (subst R; nia).
  rewrite (size_t_of_mul u R) by assumption.
  rewrite matrix_new_ok by assumption. simpl.
  destruct (for_loop_inv
    (fun c m => filled (u * R) C F (fun r' c' => r' mod u = 0 /\ c' < c)
                  (fake_junk E) m) 0 C
    (fun size_col mat_tmp =>
       for_loop 0 R (fun uint_row mat_tmp0 =>
         v <- get E x uint_row size_col ;;
         put E mat_tmp0 (size_t_of (Z.of_nat uint_row * Z.of_nat u)) size_col v)
         mat_tmp)
    (mk_matrix (u * R) C (allocate E (u * R * C)) (fake_junk E)))
    as (y & Hrun & Hy).
  - lia.
  - repeat split. + apply length_allocate. + intros r c _ _ [_ Hc]. lia.
  - intros c m Hc Hm.
    destruct (for_loop_inv
      (fun r m' => filled (u * R) C F
         (fun r' c' => r' mod u = 0 /\ (c' < c \/ (c' = c /\ r' / u < r)))
         (fake_junk E) m') 0 R
      (fun uint_row mat_tmp0 =>
         v <- get E x uint_row c ;;
         put E mat_tmp0 (size_t_of (Z.of_nat uint_row * Z.of_nat u)) c v) m)
      as (m' & Hrun' & Hm').
    + lia.
    + eapply filled_weaken; [| exact Hm]. simpl. intros r' c' _ _ [Hmod Hor].
      split; [assumption | lia].
    + intros j t Hj Ht.
      rewrite (get_in_range E x j c (fake_junk E)) by (assumption || fold R || fold C; lia).
      rewrite (size_t_of_mul j u) by (apply (fits_le _ (u * R)); [nia | assumption]).
      simpl. fold R.
      destruct (put_filled E _ _ _ _ _ t (j * u) c (nth (j + c * R) (_matrix x) (fake_junk E)) Ht)
        as (t' & Hput & Ht').
      * nia.
      * lia.
      * unfold F. rewrite stride_div by assumption. reflexivity.
      * exists t'. split; [assumption |].
        eapply filled_weaken; [| exact Ht']. simpl.
        intros r' c' _ _ [Hmod Hor].
        destruct Hor as [Hlt | [-> Hlt]]; [left; split; [assumption | lia] |].
        destruct (Nat.eq_dec (r' / u) j) as [Heq | Hne].
        -- right. split; [| reflexivity].
           rewrite (stride_multiple r' u Hu Hmod), Heq at 1. reflexivity.
        -- left. split; [assumption | right; split; [reflexivity | lia]].
    + exists m'. split; [assumption |].
      eapply filled_weaken; [| exact Hm']. simpl.
      intros r' c' Hr' _ [Hmod Hlt]. split; [assumption |].
      destruct (Nat.eq_dec c' c) as [-> | Hne]; [right | left; lia].
      split; [reflexivity |].
      apply Nat.Div0.div_lt_upper_bound. lia.
  - exists y. split; [assumption |].
    eapply filled_weaken; [| exact Hy]. simpl. intros r' c' _ Hc' Hmod.
    split; assumption.
Qed.

(** [downsample] of such a matrix rebuilds the input's buffer. *)
Lemma downsample_filled (x y : matrix T) (u : nat) :
  wf x -> 1 <= sizet_rows x -> 1 <= sizet_cols x -> 1 <= u ->
  filled (u * sizet_rows x) (sizet_cols x)
    (fun r c => nth (r / u + c * sizet_rows x) (_matrix x) (fake_junk E))
    (fun r _ => r mod u = 0) (fake_junk E) y ->
  exists z,
    downsample E y u = Done z
    /\ filled (sizet_rows x) (sizet_cols x)
         (fun r c => nth (r + c * sizet_rows x) (_matrix x) (fake_junk E))
         (fun _ _ => True) (fake_junk E) z.
Proof.
  intros Hwf HR HC Hu Hy.
  set (R := sizet_rows x) in *. set (C := sizet_cols x) in *.
  set (G := fun r c => nth (r + c * R) (_matrix x) (fake_junk E)).
  pose proof Hy as (Hyr & Hyc & _).
  unfold downsample, no_rows, no_cols, size_div. rewrite Hyr, Hyc.
  destruct (Nat.eqb_spec u 0) as [-> | _]; [lia |]. simpl.
  replace (u * R / u) with R by (rewrite Nat.mul_comm, Nat.div_mul; lia).
  rewrite matrix_new_ok by assumption. simpl.
  destruct (for_loop_inv
    (fun c m => filled R C G (fun _ c' => c' < c) (fake_junk E) m) 0 C
    (fun size_col mat_tmp =>
       for_loop 0 R (fun uint_row mat_tmp0 =>
         v <- get E y (uint_row * u) size_col ;;
         put E mat_tmp0 uint_row size_col v) mat_tmp)
    (mk_matrix R C (allocate E (R * C)) (fake_junk E)))
    as (z & Hrun & Hz).
  - lia.
  - repeat split. + apply length_allocate. + intros r c _ _ Hc. lia.
  - intros c m Hc Hm.
    destruct (for_loop_inv
      (fun r m' => filled R C G (fun r' c' => c' < c \/ (c' = c /\ r' < r))
                     (fake_junk E) m') 0 R
      (fun uint_row mat_tmp0 =>
         v <- get E y (uint_row * u) c ;; put E mat_tmp0 uint_row c v) m)
      as (m' & Hrun' & Hm').
    + lia.
    + widen Hm.
    + intros j t Hj Ht.
      rewrite (filled_get E _ _ _ _ _ y (j * u) c Hy)
        by (nia || lia || apply Nat.Div0.mod_mul).
      simpl. rewrite stride_div by assumption.
      destruct (put_filled E _ _ _ _ _ t j c (nth (j + c * R) (_matrix x) (fake_junk E)) Ht)
        as (t' & Hput & Ht'); [lia | lia | reflexivity |].
      exists t'. split; [assumption |].
      eapply filled_weaken; [| exact Ht']. simpl. intros r' c' _ _ Hor. lia.
    + exists m'. split; [assumption |].
      eapply filled_weaken; [| exact Hm']. simpl. intros r' c' Hr' _ Hlt. lia.
  - exists z. split; [assumption |].
    widen Hz.
Qed.

(** C6, as the code has it. For a non-empty matrix [x] and [u >= 1] with
    [u * rows * cols], the element count of the upsampled matrix, below
    2^64, [upsample] yields a matrix of [u * rows] rows whose row [r * u] is
    row [r] of [x], and [downsample] of that matrix by [u] has the shape
    and the elements of [x]. *)
Theorem downsample_upsample (x : matrix T) (u : nat) :
  wf x -> 1 <= sizet_rows x -> 1 <= sizet_cols x -> 1 <= u ->
  fits (u * sizet_rows x * sizet_cols x) ->
  exists y z,
    upsample E x u = Done y
    /\ sizet_rows y = u * sizet_rows x /\ sizet_cols y = sizet_cols x
    /\ (forall r c, r < sizet_rows x -> c < sizet_cols x ->
                    exists v, get E x r c = Done v /\ get E y (r * u) c = Done v)
    /\ downsample E y u = Done z
    /\ same_matrix z x.
Proof.
  intros Hwf HR HC Hu Hfits.
  assert (Hrows : fits (u * sizet_rows x)).
  { apply (fits_le _ (u * sizet_rows x * sizet_cols x)); [nia | assumption]. }
  destruct (upsample_filled x u Hwf HR HC Hu Hrows) as (y & Hup & Hy).
  destruct (downsample_filled x y u Hwf HR HC Hu Hy) as (z & Hdown & Hz).
  exists y, z. split; [assumption |].
  pose proof Hy as (Hyr & Hyc & _). split; [assumption |]. split; [assumption |].
  split; [| split; [assumption |]].
  - intros r c Hr Hc. exists (nth (r + c * sizet_rows x) (_matrix x) (fake_junk E)). split.
    + apply get_in_range; assumption.
    + rewrite (filled_get E _ _ _ _ _ y (r * u) c Hy)
        by (nia || lia || apply Nat.Div0.mod_mul).
      rewrite stride_div by assumption. reflexivity.
  - pose proof Hz as (Hzr & Hzc & _). repeat split; try assumption.
    eapply filled_buffer_eq; [exact Hz | exact Hwf |].
    intros r c Hr Hc. apply lookup_nth. rewrite Hwf. apply lindex_lt; assumption.
Qed.

End Resampling.

(** C6 as amended, on a 2x2 matrix and [u = 2]. *)
Lemma downsample_upsample_witness :
  exists y z,
    upsample Examples.debug7 (mk_matrix 2 2 [1; 2; 3; 4]%Z 7%Z) 2 = Done y
    /\ sizet_rows y = 2 * 2 /\ sizet_cols y = 2
    /\ (forall r c, r < 2 -> c < 2 ->
          exists v, get Examples.debug7 (mk_matrix 2 2 [1; 2; 3; 4]%Z 7%Z) r c = Done v
                    /\ get Examples.debug7 y (r * 2) c = Done v)
    /\ downsample Examples.debug7 y 2 = Done z
    /\ same_matrix z (mk_matrix 2 2 [1; 2; 3; 4]%Z 7%Z).
Proof.
  apply (downsample_upsample Examples.debug7 (mk_matrix 2 2 [1; 2; 3; 4]%Z 7%Z) 2);
    [reflexivity | simpl; lia | simpl; lia | lia | vm_compute; reflexivity].
Defined.

(** C6 as stated fails on the empty matrix: with the assertions compiled out,
    [upsample] of the empty matrix by 1 is a 1x1 matrix, and so is its
    [downsample]. *)
Lemma downsample_upsample_empty :
  ~ (exists y z,
        upsample Examples.release7 (matrix_empty Examples.release7) 1 = Done y
        /\ downsample Examples.release7 y 1 = Done z
        /\ same_matrix z (matrix_empty Examples.release7)).
Proof.
  intros (y & z & Hy & Hz & Hrows & _).
  vm_compute in Hy. injection Hy as <-.
  vm_compute in Hz. injection Hz as <-.
  discriminate.
Qed.

(** With the factor 2^63 and two rows the product of the factor and the
    row count is 2^64, which [size_t] holds as 0: the constructor is asked
    for no rows. *)
Lemma upsample_factor_wraps :
  upsample Examples.debug7 (Examples.col_vec [1; 2]%Z) (Z.to_nat (2 ^ 63))
  = Stop AssertionFailed.
Proof.
  assert (HU : Z.of_nat (Z.to_nat (2 ^ 63)) = (2 ^ 63)%Z)
    by (apply Z2Nat.id, Z.pow_nonneg; lia).
  generalize dependent (Z.to_nat (2 ^ 63)). intros U HU.
  unfold upsample.
  change (no_rows (Examples.col_vec [1; 2]%Z)) with 2.
  rewrite HU.
  change (size_t_of (2 ^ 63 * Z.of_nat 2)) with 0.
  reflexivity.
Qed.

(** C6 as stated fails on the empty matrix, and on a factor whose product
    with the row count does not fit [size_t]. *)
Lemma downsample_upsample_fails :
  ~ (exists y z,
        upsample Examples.release7 (matrix_empty Examples.release7) 1 = Done y
        /\ downsample Examples.release7 y 1 = Done z
        /\ same_matrix z (matrix_empty Examples.release7))
  /\ ~ (exists y z,
          upsample Examples.debug7 (Examples.col_vec [1; 2]%Z) (Z.to_nat (2 ^ 63)) = Done y
          /\ downsample Examples.debug7 y (Z.to_nat (2 ^ 63)) = Done z
          /\ same_matrix z (Examples.col_vec [1; 2]%Z)).
Proof.
  split; [exact downsample_upsample_empty |].
  intros (y & z & Hy & _). rewrite upsample_factor_wraps in Hy. discriminate.
Qed.

(** * [toeplitz] *)

Section Toeplitz.
Context {T : Type} `{Element T}.
Variable E : build T.

Lemma abs_index_lt (i j n : nat) : i < n -> j < n -> abs_index i j < n.
Proof. unfold abs_index. lia. Qed.

Lemma abs_index_sym (i j : nat) : abs_index i j = abs_index j i.
Proof. unfold abs_index. lia. Qed.

Lemma abs_index_diag (i : nat) : abs_index i i = 0.
Proof. unfold abs_index. lia. Qed.

(** The wrapping subtraction followed by the cast and [std::abs] is the
    distance between the two indices, for indices below 2^63. *)
Lemma abs_diff_distance (size_col uint_row : nat) :
  (Z.of_nat size_col < 2 ^ 63)%Z -> (Z.of_nat uint_row < 2 ^ 63)%Z ->
  abs_diff size_col uint_row = abs_index uint_row size_col.
Proof.
  intros Hc Hr. unfold abs_diff, abs_index, wrap64, to_long.
  set (d := (Z.of_nat size_col - Z.of_nat uint_row)%Z).
  assert (H64 : (2 ^ 64 = 2 * 2 ^ 63)%Z) by reflexivity.
  assert (H63 : (0 < 2 ^ 63)%Z) by reflexivity.
  destruct (Z.le_gt_cases 0 d) as [Hpos | Hneg].
  - rewrite (Z.mod_small d) by lia.
    destruct (Z.ltb_spec d (2 ^ 63)); [| lia].
    rewrite Z.mod_small by lia. reflexivity.
  - replace (d mod 2 ^ 64)%Z with (d + 2 ^ 64)%Z.
    + destruct (Z.ltb_spec (d + 2 ^ 64) (2 ^ 63)); [lia |].
      replace (d + 2 ^ 64 - 2 ^ 64)%Z with d by lia.
      rewrite Z.mod_small by lia. reflexivity.
    + apply (Z.mod_unique d (2 ^ 64) (-1) (d + 2 ^ 64)); lia.
Qed.

Lemma toeplitz_filled (mat_col : matrix T) :
  1 <= size mat_col -> (Z.of_nat (size mat_col) < 2 ^ 63)%Z ->
  exists M,
    toeplitz E mat_col = Done M
    /\ filled (size mat_col) (size mat_col)
         (fun r c => nth (abs_index r c) (_matrix mat_col) (fake_junk E))
         (fun _ _ => True) (fake_junk E) M.
Proof.
  intros Hn Hbig. set (n := size mat_col) in *.
  set (F := fun r c => nth (abs_index r c) (_matrix mat_col) (fake_junk E)).
  unfold toeplitz. fold n. rewrite matrix_new_ok by assumption. simpl.
  destruct (for_loop_inv
    (fun r m => filled n n F (fun r' _ => r' < r) (fake_junk E) m) 0 n
    (fun uint_row mat_ret =>
       for_loop 0 n (fun size_col mat_ret0 =>
         v <- get_elem E mat_col (abs_diff size_col uint_row) ;;
         put E mat_ret0 uint_row size_col v) mat_ret)
    (mk_matrix n n (allocate E (n * n)) (fake_junk E)))
    as (M & Hrun & HM).
  - lia.
  - repeat split. + apply length_allocate. + intros r c _ _ Hr. lia.
  - intros r m Hr Hm.
    destruct (for_loop_inv
      (fun c m' => filled n n F (fun r' c' => r' < r \/ (r' = r /\ c' < c))
                     (fake_junk E) m') 0 n
      (fun size_col mat_ret0 =>
         v <- get_elem E mat_col (abs_diff size_col r) ;;
         put E mat_ret0 r size_col v) m)
      as (m' & Hrun' & Hm').
    + lia.
    + widen Hm.
    + intros c t Hc Ht.
      rewrite abs_diff_distance by lia.
      rewrite (get_elem_in_range E mat_col _ (fake_junk E))
        by (apply abs_index_lt; change (length (_matrix mat_col)) with n; lia).
      simpl.
      destruct (put_filled E _ _ _ _ _ t r c (F r c) Ht)
        as (t' & Hput & Ht'); [lia | lia | reflexivity |].
      exists t'. split; [assumption |].
      eapply filled_weaken; [| exact Ht']. simpl. intros r' c' _ _ Hor. lia.
    + exists m'. split; [assumption |].
      eapply filled_weaken; [| exact Hm']. simpl. intros r' c' _ Hc' Hlt. lia.
  - exists M. split; [assumption |].
    widen HM.
Qed.


End Toeplitz.


(** * The loop nest of [filter] *)

Section FilterLoop.
Context {T : Type} `{Element T}.
Variable E : build T.

Lemma length_run_filter (b a xs : list T) len_x len_y n :
  length (run_filter b a xs len_x len_y n) = n.
Proof.
  induction n as [|n IH]; simpl; [reflexivity |].
  rewrite length_app, IH. simpl. lia.
Qed.

Lemma cell_lookup (pre ys rest : list T) acc i :
  i = length ys -> (pre ++ ys ++ acc :: rest) !! (length pre + i) = Some acc.
Proof.
  intros ->. rewrite app_assoc. apply list_lookup_middle.
  rewrite length_app. reflexivity.
Qed.

Lemma cell_insert (pre ys rest : list T) acc v i :
  i = length ys ->
  <[length pre + i := v]> (pre ++ ys ++ acc :: rest) = pre ++ ys ++ v :: rest.
Proof.
  intros ->. rewrite !app_assoc.
  rewrite insert_app_r_alt by (rewrite length_app; lia).
  rewrite length_app, Nat.sub_diag. reflexivity.
Qed.

Lemma done_lookup (pre ys rest : list T) j d :
  j < length ys -> (pre ++ ys ++ rest) !! (length pre + j) = Some (nth j ys d).
Proof.
  intros Hj. rewrite lookup_app_r by lia.
  replace (length pre + j - length pre) with j by lia.
  rewrite lookup_app_l by assumption. apply lookup_nth. assumption.
Qed.

Lemma fir_acc_S (b xs : list T) len_x i k :
  fir_acc b xs len_x i (k + 1)
  = T_add (fir_acc b xs len_x i k) (T_mul (tap xs len_x i k) (nth k b zero)).
Proof.
  unfold fir_acc. rewrite Nat.add_1_r, seq_S, fold_left_app. reflexivity.
Qed.

Lemma iir_acc_S (a ys : list T) len_y i k acc :
  1 <= k ->
  iir_acc a ys len_y i (k + 1 - 1) acc
  = T_sub (iir_acc a ys len_y i (k - 1) acc) (T_mul (tap ys len_y i k) (nth k a zero)).
Proof.
  intros Hk. unfold iir_acc.
  replace (k + 1 - 1) with (S (k - 1)) by lia.
  rewrite seq_S, fold_left_app. simpl.
  replace (S (k - 1)) with k by lia. reflexivity.
Qed.

Section OneColumn.
Variables (mb ma m0 : matrix T) (xs pre post : list T).
Variables (len_x len_y N : nat).
Variable x_at : nat -> result T.
Variable y_at : matrix T -> nat -> result place.

Hypothesis x_at_spec : forall j, j < len_x -> x_at j = Done (nth j xs zero).
Hypothesis y_at_spec : forall buf j,
  length buf = length pre + N + length post -> j < N ->
  y_at (with_buf m0 buf) j = Done (Cell (length pre + j)).

(** The first inner loop at output sample [i]. *)
Lemma fir_loop_run (ys rest : list T) (i : nat) :
  length ys = i -> i < N -> length ys + S (length rest) = N + length post ->
  for_loop 0 (size mb) (fun k mat_y =>
      x <- (if (i <? len_x + k) && (k <? i + 1)
            then x_at (i - k) else Done zero) ;;
      b <- get_elem E mb k ;;
      p <- y_at mat_y i ;;
      old <- load mat_y p ;;
      store mat_y p (T_add old (T_mul x b)))
    (with_buf m0 (pre ++ ys ++ zero :: rest))
  = Done (with_buf m0
            (pre ++ ys ++ fir_acc (_matrix mb) xs len_x i (size mb) :: rest)).
Proof using x_at_spec y_at_spec.
  intros Hys Hi Hlen.
  edestruct (for_loop_inv
    (fun k m => m = with_buf m0
                      (pre ++ ys ++ fir_acc (_matrix mb) xs len_x i k :: rest))
    0 (size mb)) as (m & Hrun & ->); [lia | reflexivity | | exact Hrun].
  intros k t Hk ->.
  assert (Hx : (if (i <? len_x + k) && (k <? i + 1)
                then x_at (i - k) else Done zero)
               = Done (tap xs len_x i k)).
  { unfold tap.
    destruct (Nat.ltb_spec i (len_x + k)), (Nat.ltb_spec k (i + 1)); simpl;
      try reflexivity.
    apply x_at_spec. lia. }
  rewrite Hx. simpl.
  rewrite (get_elem_in_range E mb k zero) by (unfold size in Hk; lia). simpl.
  rewrite y_at_spec by (rewrite ?length_app; simpl; rewrite ?length_app; simpl; lia).
  simpl. unfold raw_read. rewrite cell_lookup by auto. simpl.
  rewrite raw_write_lt
    by (rewrite ?length_app; simpl; rewrite ?length_app; simpl; lia).
  simpl. eexists. split; [reflexivity |].
  unfold with_buf. simpl. rewrite cell_insert by auto.
  rewrite fir_acc_S. reflexivity.
Qed.

(** The second inner loop at output sample [i]. *)
Lemma iir_loop_run (ys rest : list T) (i : nat) (acc : T) :
  length ys = i -> i < N -> length ys + S (length rest) = N + length post ->
  for_loop 1 (size ma) (fun k mat_y =>
      y <- (if (i <? len_y + k) && (k <? i + 1)
            then (q <- y_at mat_y (i - k) ;; load mat_y q) else Done zero) ;;
      a <- get_elem E ma k ;;
      p <- y_at mat_y i ;;
      old <- load mat_y p ;;
      store mat_y p (T_sub old (T_mul y a)))
    (with_buf m0 (pre ++ ys ++ acc :: rest))
  = Done (with_buf m0
            (pre ++ ys ++ iir_acc (_matrix ma) ys len_y i (size ma - 1) acc :: rest)).
Proof using x_at_spec y_at_spec.
  intros Hys Hi Hlen.
  destruct (Nat.le_gt_cases 1 (size ma)) as [Hsz | Hsz].
  2: { rewrite for_loop_none by lia.
       replace (size ma - 1) with 0 by lia. reflexivity. }
  edestruct (for_loop_inv
    (fun k m => m = with_buf m0
                      (pre ++ ys ++ iir_acc (_matrix ma) ys len_y i (k - 1) acc :: rest))
    1 (size ma)) as (m & Hrun & ->); [lia | reflexivity | | exact Hrun].
  intros k t Hk ->.
  assert (Hbuf : forall v, length (pre ++ ys ++ v :: rest)
                           = length pre + N + length post).
  { intros v. rewrite !length_app. simpl. lia. }
  assert (Hy : (if (i <? len_y + k) && (k <? i + 1)
                then (q <- y_at (with_buf m0
                        (pre ++ ys ++ iir_acc (_matrix ma) ys len_y i (k - 1) acc :: rest))
                        (i - k) ;;
                      load (with_buf m0
                        (pre ++ ys ++ iir_acc (_matrix ma) ys len_y i (k - 1) acc :: rest)) q)
                else Done zero)
               = Done (tap ys len_y i k)).
  { unfold tap.
    destruct (Nat.ltb_spec i (len_y + k)), (Nat.ltb_spec k (i + 1)); simpl;
      try reflexivity.
    rewrite y_at_spec by (rewrite ?Hbuf; lia). simpl.
    unfold raw_read. rewrite (done_lookup pre ys _ (i - k) zero) by lia.
    reflexivity. }
  rewrite Hy. simpl.
  rewrite (get_elem_in_range E ma k zero) by (unfold size in Hk; lia). simpl.
  rewrite y_at_spec by (rewrite ?Hbuf; lia).
  simpl. unfold raw_read. rewrite cell_lookup by auto. simpl.
  rewrite raw_write_lt by (rewrite Hbuf; lia).
  simpl. eexists. split; [reflexivity |].
  unfold with_buf. simpl. rewrite cell_insert by auto.
  rewrite iir_acc_S by lia. reflexivity.
Qed.

(** The whole nest: the [N] cells after [pre], zero at the start, end up
    holding the output samples; the rest of the buffer is untouched. *)
Lemma filter_loop_run :
  filter_loop E mb ma (size mb) (size ma) len_x len_y N x_at y_at
    (with_buf m0 (pre ++ replicate N zero ++ post))
  = Done (with_buf m0
            (pre ++ run_filter (_matrix mb) (_matrix ma) xs len_x len_y N ++ post)).
Proof using x_at_spec y_at_spec.
  unfold filter_loop.
  edestruct (for_loop_inv
    (fun i m => m = with_buf m0
       (pre ++ run_filter (_matrix mb) (_matrix ma) xs len_x len_y i
            ++ replicate (N - i) zero ++ post))
    0 N) as (m & Hrun & ->); [lia | | | rewrite Hrun].
  - rewrite Nat.sub_0_r. reflexivity.
  - intros i t Hi ->.
    set (ys := run_filter (_matrix mb) (_matrix ma) xs len_x len_y i).
    assert (Hys : length ys = i) by apply length_run_filter.
    replace (N - i) with (S (N - (i + 1))) by lia.
    rewrite replicate_S. simpl.
    rewrite fir_loop_run
      by (rewrite ?length_app, ?length_replicate; lia).
    simpl.
    rewrite iir_loop_run
      by (rewrite ?length_app, ?length_replicate; lia).
    eexists. split; [reflexivity |].
    rewrite Nat.add_1_r. simpl. fold ys.
    rewrite <- !app_assoc. reflexivity.
  - rewrite Nat.sub_diag. reflexivity.
Qed.

End OneColumn.

End FilterLoop.

(** * The three branches of [filter] *)

Section FilterBranches.
Context {T : Type} `{Element T}.
Variable E : build T.

Lemma length_column (m : matrix T) c : length (column m c) = sizet_rows m.
Proof. unfold column. rewrite length_map, length_seq. reflexivity. Qed.

Lemma nth_column (m : matrix T) c j :
  j < sizet_rows m ->
  nth j (column m c) zero = nth (j + c * sizet_rows m) (_matrix m) zero.
Proof.
  intros Hj. unfold column.
  rewrite (nth_indep _ zero (nth (0 + c * sizet_rows m) (_matrix m) zero))
    by (rewrite length_map, length_seq; assumption).
  rewrite (map_nth (fun r => nth (r + c * sizet_rows m) (_matrix m) zero)).
  rewrite seq_nth by assumption. reflexivity.
Qed.

(** Blocks of equal length laid end to end. *)
Lemma length_blocks (f : nat -> list T) N C :
  (forall c, c < C -> length (f c) = N) ->
  length (flat_map f (seq 0 C)) = C * N.
Proof.
  intros Hlen. induction C as [|C IH]; [reflexivity |].
  rewrite seq_S, flat_map_app, length_app, IH by (intros; apply Hlen; lia).
  simpl. rewrite app_nil_r, Hlen by lia. lia.
Qed.

Lemma lookup_blocks (f : nat -> list T) N C r c :
  (forall c, c < C -> length (f c) = N) ->
  r < N -> c < C ->
  flat_map f (seq 0 C) !! (r + c * N) = f c !! r.
Proof.
  intros Hlen Hr. induction C as [|C IH]; intros Hc; [lia |].
  rewrite seq_S, flat_map_app. simpl. rewrite app_nil_r.
  assert (Hpre : length (flat_map f (seq 0 C)) = C * N)
    by (apply length_blocks; intros; apply Hlen; lia).
  destruct (Nat.eq_dec c C) as [-> | Hne].
  - rewrite lookup_app_r by lia. f_equal. lia.
  - rewrite lookup_app_l.
    + apply IH; [intros; apply Hlen; lia | lia].
    + rewrite Hpre, (Nat.mul_comm C N). apply lindex_lt; lia.
Qed.

Lemma filter_column_vector (b a x : matrix T) (L : nat) :
  wf x -> sizet_cols x = 1 -> 1 < sizet_rows x ->
  filter E b a x L
  = Done (mk_matrix (sizet_rows x + L) 1
            (run_filter (_matrix b) (_matrix a) (_matrix x) (sizet_rows x)
               (sizet_rows x + L) (sizet_rows x + L))
            (fake_junk E)).
Proof.
  intros Hwf Hc Hr.
  assert (Hsize : size x = sizet_rows x) by (unfold size; rewrite Hwf, Hc; lia).
  unfold filter, no_rows, no_cols. rewrite Hc, Hsize.
  destruct (Nat.ltb_spec 1 (sizet_rows x)); [| lia]. simpl.
  set (N := sizet_rows x + L).
  rewrite matrix_init_ok by lia. simpl.
  unfold assign. simpl. rewrite length_replicate.
  destruct (Nat.ltb_spec 0 (N * 1)); [| lia].
  unfold size at 3. simpl. rewrite length_replicate, Nat.mul_1_r.
  pose proof (filter_loop_run E b a (mk_matrix N 1 [] (fake_junk E))
                (_matrix x) [] [] (sizet_rows x) N N
                (fun j => get_elem E x j) (fun m j => ref_elem E m j)) as Hrun.
  simpl in Hrun. rewrite !app_nil_r in Hrun. apply Hrun.
  - intros j Hj. apply get_elem_in_range. fold (size x). lia.
  - intros buf j Hlen Hj. apply ref_elem_in_range. simpl. lia.
Qed.

Lemma filter_row_vector (b a x : matrix T) (L : nat) :
  wf x -> sizet_rows x = 1 -> 1 < sizet_cols x ->
  filter E b a x L
  = Done (mk_matrix 1 (sizet_cols x + L)
            (run_filter (_matrix b) (_matrix a) (_matrix x) (sizet_cols x)
               (sizet_cols x + L) (sizet_cols x + L))
            (fake_junk E)).
Proof.
  intros Hwf Hr Hc.
  assert (Hsize : size x = sizet_cols x) by (unfold size; rewrite Hwf, Hr; lia).
  unfold filter, no_rows, no_cols. rewrite Hr, Hsize.
  destruct (Nat.ltb_spec 1 (sizet_cols x)); [| lia]. simpl.
  destruct (Nat.eqb_spec (sizet_cols x) 1); [lia |]. simpl.
  set (N := sizet_cols x + L).
  rewrite matrix_init_ok by lia. simpl.
  unfold assign. simpl. rewrite length_replicate.
  destruct (Nat.ltb_spec 0 (N + 0)); [| lia].
  unfold size at 3. simpl. rewrite length_replicate, Nat.add_0_r.
  pose proof (filter_loop_run E b a (mk_matrix 1 N [] (fake_junk E))
                (_matrix x) [] [] (sizet_cols x) N N
                (fun j => get_elem E x j) (fun m j => ref_elem E m j)) as Hrun.
  simpl in Hrun. rewrite !app_nil_r in Hrun. apply Hrun.
  - intros j Hj. apply get_elem_in_range. fold (size x). lia.
  - intros buf j Hlen Hj. apply ref_elem_in_range. simpl. lia.
Qed.

Lemma filter_general_matrix (b a x : matrix T) (L : nat) :
  wf x -> 1 < sizet_rows x -> 1 < sizet_cols x ->
  filter E b a x L
  = Done (mk_matrix (sizet_rows x + L) (sizet_cols x)
            (filtered_columns (_matrix b) (_matrix a) x (sizet_rows x + L))
            (fake_junk E)).
Proof.
  intros Hwf Hr Hc.
  unfold filter, no_rows, no_cols.
  destruct (Nat.ltb_spec 1 (sizet_rows x)); [| lia].
  destruct (Nat.ltb_spec 1 (sizet_cols x)); [| lia]. simpl.
  set (R := sizet_rows x) in *. set (C := sizet_cols x) in *.
  set (N := R + L).
  rewrite matrix_init_ok by lia. simpl.
  unfold assign. simpl. rewrite length_replicate.
  assert (HNC : 0 < N * C) by nia.
  destruct (Nat.ltb_spec 0 (N * C)); [| lia]. simpl.
  set (m0 := mk_matrix N C [] (fake_junk E)).
  set (block := fun c => run_filter (_matrix b) (_matrix a) (column x c) R N N).
  edestruct (for_loop_inv
    (fun col m => m = with_buf m0
       (flat_map block (seq 0 col) ++ replicate ((C - col) * N) zero))
    0 C) as (m & Hrun & ->); [lia | | | rewrite Hrun].
  - rewrite Nat.sub_0_r, Nat.mul_comm. reflexivity.
  - intros col t Hcol ->.
    replace ((C - col) * N) with (N + (C - (col + 1)) * N) by nia.
    rewrite replicate_add.
    rewrite (filter_loop_run E b a m0 (column x col)
               (flat_map block (seq 0 col)) (replicate ((C - (col + 1)) * N) zero)).
    + eexists. split; [reflexivity |].
      rewrite Nat.add_1_r, seq_S, flat_map_app. simpl.
      rewrite app_nil_r, <- app_assoc. reflexivity.
    + intros j Hj. rewrite (get_in_range E x j col zero) by (assumption || lia).
      rewrite nth_column by assumption. reflexivity.
    + intros buf j Hlen Hj.
      assert (Hpre : length (flat_map block (seq 0 col)) = col * N)
        by (apply length_blocks; intros c' _; apply length_run_filter).
      rewrite Hpre, length_replicate in Hlen. rewrite Hpre.
      rewrite ref_in_range; simpl; [f_equal; f_equal; lia | | lia | lia].
      unfold wf. simpl. rewrite Hlen. nia.
  - rewrite Nat.sub_diag. simpl. rewrite app_nil_r. reflexivity.
Qed.

End FilterBranches.

(** * The difference equation *)

Section FilterEquation.
Context {T : Type} `{Element T}.
Variable E : build T.

Lemma fold_left_ext_in {A B : Type} (f g : A -> B -> A) (l : list B) (a : A) :
  (forall acc k, In k l -> f acc k = g acc k) ->
  fold_left f l a = fold_left g l a.
Proof.
  revert a. induction l as [|k l IH]; intros a Hext; simpl; [reflexivity |].
  rewrite Hext by (left; reflexivity). apply IH.
  intros acc k' Hin. apply Hext. right. assumption.
Qed.

Lemma sum_ext_in (f g : nat -> T) (l : list nat) :
  (forall k, In k l -> f k = g k) ->
  fold_right (fun k acc => T_add (f k) acc) zero l
  = fold_right (fun k acc => T_add (g k) acc) zero l.
Proof.
  induction l as [|k l IH]; intros Hext; simpl; [reflexivity |].
  rewrite Hext by (left; reflexivity). f_equal. apply IH.
  intros k' Hin. apply Hext. right. assumption.
Qed.

Lemma tap_sample (xs : list T) n k : tap xs (length xs) n k = sample xs n k.
Proof.
  unfold tap, sample.
  destruct (Nat.ltb_spec n (length xs + k)), (Nat.ltb_spec k (n + 1)),
           (Nat.leb_spec k n), (Nat.ltb_spec (n - k) (length xs));
    simpl; try reflexivity; lia.
Qed.

Lemma run_filter_prefix (b a xs : list T) len_x len_y n N j d :
  n <= N -> j < n ->
  nth j (run_filter b a xs len_x len_y N) d
  = nth j (run_filter b a xs len_x len_y n) d.
Proof.
  intros Hle Hj. induction N as [|N IH].
  - lia.
  - destruct (Nat.eq_dec n (S N)) as [-> | Hne]; [reflexivity |].
    simpl. rewrite app_nth1 by (rewrite length_run_filter; lia).
    apply IH. lia.
Qed.

Lemma nth_run_filter (b a xs : list T) len_x len_y n N :
  n < N ->
  nth n (run_filter b a xs len_x len_y N) zero
  = iir_acc a (run_filter b a xs len_x len_y n) len_y n (length a - 1)
      (fir_acc b xs len_x n (length b)).
Proof.
  intros Hn. rewrite (run_filter_prefix b a xs len_x len_y (S n) N) by lia.
  simpl. rewrite app_nth2 by (rewrite length_run_filter; lia).
  rewrite length_run_filter, Nat.sub_diag. reflexivity.
Qed.

(** The feedback taps read the samples already produced. *)
Lemma tap_output (b a xs : list T) len_x len_y n N k :
  n < N -> N <= len_y -> 1 <= k ->
  tap (run_filter b a xs len_x len_y n) len_y n k
  = sample (run_filter b a xs len_x len_y N) n k.
Proof.
  intros Hn HN Hk. unfold tap, sample. rewrite length_run_filter.
  destruct (Nat.ltb_spec n (len_y + k)), (Nat.ltb_spec k (n + 1)),
           (Nat.leb_spec k n), (Nat.ltb_spec (n - k) N);
    simpl; try reflexivity; try lia.
  symmetry. apply run_filter_prefix; lia.
Qed.

(** [a[0]] is not read. *)
Lemma nth_insert_0 (a : list T) v k d : 1 <= k -> nth k (<[0 := v]> a) d = nth k a d.
Proof. intros Hk. destruct a, k; simpl; try reflexivity; lia. Qed.

Lemma run_filter_a0 (b a xs : list T) len_x len_y n v :
  run_filter b (<[0 := v]> a) xs len_x len_y n = run_filter b a xs len_x len_y n.
Proof.
  induction n as [|n IH]; simpl; [reflexivity |].
  rewrite IH, length_insert. f_equal. f_equal.
  unfold iir_acc. apply fold_left_ext_in.
  intros acc k Hin. apply in_seq in Hin.
  rewrite nth_insert_0 by lia. reflexivity.
Qed.

Section Ring.
Hypothesis Hring :
  ring_theory zero one T_add T_mul T_sub (fun x => T_sub zero x) eq.

Add Ring element_ring_structure : Hring.

Lemma fold_left_add (g : nat -> T) (l : list nat) (a : T) :
  fold_left (fun acc k => T_add acc (g k)) l a
  = T_add a (fold_right (fun k acc => T_add (g k) acc) zero l).
Proof using Hring.
  revert a. induction l as [|k l IH]; intros a; simpl.
  - ring.
  - rewrite IH. ring.
Qed.

Lemma fold_left_sub (g : nat -> T) (l : list nat) (a : T) :
  fold_left (fun acc k => T_sub acc (g k)) l a
  = T_sub a (fold_right (fun k acc => T_add (g k) acc) zero l).
Proof using Hring.
  revert a. induction l as [|k l IH]; intros a; simpl.
  - ring.
  - rewrite IH. ring.
Qed.

Lemma run_filter_equation (b a xs : list T) len_y N n :
  n < N -> N <= len_y ->
  difference_equation b a xs (run_filter b a xs (length xs) len_y N) n.
Proof using Hring.
  intros Hn HN. unfold difference_equation.
  rewrite nth_run_filter by assumption.
  unfold iir_acc, fir_acc, sigma.
  rewrite fold_left_sub, fold_left_add, Nat.sub_0_r.
  replace (T_add zero
             (fold_right (fun k acc =>
                T_add (T_mul (tap xs (length xs) n k) (nth k b zero)) acc)
                zero (seq 0 (length b))))
    with (fold_right (fun k acc =>
             T_add (T_mul (nth k b zero) (sample xs n k)) acc)
            zero (seq 0 (length b))).
  - f_equal. apply sum_ext_in. intros k Hin. apply in_seq in Hin.
    rewrite (tap_output b a xs (length xs) len_y n N k) by lia. ring.
  - transitivity (fold_right (fun k acc =>
                     T_add (T_mul (tap xs (length xs) n k) (nth k b zero)) acc)
                    zero (seq 0 (length b))); [| ring].
    apply sum_ext_in. intros k _. rewrite tap_sample. ring.
Qed.

(** With [b = a = [1]] and no extra length the filter copies its input. *)
Lemma run_filter_identity (xs : list T) len_y n :
  n <= length xs ->
  run_filter [one] [one] xs (length xs) len_y n = take n xs.
Proof using Hring.
  induction n as [|n IH]; intros Hn; simpl; [reflexivity |].
  rewrite IH by lia.
  rewrite (take_S_r xs n (nth n xs zero)) by (apply lookup_nth; lia).
  f_equal. f_equal. unfold iir_acc, fir_acc, tap. simpl.
  destruct (Nat.ltb_spec n (length xs + 0)); [| lia].
  destruct (Nat.ltb_spec 0 (n + 1)); [| lia].
  simpl. rewrite Nat.sub_0_r. ring.
Qed.

End Ring.

End FilterEquation.

(** * [filter] *)

Section FilterTheorem.
Context {T : Type} `{Element T}.
Variable E : build T.

Lemma buffer_ext (R C : nat) (l1 l2 : list T) :
  length l1 = R * C -> length l2 = R * C ->
  (forall r c, r < R -> c < C -> l1 !! (r + c * R) = l2 !! (r + c * R)) ->
  l1 = l2.
Proof.
  intros Hl1 Hl2 Hcells. apply list_eq. intros i.
  destruct (Nat.lt_ge_cases i (R * C)) as [Hlt | Hge].
  - assert (HR : 0 < R) by (destruct R; [simpl in Hlt; lia | lia]).
    pose proof (Nat.div_mod_eq i R) as Hdm.
    pose proof (Nat.mod_upper_bound i R ltac:(lia)) as Hmod.
    assert (Hdiv : i / R < C) by (apply Nat.Div0.div_lt_upper_bound; lia).
    replace i with (i mod R + (i / R) * R) by lia.
    apply Hcells; assumption.
  - rewrite (proj2 (lookup_ge_None _ _)), (proj2 (lookup_ge_None _ _)) by lia.
    reflexivity.
Qed.

Lemma lookup_column (m : matrix T) c r :
  r < sizet_rows m ->
  column m c !! r = Some (nth (r + c * sizet_rows m) (_matrix m) zero).
Proof.
  intros Hr. unfold column.
  change (map ?f ?l) with (f <$> l).
  rewrite list_lookup_fmap, lookup_seq_lt by assumption. reflexivity.
Qed.

Lemma blocks_of_columns (x : matrix T) :
  wf x -> flat_map (column x) (seq 0 (sizet_cols x)) = _matrix x.
Proof.
  intros Hwf. apply (buffer_ext (sizet_rows x) (sizet_cols x)).
  - rewrite (length_blocks _ (sizet_rows x)) by (intros; apply length_column). lia.
  - exact Hwf.
  - intros r c Hr Hc.
    rewrite (lookup_blocks _ (sizet_rows x)) by (intros; apply length_column || assumption).
    rewrite lookup_column by assumption. symmetry. apply lookup_nth.
    rewrite Hwf. apply lindex_lt; assumption.
Qed.

Lemma column_of_blocks (f : nat -> list T) N C fk c :
  (forall c, length (f c) = N) -> c < C ->
  column (mk_matrix N C (flat_map f (seq 0 C)) fk) c = f c.
Proof.
  intros Hlen Hc. apply list_eq. intros i.
  destruct (Nat.lt_ge_cases i N) as [Hlt | Hge].
  - rewrite lookup_column by exact Hlt. simpl.
    rewrite nth_lookup, (lookup_blocks f N C) by auto.
    destruct (lookup_lt_is_Some_2 (f c) i) as [v Hv]; [rewrite Hlen; assumption |].
    rewrite Hv. reflexivity.
  - rewrite (proj2 (lookup_ge_None _ _)), (proj2 (lookup_ge_None _ _));
      [reflexivity | rewrite Hlen; assumption | rewrite length_column; assumption].
Qed.

(** With coefficients of the signal's element type. *)
Lemma filter_equation_same_type (b a x : matrix T) (extra_length : nat) :
  element_ring -> wf x ->
  (1 < sizet_rows x /\ sizet_cols x = 1)
  \/ (sizet_rows x = 1 /\ 1 < sizet_cols x)
  \/ (1 < sizet_rows x /\ 1 < sizet_cols x) ->
  (exists y,
     filter E b a x extra_length = Done y
     /\ wf y
     /\ (sizet_cols x = 1 ->
           sizet_rows y = sizet_rows x + extra_length /\ sizet_cols y = 1
           /\ forall n, n < sizet_rows x + extra_length ->
                difference_equation (_matrix b) (_matrix a) (_matrix x) (_matrix y) n)
     /\ (sizet_rows x = 1 ->
           sizet_rows y = 1 /\ sizet_cols y = sizet_cols x + extra_length
           /\ forall n, n < sizet_cols x + extra_length ->
                difference_equation (_matrix b) (_matrix a) (_matrix x) (_matrix y) n)
     /\ (1 < sizet_rows x -> 1 < sizet_cols x ->
           sizet_rows y = sizet_rows x + extra_length /\ sizet_cols y = sizet_cols x
           /\ forall c n, c < sizet_cols x -> n < sizet_rows x + extra_length ->
                difference_equation (_matrix b) (_matrix a) (column x c) (column y c) n)
     /\ (forall v, filter E b (with_buf a (<[0 := v]> (_matrix a))) x extra_length
                   = Done y)
     /\ (_matrix b = [one] -> _matrix a = [one] -> extra_length = 0 ->
           same_matrix y x))
  /\ (forall f1 f2 f3,
        filter E (mk_matrix 1 2 [one; one] f1) (mk_matrix 1 1 [one] f2)
               (mk_matrix 1 3 [one; zero; zero] f3) 0
        = Done (mk_matrix 1 3 [one; one; zero] (fake_junk E))).
Proof.
  intros Hring Hwf Hshape. split.
  - destruct Hshape as [[Hr Hc] | [[Hr Hc] | [Hr Hc]]].
    + (* column vector *)
      assert (Hlen : length (_matrix x) = sizet_rows x)
        by (rewrite Hwf, Hc; lia).
      eexists. split; [apply filter_column_vector; assumption |].
      split; [unfold wf; simpl; rewrite length_run_filter; lia |].
      split; [| split; [intros; lia | split; [intros; lia | split]]].
      * intros _. simpl. repeat split. intros n Hn.
        rewrite <- Hlen at 1. apply run_filter_equation; [exact Hring | lia | lia].
      * intros v. rewrite filter_column_vector by assumption. simpl.
        rewrite run_filter_a0. reflexivity.
      * intros Hb Ha ->. rewrite Hb, Ha. unfold same_matrix. simpl.
        split; [lia | split; [lia |]]. rewrite Nat.add_0_r. rewrite <- Hlen.
        rewrite run_filter_identity by (exact Hring || lia).
        apply firstn_all.
    + (* row vector *)
      assert (Hlen : length (_matrix x) = sizet_cols x)
        by (rewrite Hwf, Hr; lia).
      eexists. split; [apply filter_row_vector; assumption |].
      split; [unfold wf; simpl; rewrite length_run_filter; lia |].
      split; [intros; lia | split; [| split; [intros; lia | split]]].
      * intros _. simpl. repeat split. intros n Hn.
        rewrite <- Hlen at 1. apply run_filter_equation; [exact Hring | lia | lia].
      * intros v. rewrite filter_row_vector by assumption. simpl.
        rewrite run_filter_a0. reflexivity.
      * intros Hb Ha ->. rewrite Hb, Ha. unfold same_matrix. simpl.
        split; [lia | split; [lia |]]. rewrite Nat.add_0_r. rewrite <- Hlen.
        rewrite run_filter_identity by (exact Hring || lia).
        apply firstn_all.
    + (* general matrix *)
      eexists. split; [apply filter_general_matrix; assumption |].
      assert (Hblocks : forall bb aa c,
                length (run_filter bb aa (column x c) (sizet_rows x)
                          (sizet_rows x + extra_length)
                          (sizet_rows x + extra_length))
                = sizet_rows x + extra_length)
        by (intros; apply length_run_filter).
      split.
      { unfold wf, filtered_columns. simpl.
        rewrite (length_blocks _ (sizet_rows x + extra_length)) by (intros; apply Hblocks).
        lia. }
      split; [intros; lia | split; [intros; lia | split; [| split]]].
      * intros _ _. simpl. repeat split. intros c n Hc' Hn.
        unfold filtered_columns.
        rewrite (column_of_blocks _ (sizet_rows x + extra_length))
          by (assumption || intros; apply Hblocks).
        rewrite <- (length_column x c) at 1.
        apply run_filter_equation; [exact Hring | lia | lia].
      * intros v. rewrite filter_general_matrix by assumption. simpl.
        unfold filtered_columns. f_equal. f_equal.
        apply flat_map_ext. intros c. apply run_filter_a0.
      * intros Hb Ha ->. rewrite Hb, Ha. unfold same_matrix. simpl.
        split; [lia | split; [lia |]]. unfold filtered_columns.
        rewrite Nat.add_0_r.
        transitivity (flat_map (column x) (seq 0 (sizet_cols x)));
          [| apply blocks_of_columns; assumption].
        apply flat_map_ext. intros c.
        rewrite <- (length_column x c) at 1 3.
        rewrite run_filter_identity by (exact Hring || lia).
        apply firstn_all.
  - intros f1 f2 f3. rewrite filter_row_vector by (reflexivity || simpl; lia).
    simpl. unfold iir_acc, fir_acc, tap. simpl.
    pose proof Hring as Hr. unfold element_ring in Hr.
    assert (H1 : T_add (T_add zero (T_mul one one)) (T_mul zero one) = one).
    { rewrite (Rmul_1_l Hr), (Rmul_comm Hr zero one), (Rmul_1_l Hr).
      rewrite (Radd_0_l Hr), (Radd_comm Hr), (Radd_0_l Hr). reflexivity. }
    assert (H2 : T_add (T_add zero (T_mul zero one)) (T_mul one one) = one).
    { rewrite (Rmul_1_l Hr), (Rmul_comm Hr zero one), (Rmul_1_l Hr).
      rewrite !(Radd_0_l Hr). reflexivity. }
    assert (H3 : T_add (T_add zero (T_mul zero one)) (T_mul zero one) = zero).
    { rewrite (Rmul_comm Hr zero one), (Rmul_1_l Hr).
      rewrite !(Radd_0_l Hr). reflexivity. }
    rewrite H1, H2, H3. reflexivity.
Qed.


(** A loop depends on its body only. *)
Lemma for_loop_ext {St : Type} lo hi (body body' : nat -> St -> result St) (s : St) :
  (forall j t, body j t = body' j t) ->
  for_loop lo hi body s = for_loop lo hi body' s.
Proof.
  intros Hext. unfold for_loop. generalize (hi - lo) as count. intros count.
  revert lo s. induction count as [|count IH]; intros lo s; simpl; [reflexivity |].
  rewrite Hext. destruct (body' lo s); simpl; [apply IH | reflexivity].
Qed.

Section TwoTypes.
Context {TT : Type} {C : Coefficient TT T}.
Variable cast : TT -> T.
Hypothesis Hexact : exact_coefficients cast.

Lemma get_elem_cast (m : matrix TT) (k : nat) :
  get_elem E (matrix_cast cast m) k = (v <- get_elem E m k ;; Done (cast v)).
Proof.
  unfold get_elem, matrix_cast, non_null, size, raw_read. simpl.
  rewrite length_fmap, list_lookup_fmap.
  destruct (SUSA_ASSERT E (0 <? length (_matrix m))); simpl; [| reflexivity].
  destruct (SUSA_ASSERT E (k <? length (_matrix m))); simpl; [| reflexivity].
  destruct (_matrix m !! k); reflexivity.
Qed.

Lemma filter_loop_cast (b a : matrix TT) sb sa len_x len_y N
    (x_at : nat -> result T) (y_at : matrix T -> nat -> result place) (m : matrix T) :
  filter_loop E b a sb sa len_x len_y N x_at y_at m
  = filter_loop E (matrix_cast cast b) (matrix_cast cast a) sb sa len_x len_y N
      x_at y_at m.
Proof using Hexact.
  destruct Hexact as [Hadd Hsub].
  unfold filter_loop. apply for_loop_ext. intros i t.
  rewrite (for_loop_ext 0 sb _
    (fun k mat_y =>
       x <- (if (i <? len_x + k) && (k <? i + 1) then x_at (i - k) else Done zero) ;;
       b0 <- get_elem E (matrix_cast cast b) k ;;
       p <- y_at mat_y i ;;
       old <- load mat_y p ;;
       store mat_y p (T_add_product old x b0))).
  - destruct (for_loop 0 sb _ t) as [t' | f]; simpl; [| reflexivity].
    apply for_loop_ext. intros k u. rewrite get_elem_cast.
    destruct (if (i <? len_y + k) && (k <? i + 1)
              then (q <- y_at u (i - k) ;; load u q) else Done zero); simpl;
      [| reflexivity].
    destruct (get_elem E a k); simpl; [| reflexivity].
    destruct (y_at u i); simpl; [| reflexivity].
    destruct (load u a2); simpl; [| reflexivity].
    rewrite Hsub. reflexivity.
  - intros k u. rewrite get_elem_cast.
    destruct (if (i <? len_x + k) && (k <? i + 1) then x_at (i - k) else Done zero);
      simpl; [| reflexivity].
    destruct (get_elem E b k); simpl; [| reflexivity].
    destruct (y_at u i); simpl; [| reflexivity].
    destruct (load u a2); simpl; [| reflexivity].
    rewrite Hadd. reflexivity.
Qed.

Lemma filter_cast (b a : matrix TT) (x : matrix T) (L : nat) :
  filter E b a x L = filter E (matrix_cast cast b) (matrix_cast cast a) x L.
Proof using Hexact.
  unfold filter.
  assert (Hsb : size (matrix_cast cast b) = size b)
    by (unfold size, matrix_cast; simpl; apply length_fmap).
  assert (Hsa : size (matrix_cast cast a) = size a)
    by (unfold size, matrix_cast; simpl; apply length_fmap).
  rewrite Hsb, Hsa.
  destruct ((1 <? no_cols x) && (1 <? no_rows x)).
  - destruct (matrix_init E (no_rows x + L) (no_cols x) zero); simpl; [| reflexivity].
    apply for_loop_ext. intros c t. apply filter_loop_cast.
  - destruct ((no_cols x =? 1) && (1 <? no_rows x)).
    + destruct (matrix_init E (size x + L) 1 zero); simpl; [| reflexivity].
      apply filter_loop_cast.
    + destruct ((1 <? no_cols x) && (no_rows x =? 1)); [| reflexivity].
      destruct (matrix_init E 1 (size x + L) zero); simpl; [| reflexivity].
      apply filter_loop_cast.
Qed.

End TwoTypes.


End FilterTheorem.

(** * [convmtx] *)

Section ConvolutionMatrix.
Context {T : Type} `{Element T}.
Variable E : build T.

(** A loop that stores down column [c], from row [lo] to row [hi]. *)
Lemma store_down_column R C F f (c lo hi : nat) (val : nat -> result T) (m : matrix T) :
  lo <= hi -> hi <= R -> c < C ->
  (forall r, lo <= r < hi -> val r = Done (F r c)) ->
  filled R C F (fun r' c' => c' < c \/ (c' = c /\ r' < lo)) f m ->
  exists m',
    for_loop lo hi (fun r mat => v <- val r ;; put E mat r c v) m = Done m'
    /\ filled R C F (fun r' c' => c' < c \/ (c' = c /\ r' < hi)) f m'.
Proof.
  intros Hle Hhi Hc Hval Hm.
  apply (for_loop_inv
           (fun r t => filled R C F (fun r' c' => c' < c \/ (c' = c /\ r' < r)) f t));
    [assumption | assumption |].
  intros r t Hr Ht. rewrite Hval by assumption. simpl.
  destruct (put_filled E R C F _ f t r c (F r c) Ht) as (t' & Hput & Ht');
    [lia | lia | reflexivity |].
  exists t'. split; [assumption |].
  eapply filled_weaken; [| exact Ht']. simpl. intros r' c' _ _ Hor. lia.
Qed.

(** A loop that stores along row [r], from column [lo] to column [hi]. *)
Lemma store_along_row R C F f (r lo hi : nat) (val : nat -> result T) (m : matrix T) :
  lo <= hi -> hi <= C -> r < R ->
  (forall c, lo <= c < hi -> val c = Done (F r c)) ->
  filled R C F (fun r' c' => r' < r \/ (r' = r /\ c' < lo)) f m ->
  exists m',
    for_loop lo hi (fun c mat => v <- val c ;; put E mat r c v) m = Done m'
    /\ filled R C F (fun r' c' => r' < r \/ (r' = r /\ c' < hi)) f m'.
Proof.
  intros Hle Hhi Hr Hval Hm.
  apply (for_loop_inv
           (fun c t => filled R C F (fun r' c' => r' < r \/ (r' = r /\ c' < c)) f t));
    [assumption | assumption |].
  intros c t Hc Ht. rewrite Hval by assumption. simpl.
  destruct (put_filled E R C F _ f t r c (F r c) Ht) as (t' & Hput & Ht');
    [lia | lia | reflexivity |].
  exists t'. split; [assumption |].
  eapply filled_weaken; [| exact Ht']. simpl. intros r' c' _ _ Hor. lia.
Qed.

Lemma band_above (h : list T) r c : r < c -> band h r c = zero.
Proof.
  intros Hlt. unfold band. destruct (Nat.leb_spec c r); [lia | reflexivity].
Qed.

Lemma band_inside (h : list T) r c :
  c <= r -> r < length h + c -> band h r c = nth (r - c) h zero.
Proof.
  intros Hle Hlt. unfold band.
  destruct (Nat.leb_spec c r); [| lia].
  destruct (Nat.ltb_spec r (length h + c)); [reflexivity | lia].
Qed.

Lemma band_below (h : list T) r c : length h + c <= r -> band h r c = zero.
Proof.
  intros Hge. unfold band.
  destruct (Nat.ltb_spec r (length h + c)); [lia |].
  rewrite andb_false_r. reflexivity.
Qed.

(** [convmtx] of a column vector. *)
Lemma convmtx_column (h : matrix T) (n : nat) :
  wf h -> sizet_cols h = 1 -> 1 < sizet_rows h -> 1 <= n ->
  fits (size h + n - 1) ->
  exists M,
    convmtx E h n = Done M
    /\ filled (size h + n - 1) n (band (_matrix h)) (fun _ _ => True) (fake_junk E) M.
Proof.
  intros Hwf Hc Hr Hn Hfits.
  assert (Hsize : size h = sizet_rows h) by (unfold size; rewrite Hwf, Hc; lia).
  rewrite Hsize in Hfits.
  unfold convmtx, is_vector, no_rows, no_cols. rewrite Hc, Hsize.
  rewrite (size_t_of_add_pred (sizet_rows h) n) by (lia || assumption).
  destruct (Nat.ltb_spec 1 (sizet_rows h)); [| lia].
  destruct (Nat.leb_spec 1 (sizet_rows h)); [| lia].
  simpl. rewrite orb_true_r, assert_true. simpl.
  set (m := sizet_rows h) in *. set (N := m + n - 1).
  rewrite matrix_init_ok by lia. simpl.
  unfold assign. simpl. rewrite length_replicate.
  assert (HNn : 0 < N * n) by nia.
  destruct (Nat.ltb_spec 0 (N * n)); [| lia].
  set (F := band (_matrix h)).
  assert (Hlen : length (_matrix h) = m) by exact Hsize.
  edestruct (for_loop_inv
    (fun c t => filled N n F (fun _ c' => c' < c) (fake_junk E) t) 0 n)
    as (M & Hrun & HM); [lia | | | exists M; split; [exact Hrun |]].
  - repeat split. + apply length_replicate. + intros r c _ _ Hlt. lia.
  - intros c t Hc' Ht. cbv beta.
    rewrite (size_t_of_add m c) by (apply (fits_le _ N); [unfold N; lia | assumption]).
    destruct (store_down_column N n F (fake_junk E) c 0 c (fun _ => Done zero) t)
      as (t1 & Hrun1 & Ht1); [lia | lia | lia | | |].
    { intros r Hr'. unfold F. rewrite band_above by lia. reflexivity. }
    { widen Ht. }
    destruct (store_down_column N n F (fake_junk E) c c (m + c)
                (fun r => get_elem E h (r - c)) t1)
      as (t2 & Hrun2 & Ht2); [lia | lia | lia | | exact Ht1 |].
    { intros r Hr'. unfold F. rewrite band_inside by lia.
      apply get_elem_in_range. lia. }
    destruct (store_down_column N n F (fake_junk E) c (m + c) N (fun _ => Done zero) t2)
      as (t3 & Hrun3 & Ht3); [lia | lia | lia | | exact Ht2 |].
    { intros r Hr'. unfold F. rewrite band_below by lia. reflexivity. }
    exists t3. split.
    + simpl in Hrun1, Hrun3. rewrite Hrun1. simpl. rewrite Hrun2. simpl. exact Hrun3.
    + widen Ht3.
  - widen HM.
Qed.

(** [convmtx] of a row vector: the transposed band. *)
Lemma convmtx_row (h : matrix T) (n : nat) :
  wf h -> sizet_rows h = 1 -> 1 < sizet_cols h -> 1 <= n ->
  fits (size h + n - 1) ->
  exists M,
    convmtx E h n = Done M
    /\ filled n (size h + n - 1) (fun r c => band (_matrix h) c r)
         (fun _ _ => True) (fake_junk E) M.
Proof.
  intros Hwf Hr Hc Hn Hfits.
  assert (Hsize : size h = sizet_cols h) by (unfold size; rewrite Hwf, Hr; lia).
  rewrite Hsize in Hfits.
  unfold convmtx, is_vector, no_rows, no_cols. rewrite Hr, Hsize.
  rewrite (size_t_of_add_pred (sizet_cols h) n) by (lia || assumption).
  destruct (Nat.ltb_spec 1 (sizet_cols h)); [| lia].
  destruct (Nat.leb_spec 1 (sizet_cols h)); [| lia].
  destruct (Nat.eqb_spec (sizet_cols h) 1); [lia |].
  simpl. rewrite assert_true. simpl.
  set (m := sizet_cols h) in *. set (N := m + n - 1).
  rewrite matrix_init_ok by lia. simpl.
  unfold assign. simpl. rewrite length_replicate.
  assert (HNn : 0 < n * N) by nia.
  destruct (Nat.ltb_spec 0 (n * N)); [| lia].
  set (F := fun r c => band (_matrix h) c r).
  assert (Hlen : length (_matrix h) = m) by exact Hsize.
  edestruct (for_loop_inv
    (fun r t => filled n N F (fun r' _ => r' < r) (fake_junk E) t) 0 n)
    as (M & Hrun & HM); [lia | | | exists M; split; [exact Hrun |]].
  - repeat split. + apply length_replicate. + intros r c _ _ Hlt. lia.
  - intros r t Hr' Ht. cbv beta.
    rewrite (size_t_of_add m r) by (apply (fits_le _ N); [unfold N; lia | assumption]).
    destruct (store_along_row n N F (fake_junk E) r 0 r (fun _ => Done zero) t)
      as (t1 & Hrun1 & Ht1); [lia | lia | lia | | |].
    { intros c Hc'. unfold F. rewrite band_above by lia. reflexivity. }
    { widen Ht. }
    destruct (store_along_row n N F (fake_junk E) r r (m + r)
                (fun c => get_elem E h (c - r)) t1)
      as (t2 & Hrun2 & Ht2); [lia | lia | lia | | exact Ht1 |].
    { intros c Hc'. unfold F. rewrite band_inside by lia.
      apply get_elem_in_range. lia. }
    destruct (store_along_row n N F (fake_junk E) r (m + r) N (fun _ => Done zero) t2)
      as (t3 & Hrun3 & Ht3); [lia | lia | lia | | exact Ht2 |].
    { intros c Hc'. unfold F. rewrite band_below by lia. reflexivity. }
    exists t3. split.
    + simpl in Hrun1, Hrun3. rewrite Hrun1. simpl. rewrite Hrun2. simpl. exact Hrun3.
    + widen Ht3.
  - widen HM.
Qed.

End ConvolutionMatrix.

(** * [conv] of two vectors and the product with the convolution matrix *)

Section ConvolutionProduct.
Context {T : Type} `{Element T}.
Variable E : build T.

(** With the denominator [[1]] the feedback loop does nothing: every
    output sample is the accumulator of the first inner loop. *)
Lemma run_filter_fir (b xs : list T) len_x len_y N :
  run_filter b [one] xs len_x len_y N
  = map (fun i => fir_acc b xs len_x i (length b)) (seq 0 N).
Proof.
  induction N as [|N IH]; [reflexivity |].
  rewrite seq_S, map_app. simpl. rewrite IH. reflexivity.
Qed.

Lemma band_tap (h : list T) i k : band h i k = tap h (length h) i k.
Proof.
  unfold band, tap.
  destruct (Nat.leb_spec k i), (Nat.ltb_spec i (length h + k)),
           (Nat.ltb_spec k (i + 1)); simpl; try reflexivity; lia.
Qed.

Lemma vector_column_or_row (x : matrix T) :
  is_vector x = true -> is_column_or_row x = true.
Proof.
  unfold is_vector, is_column_or_row, no_rows, no_cols.
  destruct (Nat.eqb_spec (sizet_rows x) 1), (Nat.eqb_spec (sizet_cols x) 1),
           (Nat.ltb_spec 1 (sizet_rows x)), (Nat.ltb_spec 1 (sizet_cols x));
    simpl; try reflexivity; try discriminate; lia.
Qed.

(** [conv(h, x)] for a column vector [h] and a vector [x]. *)
Lemma conv_column (h x : matrix T) :
  wf h -> sizet_cols h = 1 -> 1 < sizet_rows h -> is_vector x = true ->
  conv E h x
  = Done (mk_matrix (sizet_rows h + (size x - 1)) 1
            (map (fun i => fir_acc (_matrix x) (_matrix h) (sizet_rows h) i (size x))
                 (seq 0 (sizet_rows h + (size x - 1))))
            (fake_junk E)).
Proof.
  intros Hwf Hc Hr Hx. unfold conv.
  rewrite (vector_column_or_row x Hx).
  rewrite matrix_init_ok by lia. simpl.
  rewrite filter_column_vector by assumption. simpl.
  rewrite run_filter_fir. unfold assign. simpl.
  rewrite length_map, length_seq.
  destruct (Nat.ltb_spec 0 (sizet_rows h + (size x - 1))); [reflexivity | lia].
Qed.

(** [conv(h, x)] for a row vector [h] and a vector [x]. *)
Lemma conv_row (h x : matrix T) :
  wf h -> sizet_rows h = 1 -> 1 < sizet_cols h -> is_vector x = true ->
  conv E h x
  = Done (mk_matrix 1 (sizet_cols h + (size x - 1))
            (map (fun i => fir_acc (_matrix x) (_matrix h) (sizet_cols h) i (size x))
                 (seq 0 (sizet_cols h + (size x - 1))))
            (fake_junk E)).
Proof.
  intros Hwf Hr Hc Hx. unfold conv.
  rewrite (vector_column_or_row x Hx).
  rewrite matrix_init_ok by lia. simpl.
  rewrite filter_row_vector by assumption. simpl.
  rewrite run_filter_fir. unfold assign. simpl.
  rewrite length_map, length_seq.
  destruct (Nat.ltb_spec 0 (sizet_cols h + (size x - 1))); [reflexivity | lia].
Qed.

Lemma filled_nth R C F (W : nat -> nat -> Prop) f (m : matrix T) r c d :
  filled R C F W f m -> r < R -> c < C -> W r c ->
  nth (r + c * R) (_matrix m) d = F r c.
Proof.
  intros (Hr & Hc & Hf & Hwf & Hcells) Hlt Hlt' Hw.
  apply nth_lookup_Some. auto.
Qed.

Lemma flat_map_single {A B : Type} (g : nat -> A -> B) (l : list A) :
  flat_map (fun j => map (fun i => g i j) (seq 0 1)) l = map (g 0) l.
Proof. induction l as [|a l IH]; simpl; [reflexivity | f_equal; exact IH]. Qed.

(** The product of the convolution matrix of a column [h] with a column. *)
Lemma matmul_band_column (h M x : matrix T) (n : nat) :
  filled (size h + n - 1) n (band (_matrix h)) (fun _ _ => True) (fake_junk E) M ->
  sizet_rows x = n -> sizet_cols x = 1 -> 1 <= size h ->
  matmul E M x
  = Some (mk_matrix (size h + n - 1) 1
            (map (fun i => fir_acc (_matrix x) (_matrix h) (size h) i n)
                 (seq 0 (size h + n - 1)))
            (fake_junk E)).
Proof.
  intros HM Hxr Hxc Hm. pose proof HM as (HMr & HMc & _).
  unfold matmul. rewrite HMr, HMc, Hxr, Hxc, Nat.eqb_refl. simpl.
  rewrite app_nil_r. f_equal. f_equal.
  apply map_ext_in. intros i Hi. apply in_seq in Hi.
  unfold matmul_entry, fir_acc, get_lindex. rewrite HMr, HMc, Hxr.
  apply fold_left_ext_in. intros acc k Hk. apply in_seq in Hk.
  rewrite (filled_nth _ _ _ _ _ M i k zero HM) by (lia || exact I).
  rewrite band_tap. unfold size. rewrite Nat.mul_0_l, Nat.add_0_r. reflexivity.
Qed.

(** The product of a row with the convolution matrix of a row [h]. *)
Lemma matmul_band_row (h M x : matrix T) (n : nat) :
  element_ring ->
  filled n (size h + n - 1) (fun r c => band (_matrix h) c r) (fun _ _ => True)
    (fake_junk E) M ->
  sizet_rows x = 1 -> sizet_cols x = n -> 1 <= size h ->
  matmul E x M
  = Some (mk_matrix 1 (size h + n - 1)
            (map (fun i => fir_acc (_matrix x) (_matrix h) (size h) i n)
                 (seq 0 (size h + n - 1)))
            (fake_junk E)).
Proof.
  intros Hring HM Hxr Hxc Hm. pose proof HM as (HMr & HMc & _).
  unfold matmul. rewrite HMr, HMc, Hxr, Hxc, Nat.eqb_refl.
  rewrite (flat_map_single (fun i j => matmul_entry x M i j)).
  f_equal. f_equal.
  apply map_ext_in. intros j Hj. apply in_seq in Hj.
  unfold matmul_entry, fir_acc, get_lindex. rewrite HMr, Hxr, Hxc.
  apply fold_left_ext_in. intros acc k Hk. apply in_seq in Hk.
  rewrite (filled_nth _ _ _ _ _ M k j zero HM) by (lia || exact I).
  rewrite band_tap. unfold size. rewrite Nat.mul_1_r, Nat.add_0_l.
  f_equal. apply (Rmul_comm Hring).
Qed.

End ConvolutionProduct.

Section ConvolutionMatrixTheorem.
Context {T : Type} `{Element T}.
Variable E : build T.

Lemma is_vector_cases (h : matrix T) :
  is_vector h = true ->
  (sizet_rows h = 1 /\ 1 < sizet_cols h) \/ (1 < sizet_rows h /\ sizet_cols h = 1).
Proof.
  unfold is_vector.
  destruct (Nat.eqb_spec (sizet_rows h) 1), (Nat.eqb_spec (sizet_cols h) 1),
           (Nat.ltb_spec 1 (sizet_rows h)), (Nat.ltb_spec 1 (sizet_cols h));
    simpl; intros Hv; try discriminate; lia.
Qed.


End ConvolutionMatrixTheorem.

(** The integers form a commutative ring. *)
Lemma Z_element_ring : @element_ring Z Z_Element.
Proof.
  unfold element_ring, zero, one. simpl.
  constructor; intros; lia.
Qed.


(** C2 as stated fails for a row vector [h]: the convolution matrix of
    [1 2] for [n = 2] has three columns, so its product with a vector of two
    elements, row or column, is not defined. *)
Lemma convmtx_times_vector_row :
  ~ (exists M y p,
        convmtx Examples.debug7 (Examples.row_vec [1; 2]%Z) 2 = Done M
        /\ conv Examples.debug7 (Examples.row_vec [1; 2]%Z) (Examples.row_vec [1; 1]%Z) = Done y
        /\ matmul Examples.debug7 M (Examples.row_vec [1; 1]%Z) = Some p
        /\ same_matrix p y)
  /\ ~ (exists M y p,
          convmtx Examples.debug7 (Examples.row_vec [1; 2]%Z) 2 = Done M
          /\ conv Examples.debug7 (Examples.row_vec [1; 2]%Z) (Examples.col_vec [1; 1]%Z) = Done y
          /\ matmul Examples.debug7 M (Examples.col_vec [1; 1]%Z) = Some p
          /\ same_matrix p y).
Proof.
  split; intros (M & y & p & HM & _ & Hp & _);
    vm_compute in HM; injection HM as <-; vm_compute in Hp; discriminate.
Qed.

(** With assertions on, [convmtx] halts on a 1 x 1 argument. *)
Lemma convmtx_of_one_element :
  convmtx Examples.debug7 (mk_matrix 1 1 [5%Z] 7%Z) 2 = Stop AssertionFailed.
Proof. reflexivity. Qed.

(** [convmtx] of two elements with [size_len = 2^64 - 1]: the row count
    [2 + size_len - 1] wraps to 0. *)
Lemma convmtx_length_wraps :
  convmtx Examples.debug7 (Examples.col_vec [1; 2]%Z) (Z.to_nat (2 ^ 64 - 1))
  = Stop AssertionFailed.
Proof.
  assert (HU : Z.of_nat (Z.to_nat (2 ^ 64 - 1)) = (2 ^ 64 - 1)%Z)
    by (apply Z2Nat.id; lia).
  generalize dependent (Z.to_nat (2 ^ 64 - 1)). intros U HU.
  unfold convmtx.
  change (size (Examples.col_vec [1; 2]%Z)) with 2.
  rewrite HU.
  change (size_t_of (Z.of_nat 2 + (2 ^ 64 - 1) - 1)) with 0.
  destruct U as [| U']; [discriminate HU |].
  reflexivity.
Qed.

(** For [n = 1] the product [convmtx(h, 1) * x] is [h] scaled by the one
    element of [x], while [conv(h, x)] of a 1 x 1 [x] is the empty matrix. *)
Lemma convmtx_times_one_element :
  ~ (exists M y p,
        convmtx Examples.debug7 (Examples.col_vec [1; 2]%Z) 1 = Done M
        /\ conv Examples.debug7 (Examples.col_vec [1; 2]%Z) (mk_matrix 1 1 [3%Z] 7%Z) = Done y
        /\ matmul Examples.debug7 M (mk_matrix 1 1 [3%Z] 7%Z) = Some p
        /\ same_matrix p y).
Proof.
  intros (M & y & p & HM & Hy & Hp & Hsame).
  vm_compute in HM. injection HM as <-.
  vm_compute in Hy. injection Hy as <-.
  vm_compute in Hp. injection Hp as <-.
  destruct Hsame as (Hrows & _). discriminate Hrows.
Qed.




(** * The parser on a token that does not convert *)

Section ParserDefault.
Variable pre_parser : string -> string.

Lemma parser_empty_string {T : Type} `{Element T} (E : build T) (this : matrix T) :
  pre_parser "" = ""%string ->
  parser E pre_parser this ""
  = Done (true, mk_matrix 1 1
                  [T_sub (match T_extract [] with Some v => v | None => T_lit 0 end)
                         (if T_is_8bit then T_lit 48 else T_lit 0)]
                  (T_fake this)).
Proof.
  intros Hpre. unfold parser. rewrite Hpre. simpl.
  rewrite assert_true. simpl.
  destruct this as [r c buf f]. unfold size. simpl.
  destruct buf as [|x [|x' buf]]; reflexivity.
Qed.

(** C9. The empty literal has one token, which converts to no element
    type.  For [int] the element stored is 0; for [uint8_t] it is 208 and
    for [int8_t] it is -48, because the delta 0x30 is subtracted from the
    substituted zero as well.  The parse succeeds in all three cases. *)
Theorem unparsable_token_8bit :
  pre_parser "" = ""%string ->
  (forall (E : build Z) this,
      parser E pre_parser this ""
      = Done (true, mk_matrix 1 1 [0%Z] (T_fake this)))
  /\ (forall (E : build uint8_t) this,
        parser E pre_parser this ""
        = Done (true, mk_matrix 1 1 [mk_uint8 208] (T_fake this)))
  /\ (forall (E : build int8_t) this,
        parser E pre_parser this ""
        = Done (true, mk_matrix 1 1 [mk_int8 (-48)] (T_fake this))).
Proof.
  intros Hpre.
  split; [| split]; intros E this; rewrite parser_empty_string by assumption;
    reflexivity.
Qed.

End ParserDefault.

(** C9 with a [pre_parser] that leaves its argument as it is. *)
Lemma unparsable_token_8bit_witness :
  (forall (E : build Z) this,
      parser E (fun s => s) this ""
      = Done (true, mk_matrix 1 1 [0%Z] (T_fake this)))
  /\ (forall (E : build uint8_t) this,
        parser E (fun s => s) this ""
        = Done (true, mk_matrix 1 1 [mk_uint8 208] (T_fake this)))
  /\ (forall (E : build int8_t) this,
        parser E (fun s => s) this ""
        = Done (true, mk_matrix 1 1 [mk_int8 (-48)] (T_fake this))).
Proof.
  apply (unparsable_token_8bit (fun s => s)). reflexivity.
Defined.

(** * What [set_row], [set_col] and [conv] do away from the failing inputs *)

Section SiblingPaths.
Context {T : Type} `{Element T}.
Variable E : build T.

(** The guard rejects an index above the extent and a source that is too
    short (in a build with assertions, unless the assertion fires first). *)
Lemma set_row_rejected (this : matrix T) (row : nat) (mat_arg : matrix T) :
  sizet_rows this < row \/ size mat_arg < sizet_cols this ->
  assertions E = false \/ row < sizet_rows this \/ sizet_cols this <= size mat_arg ->
  set_row E this row mat_arg = Done (false, this).
Proof.
  intros Hbad Hpass. unfold set_row, SUSA_ASSERT.
  destruct (Nat.ltb_spec row (sizet_rows this)),
           (Nat.leb_spec (sizet_cols this) (size mat_arg)),
           (Nat.ltb_spec (sizet_rows this) row),
           (Nat.ltb_spec (size mat_arg) (sizet_cols this)),
           (assertions E); simpl; try reflexivity; lia.
Qed.

Lemma set_col_rejected (this : matrix T) (col : nat) (mat_arg : matrix T) :
  sizet_cols this < col \/ size mat_arg < sizet_rows this ->
  assertions E = false \/ col < sizet_cols this \/ sizet_rows this <= size mat_arg ->
  set_col E this col mat_arg = Done (false, this).
Proof.
  intros Hbad Hpass. unfold set_col, SUSA_ASSERT.
  destruct (Nat.ltb_spec col (sizet_cols this)),
           (Nat.leb_spec (sizet_rows this) (size mat_arg)),
           (Nat.ltb_spec (sizet_cols this) col),
           (Nat.ltb_spec (size mat_arg) (sizet_rows this)),
           (assertions E); simpl; try reflexivity; lia.
Qed.

(** For an index inside the receiver and a long enough source, the row is
    overwritten with the first elements of the source and nothing else
    changes. *)
Lemma set_row_in_range (this : matrix T) (row : nat) (mat_arg : matrix T) :
  wf this -> row < sizet_rows this -> sizet_cols this <= size mat_arg ->
  exists this',
    set_row E this row mat_arg = Done (true, this')
    /\ sizet_rows this' = sizet_rows this /\ sizet_cols this' = sizet_cols this
    /\ wf this'
    /\ (forall c, c < sizet_cols this ->
          _matrix this' !! (row + c * sizet_rows this) = _matrix mat_arg !! c)
    /\ (forall r c, r < sizet_rows this -> c < sizet_cols this -> r <> row ->
          _matrix this' !! (r + c * sizet_rows this)
          = _matrix this !! (r + c * sizet_rows this)).
Proof.
  intros Hwf Hrow Hsrc. unfold set_row, SUSA_ASSERT.
  destruct (Nat.ltb_spec row (sizet_rows this)); [| lia].
  destruct (Nat.ltb_spec (sizet_rows this) row); [lia |].
  destruct (Nat.ltb_spec (size mat_arg) (sizet_cols this)); [lia |].
  simpl. rewrite andb_false_r. simpl.
  set (R := sizet_rows this) in *. set (C := sizet_cols this) in *.
  edestruct (for_loop_inv
    (fun c m =>
       sizet_rows m = R /\ sizet_cols m = C
       /\ length (_matrix m) = R * C
       /\ (forall c', c' < c -> _matrix m !! (row + c' * R) = _matrix mat_arg !! c')
       /\ (forall r c', r < R -> c' < C -> r <> row ->
             _matrix m !! (r + c' * R) = _matrix this !! (r + c' * R)))
    0 C) as (m & Hrun & Hm); [lia | | | rewrite Hrun].
  - repeat split; try assumption; try reflexivity. intros c' Hc'. lia.
  - intros c m Hc (Hmr & Hmc & Hlen & Hdone & Hrest).
    destruct (lookup_lt_is_Some_2 (_matrix mat_arg) c) as [v Hv];
      [unfold size in Hsrc; lia |].
    rewrite (raw_read_Some (_matrix mat_arg) c v Hv). simpl.
    unfold get_lindex. rewrite Hmr.
    assert (Hidx : row + c * R < R * C) by (apply lindex_lt; lia).
    rewrite raw_write_lt by lia. simpl.
    eexists. split; [reflexivity |].
    simpl. rewrite length_insert. repeat split; try assumption.
    + intros c' Hc'. destruct (Nat.eq_dec c' c) as [-> | Hne].
      * rewrite list_lookup_insert_eq by lia. congruence.
      * rewrite list_lookup_insert_ne; [apply Hdone; lia |].
        intros Heq. apply lindex_inj in Heq; lia.
    + intros r c' Hr Hc' Hne. rewrite list_lookup_insert_ne; [auto |].
      intros Heq. apply lindex_inj in Heq; lia.
  - destruct Hm as (Hmr & Hmc & Hlen & Hdone & Hrest). simpl.
    eexists. split; [reflexivity |].
    repeat split; try assumption. unfold wf. rewrite Hmr, Hmc. assumption.
Qed.

Lemma set_col_in_range (this : matrix T) (col : nat) (mat_arg : matrix T) :
  wf this -> col < sizet_cols this -> sizet_rows this <= size mat_arg ->
  exists this',
    set_col E this col mat_arg = Done (true, this')
    /\ sizet_rows this' = sizet_rows this /\ sizet_cols this' = sizet_cols this
    /\ wf this'
    /\ (forall r, r < sizet_rows this ->
          _matrix this' !! (r + col * sizet_rows this) = _matrix mat_arg !! r)
    /\ (forall r c, r < sizet_rows this -> c < sizet_cols this -> c <> col ->
          _matrix this' !! (r + c * sizet_rows this)
          = _matrix this !! (r + c * sizet_rows this)).
Proof.
  intros Hwf Hcol Hsrc. unfold set_col, SUSA_ASSERT.
  destruct (Nat.ltb_spec col (sizet_cols this)); [| lia].
  destruct (Nat.ltb_spec (sizet_cols this) col); [lia |].
  destruct (Nat.ltb_spec (size mat_arg) (sizet_rows this)); [lia |].
  simpl. rewrite andb_false_r. simpl.
  set (R := sizet_rows this) in *. set (C := sizet_cols this) in *.
  edestruct (for_loop_inv
    (fun r m =>
       sizet_rows m = R /\ sizet_cols m = C
       /\ length (_matrix m) = R * C
       /\ (forall r', r' < r -> _matrix m !! (r' + col * R) = _matrix mat_arg !! r')
       /\ (forall r' c, r' < R -> c < C -> c <> col ->
             _matrix m !! (r' + c * R) = _matrix this !! (r' + c * R)))
    0 R) as (m & Hrun & Hm); [lia | | | rewrite Hrun].
  - repeat split; try assumption; try reflexivity. intros r' Hr'. lia.
  - intros r m Hr (Hmr & Hmc & Hlen & Hdone & Hrest).
    destruct (lookup_lt_is_Some_2 (_matrix mat_arg) r) as [v Hv];
      [unfold size in Hsrc; lia |].
    rewrite (raw_read_Some (_matrix mat_arg) r v Hv). simpl.
    unfold get_lindex. rewrite Hmr.
    assert (Hidx : r + col * R < R * C) by (apply lindex_lt; lia).
    rewrite raw_write_lt by lia. simpl.
    eexists. split; [reflexivity |].
    simpl. rewrite length_insert. repeat split; try assumption.
    + intros r' Hr'. destruct (Nat.eq_dec r' r) as [-> | Hne].
      * rewrite list_lookup_insert_eq by lia. congruence.
      * rewrite list_lookup_insert_ne; [apply Hdone; lia |].
        intros Heq. apply lindex_inj in Heq; lia.
    + intros r' c Hr' Hc Hne. rewrite list_lookup_insert_ne; [auto |].
      intros Heq. apply lindex_inj in Heq; lia.
  - destruct Hm as (Hmr & Hmc & Hlen & Hdone & Hrest). simpl.
    eexists. split; [reflexivity |].
    repeat split; try assumption. unfold wf. rewrite Hmr, Hmc. assumption.
Qed.

(** [operator*(T, const matrix&)] scales every element. *)
Lemma scalar_mul_scales (s : T) (a : matrix T) :
  wf a -> 1 <= sizet_rows a -> 1 <= sizet_cols a ->
  scalar_mul E s a
  = Done (mk_matrix (sizet_rows a) (sizet_cols a) (map (T_mul s) (_matrix a))
            (fake_junk E)).
Proof.
  intros Hwf Hr Hc. unfold scalar_mul, matrix_of_shape, shape. simpl.
  rewrite matrix_new_ok by assumption. simpl.
  set (n := sizet_rows a * sizet_cols a).
  assert (Hn : size a = n) by exact Hwf. rewrite Hn.
  edestruct (for_loop_inv
    (fun i m => m = mk_matrix (sizet_rows a) (sizet_cols a)
                      (map (T_mul s) (take i (_matrix a)) ++ drop i (allocate E n))
                      (fake_junk E))
    0 n) as (m & Hrun & ->); [lia | reflexivity | | rewrite Hrun].
  - intros i t Hi ->. simpl.
    destruct (lookup_lt_is_Some_2 (_matrix a) i) as [v Hv]; [unfold size in Hn; lia |].
    rewrite (raw_read_Some _ _ _ Hv). simpl.
    assert (Hpre : length (map (T_mul s) (take i (_matrix a))) = i).
    { rewrite length_map, length_take. unfold size in Hn. lia. }
    rewrite raw_write_lt
      by (rewrite length_app, Hpre, length_drop, length_allocate; lia).
    simpl. eexists. split; [reflexivity |]. unfold with_buf. simpl. f_equal.
    rewrite insert_app_r_alt by lia. rewrite Hpre, Nat.sub_diag.
    rewrite Nat.add_1_r, (take_S_r _ _ _ Hv), map_app. simpl.
    rewrite <- app_assoc. simpl. f_equal.
    destruct (lookup_lt_is_Some_2 (allocate E n) i) as [d Hd];
      [rewrite length_allocate; lia |].
    rewrite (drop_S _ _ _ Hd). reflexivity.
  - f_equal. f_equal.
    rewrite firstn_all2 by (unfold size in Hn; lia).
    rewrite drop_ge by (rewrite length_allocate; lia). apply app_nil_r.
Qed.

(** A 1x1 operand with an operand that is neither a row nor a column:
    [conv] multiplies by the scalar. *)
Lemma conv_scalar_not_vector (a b : matrix T) (s : T) :
  wf a -> 1 <= sizet_rows a -> 1 <= sizet_cols a -> is_column_or_row a = false ->
  sizet_rows b = 1 -> sizet_cols b = 1 -> _matrix b = [s] ->
  conv E a b
  = Done (mk_matrix (sizet_rows a) (sizet_cols a) (map (T_mul s) (_matrix a))
            (fake_junk E)).
Proof.
  intros Hwf Hr Hc Ha Hbr Hbc Hb. unfold conv.
  rewrite (scalar_not_column_or_row b Hbr Hbc), Ha.
  unfold no_rows, no_cols. rewrite Hbr, Hbc. simpl.
  rewrite (get_elem_Some E b 0 s) by (rewrite Hb; reflexivity). simpl.
  rewrite scalar_mul_scales by assumption. simpl.
  unfold assign. simpl. rewrite length_map, Hwf.
  destruct (Nat.ltb_spec 0 (sizet_rows a * sizet_cols a)); [reflexivity | nia].
Qed.

End SiblingPaths.

(** * More loops *)

Lemma iterate_down_inv {St : Type} (I : nat -> St -> Prop) (body : nat -> St -> result St) :
  forall count i s,
    count <= i ->
    I i s ->
    (forall j t, i - count < j <= i -> I j t ->
                 exists t', body j t = Done t' /\ I (j - 1) t') ->
    exists s', iterate_down count i body s = Done s' /\ I (i - count) s'.
Proof.
  induction count as [|count IH]; intros i s Hle Hi Hstep; simpl.
  - exists s. rewrite Nat.sub_0_r. auto.
  - destruct (Hstep i s) as (t & Hb & Ht); [lia | assumption |].
    rewrite Hb; simpl.
    destruct (IH (i - 1) t) as (s' & Hrun & Hs'); [lia | assumption | |].
    + intros j u Hj Hu. apply Hstep; [lia | assumption].
    + exists s'. split; [assumption |].
      replace (i - S count) with (i - 1 - count) by lia. assumption.
Qed.

Lemma for_loop_down_inv {St : Type} (I : nat -> St -> Prop) hi lo
    (body : nat -> St -> result St) (s : St) :
  lo <= hi ->
  I hi s ->
  (forall j t, lo < j <= hi -> I j t ->
               exists t', body j t = Done t' /\ I (j - 1) t') ->
  exists s', for_loop_down hi lo body s = Done s' /\ I lo s'.
Proof.
  intros Hle Hhi Hstep. unfold for_loop_down.
  destruct (iterate_down_inv I body (hi - lo) hi s) as (s' & Hrun & Hs');
    [lia | assumption | |].
  - intros j t Hj. apply Hstep. lia.
  - exists s'. split; [assumption |].
    replace lo with (hi - (hi - lo)) by lia. assumption.
Qed.

(** A loop stops with the fault of the first pass that stops: here every
    pass either keeps the invariant or stops with [f], and the last pass
    stops. *)
Lemma iterate_stops {St : Type} (I : nat -> St -> Prop) (body : nat -> St -> result St)
    (f : fault) :
  forall count i s,
    I i s ->
    (forall j t, i <= j < i + count -> I j t ->
                 (exists t', body j t = Done t' /\ I (j + 1) t') \/ body j t = Stop f) ->
    (forall t, I (i + count) t -> body (i + count) t = Stop f) ->
    iterate (S count) i body s = Stop f.
Proof.
  induction count as [|count IH]; intros i s Hi Hstep Hlast.
  - simpl. rewrite Nat.add_0_r in Hlast. rewrite Hlast by assumption. reflexivity.
  - change (iterate (S (S count)) i body s)
      with (bind (body i s) (fun s' => iterate (S count) (i + 1) body s')).
    destruct (Hstep i s) as [(t & Hb & Ht) | Hb]; [lia | assumption | |].
    + rewrite Hb. simpl bind. apply IH; [assumption | |].
      * intros j u Hj Hu. apply Hstep; [lia | assumption].
      * intros u Hu. replace (i + 1 + count) with (i + S count) in * by lia.
        apply Hlast. assumption.
    + rewrite Hb. reflexivity.
Qed.

Lemma for_loop_stops {St : Type} (I : nat -> St -> Prop) lo hi
    (body : nat -> St -> result St) (f : fault) (s : St) :
  lo < hi ->
  I lo s ->
  (forall j t, lo <= j < hi - 1 -> I j t ->
               (exists t', body j t = Done t' /\ I (j + 1) t') \/ body j t = Stop f) ->
  (forall t, I (hi - 1) t -> body (hi - 1) t = Stop f) ->
  for_loop lo hi body s = Stop f.
Proof.
  intros Hlt Hlo Hstep Hlast. unfold for_loop.
  replace (hi - lo) with (S (hi - 1 - lo)) by lia.
  apply (iterate_stops I); [assumption | |].
  - intros j t Hj. apply Hstep. lia.
  - replace (lo + (hi - 1 - lo)) with (hi - 1) by lia. assumption.
Qed.

(** * Writing and reading one element *)

Section Indexing.
Context {T : Type} `{Element T}.
Variable E : build T.

Lemma put_elem_in_range (m : matrix T) i v :
  i < length (_matrix m) ->
  put_elem E m i v = Done (with_buf m (<[i := v]> (_matrix m))).
Proof.
  intros Hlt. unfold put_elem. rewrite ref_elem_in_range by assumption. simpl.
  rewrite raw_write_lt by assumption. reflexivity.
Qed.

(** After [m(r, c) = v] on a cell of the matrix, the shape is the same, the
    element at linear index [r + c * rows] is [v], [m(r, c)] reads [v], and
    every other cell reads what it read before. *)
Theorem write_then_read (m : matrix T) (r c : nat) (v : T) :
  wf m -> r < sizet_rows m -> c < sizet_cols m ->
  exists m',
    put E m r c v = Done m'
    /\ sizet_rows m' = sizet_rows m /\ sizet_cols m' = sizet_cols m /\ wf m'
    /\ _matrix m' !! (r + c * sizet_rows m) = Some v
    /\ get E m' r c = Done v
    /\ (forall r' c', r' < sizet_rows m -> c' < sizet_cols m ->
          r' <> r \/ c' <> c -> get E m' r' c' = get E m r' c').
Proof.
  intros Hwf Hr Hc.
  pose proof (lindex_lt _ _ _ _ Hr Hc) as Hlt. rewrite <- Hwf in Hlt.
  eexists. split; [apply put_in_range; assumption |].
  simpl. split; [reflexivity |]. split; [reflexivity |].
  assert (Hnew : <[r + c * sizet_rows m := v]> (_matrix m) !! (r + c * sizet_rows m)
                 = Some v) by (apply list_lookup_insert_eq; assumption).
  split; [unfold wf; simpl; rewrite length_insert; exact Hwf |].
  split; [exact Hnew |]. split.
  - apply get_Some; simpl; assumption.
  - intros r' c' Hr' Hc' Hne.
    pose proof (lindex_lt _ _ _ _ Hr' Hc') as Hlt'. rewrite <- Hwf in Hlt'.
    destruct (lookup_lt_is_Some_2 (_matrix m) _ Hlt') as [w Hw].
    rewrite (get_Some E m r' c' w) by assumption.
    apply get_Some; simpl; try assumption.
    rewrite list_lookup_insert_ne; [assumption |].
    intros Heq. apply lindex_inj in Heq; lia.
Qed.

(** A write through [operator()] outside the matrix halts a build with
    assertions.  Without them it is not rejected and does not touch the
    buffer: it lands in the one spare element of the matrix, which every
    later reference outside the matrix reads back. *)
Theorem write_outside_the_matrix (m : matrix T) (r c : nat) (v : T) :
  sizet_rows m <= r \/ sizet_cols m <= c ->
  (assertions E = true -> put E m r c v = Stop AssertionFailed)
  /\ (assertions E = false ->
        exists m',
          put E m r c v = Done m'
          /\ sizet_rows m' = sizet_rows m /\ sizet_cols m' = sizet_cols m
          /\ _matrix m' = _matrix m
          /\ forall r' c', sizet_rows m <= r' \/ sizet_cols m <= c' ->
               (p <- ref E m' r' c' ;; load m' p) = Done v).
Proof.
  intros Hout.
  assert (Hin : forall m0 : matrix T,
            sizet_rows m0 = sizet_rows m -> sizet_cols m0 = sizet_cols m ->
            forall r' c', sizet_rows m <= r' \/ sizet_cols m <= c' ->
            (r' <? sizet_rows m0) && (c' <? sizet_cols m0) = false).
  { intros m0 Hr0 Hc0 r' c' Hout'. rewrite Hr0, Hc0.
    destruct (Nat.ltb_spec r' (sizet_rows m)), (Nat.ltb_spec c' (sizet_cols m));
      simpl; try reflexivity; lia. }
  split; intros Hbuild.
  - unfold put, ref, SUSA_ASSERT. rewrite Hbuild, (Hin m) by auto.
    destruct (non_null m); reflexivity.
  - exists (with_fake m v). split; [| repeat split].
    + unfold put, ref. rewrite !assert_release by assumption. simpl.
      rewrite (Hin m) by auto. reflexivity.
    + intros r' c' Hout'. unfold ref. rewrite !assert_release by assumption. simpl.
      rewrite (Hin m) by auto. reflexivity.
Qed.

End Indexing.

(** [write_then_read] on the cell (1,2) of a 2x3 matrix. *)
Lemma write_then_read_witness :
  exists m',
    put Examples.debug7 (mk_matrix 2 3 [1; 2; 3; 4; 5; 6]%Z 0%Z) 1 2 9%Z = Done m'
    /\ sizet_rows m' = 2 /\ sizet_cols m' = 3 /\ wf m'
    /\ _matrix m' !! (1 + 2 * 2) = Some 9%Z
    /\ get Examples.debug7 m' 1 2 = Done 9%Z
    /\ (forall r' c', r' < 2 -> c' < 3 -> r' <> 1 \/ c' <> 2 ->
          get Examples.debug7 m' r' c'
          = get Examples.debug7 (mk_matrix 2 3 [1; 2; 3; 4; 5; 6]%Z 0%Z) r' c').
Proof.
  apply (write_then_read Examples.debug7 (mk_matrix 2 3 [1; 2; 3; 4; 5; 6]%Z 0%Z) 1 2 9%Z);
    [reflexivity | simpl; lia | simpl; lia].
Defined.

(** [write_outside_the_matrix] one row below a 2x3 matrix. *)
Lemma write_outside_the_matrix_witness :
  (assertions Examples.release7 = true ->
     put Examples.release7 (mk_matrix 2 3 [1; 2; 3; 4; 5; 6]%Z 0%Z) 2 0 9%Z
     = Stop AssertionFailed)
  /\ (assertions Examples.release7 = false ->
        exists m',
          put Examples.release7 (mk_matrix 2 3 [1; 2; 3; 4; 5; 6]%Z 0%Z) 2 0 9%Z = Done m'
          /\ sizet_rows m' = 2 /\ sizet_cols m' = 3
          /\ _matrix m' = [1; 2; 3; 4; 5; 6]%Z
          /\ forall r' c', 2 <= r' \/ 3 <= c' ->
               (p <- ref Examples.release7 m' r' c' ;; load m' p) = Done 9%Z).
Proof.
  apply (write_outside_the_matrix Examples.release7
           (mk_matrix 2 3 [1; 2; 3; 4; 5; 6]%Z 0%Z) 2 0 9%Z).
  left. simpl. lia.
Defined.

(** * [row], [col] and their setters *)

Section RowsAndColumns.
Context {T : Type} `{Element T}.
Variable E : build T.

Lemma list_tabulate_eq (buf : list T) (F : nat -> T) n :
  length buf = n -> (forall p, p < n -> buf !! p = Some (F p)) ->
  buf = map F (seq 0 n).
Proof.
  intros Hlen Hcells. apply list_eq. intros p.
  change (map F (seq 0 n)) with (F <$> seq 0 n). rewrite list_lookup_fmap.
  destruct (Nat.lt_ge_cases p n) as [Hlt | Hge].
  - rewrite Hcells, lookup_seq_lt by assumption. reflexivity.
  - rewrite lookup_seq_ge by assumption. apply lookup_ge_None. lia.
Qed.

(** A loop that stores [F 0], [F 1], ... through the one-index
    [operator()]. *)
Lemma fill_elem_loop (g : nat -> result T) (F : nat -> T) (idx : nat -> nat)
    lo hi (m0 : matrix T) :
  lo <= hi -> hi - lo <= length (_matrix m0) ->
  (forall i, lo <= i < hi -> g i = Done (F (i - lo)) /\ idx i = i - lo) ->
  exists buf,
    for_loop lo hi (fun i ret => v <- g i ;; put_elem E ret (idx i) v) m0
    = Done (with_buf m0 buf)
    /\ length buf = length (_matrix m0)
    /\ (forall p, p < hi - lo -> buf !! p = Some (F p))
    /\ (forall p, hi - lo <= p -> buf !! p = _matrix m0 !! p).
Proof.
  intros Hle Hroom Hbody.
  destruct (for_loop_inv
    (fun i m => exists buf, m = with_buf m0 buf
       /\ length buf = length (_matrix m0)
       /\ (forall p, p < i - lo -> buf !! p = Some (F p))
       /\ (forall p, i - lo <= p -> buf !! p = _matrix m0 !! p))
    lo hi (fun i ret => v <- g i ;; put_elem E ret (idx i) v) m0)
    as (m & Hrun & buf & -> & Hlen & Hdone & Hrest).
  - assumption.
  - exists (_matrix m0). destruct m0; repeat split; auto. intros p Hp. lia.
  - intros i t Hi (buf & -> & Hlen & Hdone & Hrest).
    destruct (Hbody i Hi) as [Hg Hidx]. rewrite Hg, Hidx. simpl.
    rewrite put_elem_in_range by (simpl; lia). simpl.
    eexists. split; [reflexivity |].
    exists (<[i - lo := F (i - lo)]> buf). unfold with_buf. simpl.
    rewrite length_insert. repeat split; try assumption.
    + intros p Hp. destruct (Nat.eq_dec p (i - lo)) as [-> | Hne].
      * apply list_lookup_insert_eq. lia.
      * rewrite list_lookup_insert_ne by lia. apply Hdone. lia.
    + intros p Hp. rewrite list_lookup_insert_ne by lia. apply Hrest. lia.
  - exists buf. repeat split; assumption.
Qed.

Lemma matrix_row_run (this : matrix T) (i : nat) (d : T) :
  wf this -> i < sizet_rows this -> 1 <= sizet_cols this ->
  matrix_row E this i
  = Done (mk_matrix 1 (sizet_cols this)
            (map (fun c => nth (i + c * sizet_rows this) (_matrix this) d)
                 (seq 0 (sizet_cols this)))
            (fake_junk E)).
Proof.
  intros Hwf Hi Hc. unfold matrix_row.
  rewrite matrix_new_ok by lia. simpl.
  destruct (Nat.ltb_spec i (sizet_rows this)); [| lia].
  set (F := fun c => nth (i + c * sizet_rows this) (_matrix this) d).
  destruct (fill_elem_loop
    (fun c => raw_read (_matrix this) (get_lindex this i c)) F (fun c => c)
    0 (sizet_cols this)
    (mk_matrix 1 (sizet_cols this) (allocate E (sizet_cols this + 0)) (fake_junk E)))
    as (buf & Hrun & Hlen & Hdone & _).
  - lia.
  - simpl. rewrite length_allocate. lia.
  - intros c Hc'. split; [| lia]. rewrite Nat.sub_0_r. unfold get_lindex, F.
    apply raw_read_Some, lookup_nth. rewrite Hwf. apply lindex_lt; lia.
  - rewrite Hrun. unfold with_buf. simpl. f_equal. f_equal.
    apply list_tabulate_eq.
    + rewrite Hlen. simpl. rewrite length_allocate. lia.
    + intros p Hp. apply Hdone. lia.
Qed.

Lemma matrix_col_run (this : matrix T) (j : nat) (d : T) :
  wf this -> j < sizet_cols this -> 1 <= sizet_rows this ->
  matrix_col E this j
  = Done (mk_matrix (sizet_rows this) 1
            (map (fun r => nth (r + j * sizet_rows this) (_matrix this) d)
                 (seq 0 (sizet_rows this)))
            (fake_junk E)).
Proof.
  intros Hwf Hj Hr. unfold matrix_col.
  rewrite matrix_new_ok by lia. simpl.
  destruct (Nat.ltb_spec j (sizet_cols this)); [| lia].
  set (F := fun r => nth (r + j * sizet_rows this) (_matrix this) d).
  destruct (fill_elem_loop
    (fun r => raw_read (_matrix this) (get_lindex this r j)) F (fun r => r)
    0 (sizet_rows this)
    (mk_matrix (sizet_rows this) 1 (allocate E (sizet_rows this * 1)) (fake_junk E)))
    as (buf & Hrun & Hlen & Hdone & _).
  - lia.
  - simpl. rewrite length_allocate. lia.
  - intros r Hr'. split; [| lia]. rewrite Nat.sub_0_r. unfold get_lindex, F.
    apply raw_read_Some, lookup_nth. rewrite Hwf. apply lindex_lt; lia.
  - rewrite Hrun. unfold with_buf. simpl. f_equal. f_equal.
    apply list_tabulate_eq.
    + rewrite Hlen. simpl. rewrite length_allocate. lia.
    + intros p Hp. apply Hdone. lia.
Qed.

Lemma lookup_tabulate (F : nat -> T) n p :
  p < n -> map F (seq 0 n) !! p = Some (F p).
Proof.
  intros Hp. change (map F (seq 0 n)) with (F <$> seq 0 n).
  rewrite list_lookup_fmap, lookup_seq_lt by assumption. reflexivity.
Qed.

(** [row(i)] and [col(j)] of an index inside the matrix return the row as a
    1 x cols matrix and the column as a rows x 1 matrix, in every build. *)
Theorem row_and_col_extract (this : matrix T) (i j : nat) :
  wf this -> i < sizet_rows this -> j < sizet_cols this ->
  (exists r, matrix_row E this i = Done r /\ is_row_of E this i r)
  /\ (exists c, matrix_col E this j = Done c /\ is_col_of E this j c).
Proof.
  intros Hwf Hi Hj. split.
  - eexists. split; [apply (matrix_row_run this i (fake_junk E)); (assumption || lia) |].
    split; [reflexivity |]. split; [reflexivity |]. simpl.
    intros c Hc. eexists. split.
    + apply (get_in_range E this i c (fake_junk E)); assumption.
    + apply get_elem_Some. simpl. rewrite lookup_tabulate by assumption. reflexivity.
  - eexists. split; [apply (matrix_col_run this j (fake_junk E)); (assumption || lia) |].
    split; [reflexivity |]. split; [reflexivity |]. simpl.
    intros r Hr. eexists. split.
    + apply (get_in_range E this r j (fake_junk E)); assumption.
    + apply get_elem_Some. simpl. rewrite lookup_tabulate by assumption. reflexivity.
Qed.

(** [row(i)] and [col(j)] of an index outside a non-empty matrix do not
    fail, in a build with assertions either: they return a matrix of the
    usual shape that nothing has written to. *)
Theorem row_and_col_outside (this : matrix T) (i j : nat) :
  1 <= sizet_rows this -> 1 <= sizet_cols this ->
  (sizet_rows this <= i ->
     matrix_row E this i = Done (untouched E 1 (sizet_cols this)))
  /\ (sizet_cols this <= j ->
        matrix_col E this j = Done (untouched E (sizet_rows this) 1)).
Proof.
  intros Hr Hc. split; intros Hout.
  - unfold matrix_row. rewrite matrix_new_ok by lia. simpl.
    destruct (Nat.ltb_spec i (sizet_rows this)); [lia | reflexivity].
  - unfold matrix_col. rewrite matrix_new_ok by lia. simpl.
    destruct (Nat.ltb_spec j (sizet_cols this)); [lia | reflexivity].
Qed.

(** With the receiver as its own argument and a row index at or after the
    column count, [set_row] reads only elements that no store has reached,
    and acts as it does on a copy of the receiver. *)
Lemma set_row_self_apart (this : matrix T) (i : nat) :
  sizet_cols this <= i -> set_row_self E this i = set_row E this i this.
Proof.
  intros Hci. unfold set_row_self, set_row.
  destruct (SUSA_ASSERT E _); simpl; [| reflexivity].
  destruct (_ || _); [reflexivity |].
  rewrite (for_loop_agree
             (fun _ m => sizet_rows m = sizet_rows this
                         /\ forall p, p < i -> _matrix m !! p = _matrix this !! p)
             0 (sizet_cols this) _
             (fun indx m =>
                v <- raw_read (_matrix this) indx ;;
                buf <- raw_write (_matrix m) (get_lindex m i indx) v ;;
                Done (with_buf m buf))).
  - reflexivity.
  - split; [reflexivity | auto].
  - intros c m Hc (HR & Hlow). split.
    + unfold raw_read. rewrite Hlow by lia. reflexivity.
    + intros t'. unfold raw_read, raw_write.
      destruct (_matrix this !! c); simpl; [| discriminate].
      destruct (_ <? _); simpl; [| discriminate].
      intros [= <-]. simpl. split; [assumption |].
      intros p Hp. rewrite list_lookup_insert_ne; [auto | unfold get_lindex; lia].
Qed.

(** [m.set_row(i, src)], with [src] an object other than [m], followed by
    [m.row(i)] gives back the first cols elements of [src], and every other
    row reads as before.  With the receiver as its own argument the call
    acts as on a copy of the receiver when the column count is at most [i];
    below that it can differ: on the 2 x 2 matrix of [a b c d],
    [m.set_row(1, m)] leaves [a a c a], where a copy as argument leaves
    [a a c b]. *)
Theorem set_row_then_row (this : matrix T) (i : nat) (src : matrix T) :
  wf this -> i < sizet_rows this -> 1 <= sizet_cols this ->
  sizet_cols this <= size src ->
  (exists this' r,
     set_row E this i src = Done (true, this')
     /\ matrix_row E this' i = Done r
     /\ _matrix r = take (sizet_cols this) (_matrix src)
     /\ forall i', i' < sizet_rows this -> i' <> i ->
          matrix_row E this' i' = matrix_row E this i')
  /\ (sizet_cols this <= i -> set_row_self E this i = set_row E this i this)
  /\ (forall a b c d f : T,
        set_row_self E (mk_matrix 2 2 [a; b; c; d] f) 1
        = Done (true, mk_matrix 2 2 [a; a; c; a] f)
        /\ set_row E (mk_matrix 2 2 [a; b; c; d] f) 1 (mk_matrix 2 2 [a; b; c; d] f)
           = Done (true, mk_matrix 2 2 [a; a; c; b] f)).
Proof.
  intros Hwf Hi Hc Hsrc.
  split; [| split; [apply set_row_self_apart |]].
  2: { intros a b c d f. unfold set_row_self, set_row, SUSA_ASSERT. simpl.
       rewrite andb_false_r. split; reflexivity. }
  destruct (set_row_in_range E this i src Hwf Hi Hsrc)
    as (this' & Hset & Hr' & Hc' & Hwf' & Hrow & Hrest).
  exists this'. eexists. split; [exact Hset |].
  split; [apply (matrix_row_run this' i (fake_junk E)); (assumption || lia) |].
  split.
  - simpl. rewrite Hr', Hc'. apply list_eq. intros p.
    rewrite lookup_take.
    destruct (decide (p < sizet_cols this)) as [Hp | Hp].
    + rewrite lookup_tabulate by assumption.
      rewrite <- Hrow by assumption.
      destruct (lookup_lt_is_Some_2 (_matrix this') (i + p * sizet_rows this)) as [w Hw].
      { rewrite Hwf', Hr', Hc'. apply lindex_lt; assumption. }
      rewrite Hw. f_equal. apply nth_lookup_Some. assumption.
    + change (map ?f ?l) with (f <$> l).
      rewrite list_lookup_fmap, lookup_seq_ge by lia. reflexivity.
  - intros i' Hi' Hne.
    rewrite (matrix_row_run this' i' (fake_junk E)) by (assumption || lia).
    rewrite (matrix_row_run this i' (fake_junk E)) by (assumption || lia).
    rewrite Hr', Hc'. f_equal. f_equal.
    apply map_ext_in. intros c Hin. apply in_seq in Hin.
    rewrite !nth_lookup, Hrest by (assumption || lia). reflexivity.
Qed.

(** [set_col(j, src)] followed by [col(j)] gives back the first rows
    elements of [src], and every other column reads as before. *)
Theorem set_col_then_col (this : matrix T) (j : nat) (src : matrix T) :
  wf this -> j < sizet_cols this -> 1 <= sizet_rows this ->
  sizet_rows this <= size src ->
  exists this' c,
    set_col E this j src = Done (true, this')
    /\ matrix_col E this' j = Done c
    /\ _matrix c = take (sizet_rows this) (_matrix src)
    /\ forall j', j' < sizet_cols this -> j' <> j ->
         matrix_col E this' j' = matrix_col E this j'.
Proof.
  intros Hwf Hj Hr Hsrc.
  destruct (set_col_in_range E this j src Hwf Hj Hsrc)
    as (this' & Hset & Hr' & Hc' & Hwf' & Hcol & Hrest).
  exists this'. eexists. split; [exact Hset |].
  split; [apply (matrix_col_run this' j (fake_junk E)); (assumption || lia) |].
  split.
  - simpl. rewrite Hr'. apply list_eq. intros p.
    rewrite lookup_take.
    destruct (decide (p < sizet_rows this)) as [Hp | Hp].
    + rewrite lookup_tabulate by assumption.
      rewrite <- Hcol by assumption.
      destruct (lookup_lt_is_Some_2 (_matrix this') (p + j * sizet_rows this)) as [w Hw].
      { rewrite Hwf', Hr', Hc'. apply lindex_lt; assumption. }
      rewrite Hw. f_equal. apply nth_lookup_Some. assumption.
    + change (map ?f ?l) with (f <$> l).
      rewrite list_lookup_fmap, lookup_seq_ge by lia. reflexivity.
  - intros j' Hj' Hne.
    rewrite (matrix_col_run this' j' (fake_junk E)) by (assumption || lia).
    rewrite (matrix_col_run this j' (fake_junk E)) by (assumption || lia).
    rewrite Hr'. f_equal. f_equal.
    apply map_ext_in. intros r Hin. apply in_seq in Hin.
    rewrite !nth_lookup, Hrest by (assumption || lia). reflexivity.
Qed.

End RowsAndColumns.

(** * [swap_rows] and [swap_cols] *)

Section Swapping.
Context {T : Type} `{Element T}.

Lemma swap_loop_run (ia ib : matrix T -> nat -> nat) (ia0 ib0 : nat -> nat)
    (n : nat) (m0 : matrix T) :
  (forall buf k, ia (with_buf m0 buf) k = ia0 k /\ ib (with_buf m0 buf) k = ib0 k) ->
  (forall k, k < n -> ia0 k < length (_matrix m0) /\ ib0 k < length (_matrix m0)) ->
  (forall k k', k < n -> k' < n ->
     ia0 k = ia0 k' \/ ib0 k = ib0 k' \/ ia0 k = ib0 k' -> k = k') ->
  exists buf,
    for_loop 0 n (swap_body ia ib) m0 = Done (with_buf m0 buf)
    /\ length buf = length (_matrix m0)
    /\ (forall k, k < n ->
          buf !! ia0 k = _matrix m0 !! ib0 k /\ buf !! ib0 k = _matrix m0 !! ia0 k)
    /\ (forall p, (forall k, k < n -> p <> ia0 k /\ p <> ib0 k) ->
          buf !! p = _matrix m0 !! p).
Proof.
  intros Hidx Hin Hinj.
  assert (Hinj' : forall k k', k < n -> k' < n ->
            ia0 k = ia0 k' \/ ib0 k = ib0 k' \/ ia0 k = ib0 k' \/ ib0 k = ia0 k' ->
            k = k').
  { intros k k' Hk Hk' [Hc | [Hc | [Hc | Hc]]]; [apply Hinj; auto .. |].
    symmetry. apply Hinj; auto. }
  destruct (for_loop_inv
    (fun j m => exists buf, m = with_buf m0 buf
       /\ length buf = length (_matrix m0)
       /\ (forall k, k < j ->
             buf !! ia0 k = _matrix m0 !! ib0 k /\ buf !! ib0 k = _matrix m0 !! ia0 k)
       /\ (forall p, (forall k, k < j -> p <> ia0 k /\ p <> ib0 k) ->
             buf !! p = _matrix m0 !! p))
    0 n (swap_body ia ib) m0) as (m & Hrun & buf & -> & Hlen & Hdone & Hrest).
  - lia.
  - exists (_matrix m0). destruct m0; repeat split; auto; intros; lia.
  - intros j t Hj (buf & -> & Hlen & Hdone & Hrest).
    destruct (Hidx buf j) as [Ha Hb]. destruct (Hin j) as [Hla Hlb]; [lia |].
    assert (Hfresh : forall q, q = ia0 j \/ q = ib0 j ->
              buf !! q = _matrix m0 !! q).
    { intros q Hq. apply Hrest. intros k Hk.
      split; intros Heq; assert (k = j) by (apply Hinj'; lia); lia. }
    destruct (lookup_lt_is_Some_2 (_matrix m0) (ia0 j) Hla) as [va Hva].
    destruct (lookup_lt_is_Some_2 (_matrix m0) (ib0 j) Hlb) as [vb Hvb].
    unfold swap_body. rewrite Ha, Hb. simpl.
    rewrite (raw_read_Some buf (ia0 j) va) by (rewrite Hfresh; auto). simpl.
    rewrite (raw_read_Some buf (ib0 j) vb) by (rewrite Hfresh; auto). simpl.
    rewrite raw_write_lt by lia. simpl.
    rewrite raw_write_lt by (rewrite length_insert; lia). simpl.
    eexists. split; [reflexivity |].
    exists (<[ib0 j := va]> (<[ia0 j := vb]> buf)). unfold with_buf. simpl.
    rewrite !length_insert. split; [reflexivity |]. split; [assumption |]. split.
    + intros k Hk. destruct (Nat.eq_dec k j) as [-> | Hne].
      * split.
        -- destruct (Nat.eq_dec (ia0 j) (ib0 j)) as [Heq | Hne].
           ++ rewrite Heq, list_lookup_insert_eq by (rewrite length_insert; lia).
              congruence.
           ++ rewrite list_lookup_insert_ne, list_lookup_insert_eq by (lia || auto).
              congruence.
        -- rewrite list_lookup_insert_eq by (rewrite length_insert; lia). congruence.
      * assert (Hkj : k < j) by lia.
        assert (Hdist : forall q, q = ia0 k \/ q = ib0 k -> q <> ia0 j /\ q <> ib0 j).
        { intros q Hq. split; intros Heq; assert (k = j) by (apply Hinj'; lia); lia. }
        destruct (Hdist (ia0 k)) as [? ?]; [auto |].
        destruct (Hdist (ib0 k)) as [? ?]; [auto |].
        rewrite !list_lookup_insert_ne by auto. apply Hdone. assumption.
    + intros p Hp. destruct (Hp j) as [Hpa Hpb]; [lia |].
      rewrite !list_lookup_insert_ne by auto. apply Hrest.
      intros k Hk. apply Hp. lia.
  - exists buf. repeat split; try assumption; apply Hdone; assumption.
Qed.

End Swapping.

Section SwapTheorems.
Context {T : Type} `{Element T}.
Variable E : build T.

Lemma with_buf_same (m : matrix T) : with_buf m (_matrix m) = m.
Proof. destruct m. reflexivity. Qed.

Lemma get_of_lookup (m1 m2 : matrix T) r1 c1 r2 c2 :
  wf m1 -> wf m2 ->
  r1 < sizet_rows m1 -> c1 < sizet_cols m1 ->
  r2 < sizet_rows m2 -> c2 < sizet_cols m2 ->
  _matrix m1 !! (r1 + c1 * sizet_rows m1) = _matrix m2 !! (r2 + c2 * sizet_rows m2) ->
  get E m1 r1 c1 = get E m2 r2 c2.
Proof.
  intros Hwf1 Hwf2 Hr1 Hc1 Hr2 Hc2 Heq.
  destruct (lookup_lt_is_Some_2 (_matrix m2) (r2 + c2 * sizet_rows m2)) as [v Hv].
  { rewrite Hwf2. apply lindex_lt; assumption. }
  rewrite (get_Some E m2 r2 c2 v) by assumption.
  apply get_Some; try assumption. congruence.
Qed.

Lemma swap_rows_run (this : matrix T) (a b : nat) :
  wf this -> a < sizet_rows this -> b < sizet_rows this ->
  exists buf,
    swap_rows this a b = Done (with_buf this buf)
    /\ length buf = length (_matrix this)
    /\ (forall c, c < sizet_cols this ->
          buf !! (a + c * sizet_rows this) = _matrix this !! (b + c * sizet_rows this)
          /\ buf !! (b + c * sizet_rows this) = _matrix this !! (a + c * sizet_rows this))
    /\ (forall r c, r < sizet_rows this -> c < sizet_cols this -> r <> a -> r <> b ->
          buf !! (r + c * sizet_rows this) = _matrix this !! (r + c * sizet_rows this)).
Proof.
  intros Hwf Ha Hb.
  destruct (swap_loop_run
    (fun m k => get_lindex m a k) (fun m k => get_lindex m b k)
    (fun k => a + k * sizet_rows this) (fun k => b + k * sizet_rows this)
    (sizet_cols this) this) as (buf & Hrun & Hlen & Hswap & Hrest).
  - intros buf k. split; reflexivity.
  - intros k Hk. rewrite Hwf. split; apply lindex_lt; assumption.
  - intros k k' Hk Hk' [Heq | [Heq | Heq]]; apply lindex_inj in Heq; lia.
  - exists buf. split; [exact Hrun |]. split; [exact Hlen |]. split; [exact Hswap |].
    intros r c Hr Hc Hra Hrb. apply Hrest. intros k Hk.
    split; intros Heq; apply lindex_inj in Heq; lia.
Qed.

Lemma swap_cols_run (this : matrix T) (a b : nat) :
  wf this -> a < sizet_cols this -> b < sizet_cols this ->
  exists buf,
    swap_cols this a b = Done (with_buf this buf)
    /\ length buf = length (_matrix this)
    /\ (forall r, r < sizet_rows this ->
          buf !! (r + a * sizet_rows this) = _matrix this !! (r + b * sizet_rows this)
          /\ buf !! (r + b * sizet_rows this) = _matrix this !! (r + a * sizet_rows this))
    /\ (forall r c, r < sizet_rows this -> c < sizet_cols this -> c <> a -> c <> b ->
          buf !! (r + c * sizet_rows this) = _matrix this !! (r + c * sizet_rows this)).
Proof.
  intros Hwf Ha Hb.
  destruct (swap_loop_run
    (fun m k => get_lindex m k a) (fun m k => get_lindex m k b)
    (fun k => k + a * sizet_rows this) (fun k => k + b * sizet_rows this)
    (sizet_rows this) this) as (buf & Hrun & Hlen & Hswap & Hrest).
  - intros buf k. split; reflexivity.
  - intros k Hk. rewrite Hwf. split; apply lindex_lt; assumption.
  - intros k k' Hk Hk' [Heq | [Heq | Heq]]; apply lindex_inj in Heq; lia.
  - exists buf. split; [exact Hrun |]. split; [exact Hlen |]. split; [exact Hswap |].
    intros r c Hr Hc Hca Hcb. apply Hrest. intros k Hk.
    split; intros Heq; apply lindex_inj in Heq; lia.
Qed.

(** [swap_rows(a, b)] on two rows of the matrix exchanges them, leaves the
    other rows as they were, and done twice restores the matrix. *)
Theorem swap_rows_exchanges (this : matrix T) (a b : nat) :
  wf this -> a < sizet_rows this -> b < sizet_rows this ->
  exists this',
    swap_rows this a b = Done this'
    /\ sizet_rows this' = sizet_rows this /\ sizet_cols this' = sizet_cols this
    /\ (forall c, c < sizet_cols this ->
          get E this' a c = get E this b c /\ get E this' b c = get E this a c)
    /\ (forall r c, r < sizet_rows this -> c < sizet_cols this -> r <> a -> r <> b ->
          get E this' r c = get E this r c)
    /\ swap_rows this' a b = Done this.
Proof.
  intros Hwf Ha Hb.
  destruct (swap_rows_run this a b Hwf Ha Hb) as (buf & Hrun & Hlen & Hswap & Hrest).
  assert (Hwf' : wf (with_buf this buf)) by (unfold wf; simpl; rewrite Hlen; exact Hwf).
  exists (with_buf this buf). split; [exact Hrun |].
  split; [reflexivity |]. split; [reflexivity |]. split; [| split].
  - intros c Hc. destruct (Hswap c Hc) as [H1 H2].
    split; apply get_of_lookup; simpl; assumption.
  - intros r c Hr Hc Hra Hrb. apply get_of_lookup; simpl; try assumption.
    apply Hrest; assumption.
  - destruct (swap_rows_run (with_buf this buf) a b Hwf' Ha Hb)
      as (buf' & Hrun' & Hlen' & Hswap' & Hrest').
    rewrite Hrun'. simpl in *. f_equal.
    rewrite <- (with_buf_same this) at 2. unfold with_buf. simpl. f_equal.
    apply (buffer_ext (sizet_rows this) (sizet_cols this));
      [rewrite Hlen', Hlen; exact Hwf | exact Hwf |].
    intros r c Hr Hc.
    destruct (Nat.eq_dec r a) as [-> | Hra].
    + rewrite (proj1 (Hswap' c Hc)). apply Hswap. assumption.
    + destruct (Nat.eq_dec r b) as [-> | Hrb].
      * rewrite (proj2 (Hswap' c Hc)). apply Hswap. assumption.
      * rewrite Hrest', Hrest by assumption. reflexivity.
Qed.

(** [swap_cols(a, b)] on two columns of the matrix exchanges them, leaves
    the other columns as they were, and done twice restores the matrix. *)
Theorem swap_cols_exchanges (this : matrix T) (a b : nat) :
  wf this -> a < sizet_cols this -> b < sizet_cols this ->
  exists this',
    swap_cols this a b = Done this'
    /\ sizet_rows this' = sizet_rows this /\ sizet_cols this' = sizet_cols this
    /\ (forall r, r < sizet_rows this ->
          get E this' r a = get E this r b /\ get E this' r b = get E this r a)
    /\ (forall r c, r < sizet_rows this -> c < sizet_cols this -> c <> a -> c <> b ->
          get E this' r c = get E this r c)
    /\ swap_cols this' a b = Done this.
Proof.
  intros Hwf Ha Hb.
  destruct (swap_cols_run this a b Hwf Ha Hb) as (buf & Hrun & Hlen & Hswap & Hrest).
  assert (Hwf' : wf (with_buf this buf)) by (unfold wf; simpl; rewrite Hlen; exact Hwf).
  exists (with_buf this buf). split; [exact Hrun |].
  split; [reflexivity |]. split; [reflexivity |]. split; [| split].
  - intros r Hr. destruct (Hswap r Hr) as [H1 H2].
    split; apply get_of_lookup; simpl; assumption.
  - intros r c Hr Hc Hca Hcb. apply get_of_lookup; simpl; try assumption.
    apply Hrest; assumption.
  - destruct (swap_cols_run (with_buf this buf) a b Hwf' Ha Hb)
      as (buf' & Hrun' & Hlen' & Hswap' & Hrest').
    rewrite Hrun'. simpl in *. f_equal.
    rewrite <- (with_buf_same this) at 2. unfold with_buf. simpl. f_equal.
    apply (buffer_ext (sizet_rows this) (sizet_cols this));
      [rewrite Hlen', Hlen; exact Hwf | exact Hwf |].
    intros r c Hr Hc.
    destruct (Nat.eq_dec c a) as [-> | Hca].
    + rewrite (proj1 (Hswap' r Hr)). apply Hswap. assumption.
    + destruct (Nat.eq_dec c b) as [-> | Hcb].
      * rewrite (proj2 (Hswap' r Hr)). apply Hswap. assumption.
      * rewrite Hrest', Hrest by assumption. reflexivity.
Qed.

Lemma swap_body_cases (ia ib : matrix T -> nat -> nat) (k : nat) (m : matrix T) :
  swap_body ia ib k m = Stop UndefinedBehaviour
  \/ exists buf, swap_body ia ib k m = Done (with_buf m buf)
                 /\ length buf = length (_matrix m).
Proof.
  unfold swap_body, raw_read, raw_write.
  destruct (_matrix m !! ia m k) as [va|]; simpl; [| left; reflexivity].
  destruct (_matrix m !! ib m k) as [vb|]; simpl; [| left; reflexivity].
  destruct (Nat.ltb_spec (ia m k) (length (_matrix m))); simpl; [| left; reflexivity].
  rewrite length_insert.
  destruct (Nat.ltb_spec (ib m k) (length (_matrix m))); simpl; [| left; reflexivity].
  right. eexists. split; [reflexivity |]. rewrite !length_insert. reflexivity.
Qed.

Lemma swap_body_outside (ia ib : matrix T -> nat -> nat) (k : nat) (m : matrix T) :
  length (_matrix m) <= ia m k \/ length (_matrix m) <= ib m k ->
  swap_body ia ib k m = Stop UndefinedBehaviour.
Proof.
  intros Hout. unfold swap_body, raw_read.
  destruct (_matrix m !! ia m k) as [va|] eqn:Ha; simpl; [| reflexivity].
  destruct (_matrix m !! ib m k) as [vb|] eqn:Hb; simpl; [| reflexivity].
  apply lookup_lt_Some in Ha, Hb. lia.
Qed.

(** Neither swap checks its indices: with an index outside a non-empty
    matrix the loop is entered and reaches an element outside the buffer, in
    every build, whenever the linear indices [row + col * rows] the call
    computes stay below 2^64: for [swap_rows(a, b)] when [a + rows * cols]
    and [b + rows * cols] do, for [swap_cols(a, b)] when [(a + 1) * rows]
    and [(b + 1) * rows] do. *)
Theorem swap_outside_the_matrix (this : matrix T) (a b : nat) :
  wf this -> 1 <= sizet_rows this -> 1 <= sizet_cols this ->
  (sizet_rows this <= a \/ sizet_rows this <= b ->
   fits (a + sizet_rows this * sizet_cols this) ->
   fits (b + sizet_rows this * sizet_cols this) ->
     swap_rows this a b = Stop UndefinedBehaviour)
  /\ (sizet_cols this <= a \/ sizet_cols this <= b ->
      fits ((a + 1) * sizet_rows this) ->
      fits ((b + 1) * sizet_rows this) ->
        swap_cols this a b = Stop UndefinedBehaviour).
Proof.
  intros Hwf Hr Hc.
  set (R := sizet_rows this) in *. set (C := sizet_cols this) in *.
  assert (Hlast : (C - 1) * R + R = R * C).
  { replace C with (S (C - 1)) at 2 by lia. rewrite Nat.mul_succ_r. lia. }
  split; intros Hout _ _.
  - unfold swap_rows. fold C.
    apply (for_loop_stops
             (fun _ m => sizet_rows m = R /\ length (_matrix m) = R * C)).
    + lia.
    + split; [reflexivity | exact Hwf].
    + intros j t Hj [Ht Hlen].
      destruct (swap_body_cases (fun m k => get_lindex m a k)
                  (fun m k => get_lindex m b k) j t) as [Hstop | (buf & Hdone & Hbuf)].
      * right. exact Hstop.
      * left. eexists. split; [exact Hdone |]. simpl. split; [assumption | lia].
    + intros t [Ht Hlen].
      apply (swap_body_outside (fun m k => get_lindex m a k)
               (fun m k => get_lindex m b k)).
      unfold get_lindex. rewrite Ht, Hlen. lia.
  - assert (Ha : C <= a -> R * C <= a * R).
    { intros Hle. rewrite (Nat.mul_comm R C). apply Nat.mul_le_mono_r. assumption. }
    assert (Hb : C <= b -> R * C <= b * R).
    { intros Hle. rewrite (Nat.mul_comm R C). apply Nat.mul_le_mono_r. assumption. }
    assert (Hstop : forall j (t : matrix T),
              sizet_rows t = R /\ length (_matrix t) = R * C ->
              swap_body (fun m k => get_lindex m k a) (fun m k => get_lindex m k b) j t
              = Stop UndefinedBehaviour).
    { intros j t [Ht Hlen]. apply swap_body_outside.
      unfold get_lindex. rewrite Ht, Hlen. lia. }
    unfold swap_cols. fold R.
    apply (for_loop_stops
             (fun _ m => sizet_rows m = R /\ length (_matrix m) = R * C)).
    + lia.
    + split; [reflexivity | exact Hwf].
    + intros j t Hj Ht. right. apply Hstop. assumption.
    + intros t Ht. apply Hstop. assumption.
Qed.

End SwapTheorems.

(** * [shrink] *)

Section Shrinking.
Context {T : Type} `{Element T}.
Variable E : build T.

(** A store into a cell outside the set [W] keeps what is known of [W]. *)
Lemma put_outside_filled R C F (W : nat -> nat -> Prop) f (m : matrix T) r0 c0 v :
  filled R C F W f m -> r0 < R -> c0 < C -> ~ W r0 c0 ->
  exists m', put E m r0 c0 v = Done m' /\ filled R C F W f m'.
Proof.
  intros (Hr & Hc & Hf & Hwf & Hcells) Hr0 Hc0 Hnot.
  eexists. split.
  - apply put_in_range; [assumption | lia | lia].
  - rewrite Hr. unfold filled, wf, with_buf; simpl.
    rewrite length_insert. repeat split; try assumption.
    intros r c Hlt Hlt' Hw.
    rewrite list_lookup_insert_ne; [auto |].
    intros Heq. apply lindex_inj in Heq; [| assumption | assumption].
    destruct Heq as [-> ->]. contradiction.
Qed.

Lemma shrink_filled (this : matrix T) (er ec : nat) :
  wf this -> 1 < sizet_rows this -> 1 < sizet_cols this ->
  er < sizet_rows this -> ec < sizet_cols this ->
  exists M,
    shrink E this er ec = Done M
    /\ filled (sizet_rows this - 1) (sizet_cols this - 1)
         (fun r c => nth (skip er r + skip ec c * sizet_rows this) (_matrix this)
                         (fake_junk E))
         (fun _ _ => True) (fake_junk E) M.
Proof.
  intros Hwf HR HC Her Hec.
  set (R := sizet_rows this) in *. set (C := sizet_cols this) in *.
  set (F := fun r c => nth (skip er r + skip ec c * R) (_matrix this) (fake_junk E)).
  unfold shrink. fold R C.
  destruct (Nat.ltb_spec 1 C); [| lia]. destruct (Nat.ltb_spec 1 R); [| lia].
  destruct (Nat.ltb_spec ec C); [| lia]. destruct (Nat.ltb_spec er R); [| lia].
  cbn [andb]. rewrite !assert_true. cbn [bind].
  rewrite matrix_new_ok by lia. cbn [bind].
  unfold assign. cbn [_matrix sizet_rows sizet_cols]. rewrite length_allocate.
  assert (Hpos : 0 < (R - 1) * (C - 1)) by nia.
  destruct (Nat.ltb_spec 0 ((R - 1) * (C - 1))); [| lia].
  edestruct (for_loop_inv
    (fun row m => filled (R - 1) (C - 1) F (fun r' _ => skip er r' < row)
                    (fake_junk E) m) 0 R)
    as (M & Hrun & HM); [lia | | | exists M; split; [exact Hrun |]].
  - repeat split. + apply length_allocate. + intros r c _ _ Hlt. lia.
  - intros row m Hrow Hm.
    edestruct (for_loop_inv
      (fun col m' => filled (R - 1) (C - 1) F
         (fun r' c' => skip er r' < row \/ (skip er r' = row /\ skip ec c' < col))
         (fake_junk E) m') 0 C)
      as (m' & Hrun' & Hm'); [lia | | | exists m'; split; [exact Hrun' |]].
    + eapply filled_weaken; [| exact Hm]. simpl. intros r' c' _ _ Hor. lia.
    + intros col t Hcol Ht. simpl.
      assert (Hread : raw_read (_matrix this) (get_lindex this row col)
                      = Done (nth (row + col * R) (_matrix this) (fake_junk E))).
      { apply raw_read_Some, lookup_nth. rewrite Hwf. apply lindex_lt; lia. }
      destruct (Nat.eqb_spec col ec) as [Hce | Hce];
        destruct (Nat.eqb_spec row er) as [Hre | Hre]; simpl.
      * (* the eliminated element *)
        eexists. split; [reflexivity |].
        eapply filled_weaken; [| exact Ht]. simpl. unfold skip.
        intros r' c' _ _ Hor.
        destruct (Nat.ltb_spec r' er), (Nat.ltb_spec c' ec); lia.
      * (* the eliminated column: the value stored is replaced later *)
        destruct (Nat.ltb_spec er row), (Nat.ltb_spec ec col); try lia;
          match goal with
          | |- context [if ?g then _ else _] => destruct g eqn:Hguard
          end;
          try (rewrite Hread; simpl;
               match goal with
               | |- context [put E t ?r0 ?c0 ?v] =>
                   destruct (put_outside_filled _ _ _ _ _ t r0 c0 v Ht)
                     as (t' & Hput & Ht')
               end;
               [ apply andb_prop in Hguard; destruct Hguard as [Hg1 Hg2];
                 apply Nat.ltb_lt in Hg1; exact Hg1
               | apply andb_prop in Hguard; destruct Hguard as [Hg1 Hg2];
                 apply Nat.ltb_lt in Hg2; exact Hg2
               | cbv beta; unfold skip;
                 repeat match goal with
                        | |- context [?a <? ?b] => destruct (Nat.ltb_spec a b)
                        end; lia
               | rewrite Hput; clear Hput ]);
          eexists; (split; [reflexivity |]);
          (eapply filled_weaken; [| first [exact Ht' | exact Ht]]); simpl; unfold skip;
          intros r' c' _ _ Hor;
          destruct (Nat.ltb_spec r' er), (Nat.ltb_spec c' ec); lia.
      * (* the eliminated row: the value stored is replaced later *)
        destruct (Nat.ltb_spec er row), (Nat.ltb_spec ec col); try lia;
          match goal with
          | |- context [if ?g then _ else _] => destruct g eqn:Hguard
          end;
          try (rewrite Hread; simpl;
               match goal with
               | |- context [put E t ?r0 ?c0 ?v] =>
                   destruct (put_outside_filled _ _ _ _ _ t r0 c0 v Ht)
                     as (t' & Hput & Ht')
               end;
               [ apply andb_prop in Hguard; destruct Hguard as [Hg1 Hg2];
                 apply Nat.ltb_lt in Hg1; exact Hg1
               | apply andb_prop in Hguard; destruct Hguard as [Hg1 Hg2];
                 apply Nat.ltb_lt in Hg2; exact Hg2
               | cbv beta; unfold skip;
                 repeat match goal with
                        | |- context [?a <? ?b] => destruct (Nat.ltb_spec a b)
                        end; lia
               | rewrite Hput; clear Hput ]);
          eexists; (split; [reflexivity |]);
          (eapply filled_weaken; [| first [exact Ht' | exact Ht]]); simpl; unfold skip;
          intros r' c' _ _ Hor;
          destruct (Nat.ltb_spec r' er), (Nat.ltb_spec c' ec); lia.
      * (* an element that stays *)
        set (nr := if er <? row then row - 1 else row).
        set (nc := if ec <? col then col - 1 else col).
        assert (Hnr : nr < R - 1 /\ skip er nr = row).
        { unfold nr, skip. destruct (Nat.ltb_spec er row);
            match goal with
            | |- context [?a <? er] => destruct (Nat.ltb_spec a er)
            end; lia. }
        assert (Hnc : nc < C - 1 /\ skip ec nc = col).
        { unfold nc, skip. destruct (Nat.ltb_spec ec col);
            match goal with
            | |- context [?a <? ec] => destruct (Nat.ltb_spec a ec)
            end; lia. }
        destruct Hnr as [Hnr Hsr]. destruct Hnc as [Hnc Hsc].
        destruct (Nat.ltb_spec nr (R - 1)); [| lia].
        destruct (Nat.ltb_spec nc (C - 1)); [| lia]. simpl.
        rewrite Hread. simpl.
        destruct (put_filled E (R - 1) (C - 1) F _ (fake_junk E) t nr nc
                    (nth (row + col * R) (_matrix this) (fake_junk E)) Ht)
          as (t' & Hput & Ht'); [assumption | assumption | |].
        { unfold F. rewrite Hsr, Hsc. reflexivity. }
        exists t'. split; [exact Hput |].
        eapply filled_weaken; [| exact Ht']. simpl.
        intros r' c' Hr' Hc' Hor.
        destruct Hor as [Hlt | [Heq Hlt]]; [left; left; assumption |].
        destruct (Nat.eq_dec (skip ec c') col) as [Heqc | Hnec].
        -- right. unfold skip in *.
           repeat match goal with
                  | H : context [?a <? ?b] |- _ => destruct (Nat.ltb_spec a b)
                  end; lia.
        -- left. right. split; [assumption | lia].
    + eapply filled_weaken; [| exact Hm']. simpl. unfold skip.
      intros r' c' _ Hc' Hlt.
      destruct (Nat.ltb_spec r' er), (Nat.ltb_spec c' ec); lia.
  - eapply filled_weaken; [| exact HM]. simpl. unfold skip.
    intros r' c' Hr' _ _. destruct (Nat.ltb_spec r' er); lia.
Qed.

End Shrinking.

(** [row_and_col_extract] on row 1 and column 2 of a 2x3 matrix. *)
Lemma row_and_col_extract_witness :
  (exists r, matrix_row Examples.debug7 Examples.grid23 1 = Done r
             /\ is_row_of Examples.debug7 Examples.grid23 1 r)
  /\ (exists c, matrix_col Examples.debug7 Examples.grid23 2 = Done c
                /\ is_col_of Examples.debug7 Examples.grid23 2 c).
Proof.
  apply (row_and_col_extract Examples.debug7 Examples.grid23 1 2);
    [reflexivity | vm_compute; lia | vm_compute; lia].
Defined.

(** [row_and_col_outside] on row 5 and column 7 of a 2x3 matrix. *)
Lemma row_and_col_outside_witness :
  (sizet_rows Examples.grid23 <= 5 ->
     matrix_row Examples.debug7 Examples.grid23 5
     = Done (untouched Examples.debug7 1 (sizet_cols Examples.grid23)))
  /\ (sizet_cols Examples.grid23 <= 7 ->
        matrix_col Examples.debug7 Examples.grid23 7
        = Done (untouched Examples.debug7 (sizet_rows Examples.grid23) 1)).
Proof.
  apply (row_and_col_outside Examples.debug7 Examples.grid23 5 7); vm_compute; lia.
Defined.

(** [set_row_then_row] on row 2 of the 3x2 matrix with columns (1 2 3)
    and (4 5 6). *)
Lemma set_row_then_row_witness :
  (exists this' r,
     set_row Examples.debug7 (mk_matrix 3 2 [1; 2; 3; 4; 5; 6]%Z 0%Z) 2
             (Examples.row_vec [7; 8]%Z)
     = Done (true, this')
     /\ matrix_row Examples.debug7 this' 2 = Done r
     /\ _matrix r = take 2 [7; 8]%Z
     /\ forall i', i' < 3 -> i' <> 2 ->
          matrix_row Examples.debug7 this' i'
          = matrix_row Examples.debug7 (mk_matrix 3 2 [1; 2; 3; 4; 5; 6]%Z 0%Z) i')
  /\ (2 <= 2 ->
        set_row_self Examples.debug7 (mk_matrix 3 2 [1; 2; 3; 4; 5; 6]%Z 0%Z) 2
        = set_row Examples.debug7 (mk_matrix 3 2 [1; 2; 3; 4; 5; 6]%Z 0%Z) 2
                  (mk_matrix 3 2 [1; 2; 3; 4; 5; 6]%Z 0%Z))
  /\ (forall a b c d f : Z,
        set_row_self Examples.debug7 (mk_matrix 2 2 [a; b; c; d] f) 1
        = Done (true, mk_matrix 2 2 [a; a; c; a] f)
        /\ set_row Examples.debug7 (mk_matrix 2 2 [a; b; c; d] f) 1
                   (mk_matrix 2 2 [a; b; c; d] f)
           = Done (true, mk_matrix 2 2 [a; a; c; b] f)).
Proof.
  apply (set_row_then_row Examples.debug7 (mk_matrix 3 2 [1; 2; 3; 4; 5; 6]%Z 0%Z) 2
           (Examples.row_vec [7; 8]%Z));
    [reflexivity | vm_compute; lia | vm_compute; lia | vm_compute; lia].
Defined.

(** [set_col_then_col] on column 1 of a 2x3 matrix. *)
Lemma set_col_then_col_witness :
  exists this' c,
    set_col Examples.debug7 Examples.grid23 1 (Examples.col_vec [7; 8]%Z)
    = Done (true, this')
    /\ matrix_col Examples.debug7 this' 1 = Done c
    /\ _matrix c = take (sizet_rows Examples.grid23) [7; 8]%Z
    /\ forall j', j' < sizet_cols Examples.grid23 -> j' <> 1 ->
         matrix_col Examples.debug7 this' j'
         = matrix_col Examples.debug7 Examples.grid23 j'.
Proof.
  apply (set_col_then_col Examples.debug7 Examples.grid23 1 (Examples.col_vec [7; 8]%Z));
    [reflexivity | vm_compute; lia | vm_compute; lia | vm_compute; lia].
Defined.

(** [swap_rows_exchanges] on the two rows of a 2x3 matrix. *)
Lemma swap_rows_exchanges_witness :
  exists this',
    swap_rows Examples.grid23 0 1 = Done this'
    /\ sizet_rows this' = 2 /\ sizet_cols this' = 3
    /\ (forall c, c < 3 ->
          get Examples.debug7 this' 0 c = get Examples.debug7 Examples.grid23 1 c
          /\ get Examples.debug7 this' 1 c = get Examples.debug7 Examples.grid23 0 c)
    /\ (forall r c, r < 2 -> c < 3 -> r <> 0 -> r <> 1 ->
          get Examples.debug7 this' r c = get Examples.debug7 Examples.grid23 r c)
    /\ swap_rows this' 0 1 = Done Examples.grid23.
Proof.
  apply (swap_rows_exchanges Examples.debug7 Examples.grid23 0 1);
    [reflexivity | vm_compute; lia | vm_compute; lia].
Defined.

(** [swap_cols_exchanges] on the outer columns of a 2x3 matrix. *)
Lemma swap_cols_exchanges_witness :
  exists this',
    swap_cols Examples.grid23 0 2 = Done this'
    /\ sizet_rows this' = 2 /\ sizet_cols this' = 3
    /\ (forall r, r < 2 ->
          get Examples.debug7 this' r 0 = get Examples.debug7 Examples.grid23 r 2
          /\ get Examples.debug7 this' r 2 = get Examples.debug7 Examples.grid23 r 0)
    /\ (forall r c, r < 2 -> c < 3 -> c <> 0 -> c <> 2 ->
          get Examples.debug7 this' r c = get Examples.debug7 Examples.grid23 r c)
    /\ swap_cols this' 0 2 = Done Examples.grid23.
Proof.
  apply (swap_cols_exchanges Examples.debug7 Examples.grid23 0 2);
    [reflexivity | vm_compute; lia | vm_compute; lia].
Defined.

(** [swap_outside_the_matrix] with row 2 and column 3 of a 2x3 matrix. *)
Lemma swap_outside_the_matrix_witness :
  swap_rows Examples.grid23 2 0 = Stop UndefinedBehaviour
  /\ swap_cols Examples.grid23 2 3 = Stop UndefinedBehaviour.
Proof.
  split.
  - apply (swap_outside_the_matrix Examples.grid23 2 0);
      [reflexivity | vm_compute; lia | vm_compute; lia | left; vm_compute; lia
      | vm_compute; reflexivity | vm_compute; reflexivity].
  - apply (swap_outside_the_matrix Examples.grid23 2 3);
      [reflexivity | vm_compute; lia | vm_compute; lia | right; vm_compute; lia
      | vm_compute; reflexivity | vm_compute; reflexivity].
Defined.

Section ShrinkTheorems.
Context {T : Type} `{Element T}.
Variable E : build T.

(** [shrink(er, ec)] of a matrix with more than one row and more than one
    column returns the minor: one row and one column fewer, and the element
    at (r, c) is the receiver's element at (r, c) moved past the eliminated
    row and column. *)
Theorem shrink_is_minor (this : matrix T) (er ec : nat) :
  wf this -> 1 < sizet_rows this -> 1 < sizet_cols this ->
  er < sizet_rows this -> ec < sizet_cols this ->
  exists M,
    shrink E this er ec = Done M
    /\ sizet_rows M = sizet_rows this - 1 /\ sizet_cols M = sizet_cols this - 1
    /\ wf M
    /\ forall r c, r < sizet_rows this - 1 -> c < sizet_cols this - 1 ->
         get E M r c = get E this (skip er r) (skip ec c).
Proof.
  intros Hwf HR HC Her Hec.
  destruct (shrink_filled E this er ec Hwf HR HC Her Hec) as (M & Hrun & HM).
  exists M. split; [exact Hrun |].
  pose proof HM as (Hr & Hc & _ & HwfM & _).
  repeat split; try assumption.
  intros r c Hlt Hlt'.
  rewrite (filled_get E _ _ _ _ _ M r c HM Hlt Hlt' I).
  symmetry. apply get_in_range; [assumption | |]; unfold skip.
  - destruct (Nat.ltb_spec r er); lia.
  - destruct (Nat.ltb_spec c ec); lia.
Qed.

(** [shrink] of a matrix with a single row or column, or with an index
    outside the matrix, halts in a build with assertions and returns a copy
    of the receiver in a build without. *)
Theorem shrink_rejected (this : matrix T) (er ec : nat) :
  wf this -> 1 <= sizet_rows this -> 1 <= sizet_cols this ->
  sizet_rows this <= 1 \/ sizet_cols this <= 1
  \/ sizet_rows this <= er \/ sizet_cols this <= ec ->
  (assertions E = true -> shrink E this er ec = Stop AssertionFailed)
  /\ (assertions E = false ->
        exists M, shrink E this er ec = Done M /\ same_matrix M this).
Proof.
  intros Hwf HR HC Hbad.
  assert (Hcopy : same_matrix (copy_matrix E this) this).
  { unfold copy_matrix. rewrite Hwf.
    destruct (Nat.ltb_spec 0 (sizet_rows this * sizet_cols this)); [| nia].
    repeat split. }
  unfold shrink.
  destruct (Nat.ltb_spec 1 (sizet_cols this)) as [Hc | Hc];
    destruct (Nat.ltb_spec 1 (sizet_rows this)) as [Hr | Hr]; cbn [andb].
  - rewrite assert_true. cbn [bind]. rewrite matrix_new_ok by lia. cbn [bind].
    destruct (Nat.ltb_spec ec (sizet_cols this)) as [Hec | Hec];
      destruct (Nat.ltb_spec er (sizet_rows this)) as [Her | Her]; cbn [andb];
      try lia;
      (split; intros Hb;
       [rewrite assert_debug_false by assumption; reflexivity
       | rewrite assert_release by assumption; cbn [bind]; eauto]).
  - split; intros Hb;
      [rewrite assert_debug_false by assumption; reflexivity
      | rewrite assert_release by assumption; cbn [bind]; eauto].
  - split; intros Hb;
      [rewrite assert_debug_false by assumption; reflexivity
      | rewrite assert_release by assumption; cbn [bind]; eauto].
  - split; intros Hb;
      [rewrite assert_debug_false by assumption; reflexivity
      | rewrite assert_release by assumption; cbn [bind]; eauto].
Qed.

End ShrinkTheorems.

(** [shrink_is_minor] on the centre of a 3x3 matrix. *)
Lemma shrink_is_minor_witness :
  exists M,
    shrink Examples.debug7 Examples.grid33 1 1 = Done M
    /\ sizet_rows M = 3 - 1 /\ sizet_cols M = 3 - 1
    /\ wf M
    /\ forall r c, r < 3 - 1 -> c < 3 - 1 ->
         get Examples.debug7 M r c
         = get Examples.debug7 Examples.grid33 (skip 1 r) (skip 1 c).
Proof.
  apply (shrink_is_minor Examples.debug7 Examples.grid33 1 1);
    [reflexivity | vm_compute; lia | vm_compute; lia | vm_compute; lia | vm_compute; lia].
Defined.

(** [shrink_rejected] on a row of three elements and on row 3 of a 3x3
    matrix. *)
Lemma shrink_rejected_witness :
  ((assertions Examples.release7 = true ->
      shrink Examples.release7 (Examples.row_vec [1; 2; 3]%Z) 0 1 = Stop AssertionFailed)
   /\ (assertions Examples.release7 = false ->
         exists M, shrink Examples.release7 (Examples.row_vec [1; 2; 3]%Z) 0 1 = Done M
                   /\ same_matrix M (Examples.row_vec [1; 2; 3]%Z)))
  /\ ((assertions Examples.debug7 = true ->
         shrink Examples.debug7 Examples.grid33 3 0 = Stop AssertionFailed)
      /\ (assertions Examples.debug7 = false ->
            exists M, shrink Examples.debug7 Examples.grid33 3 0 = Done M
                      /\ same_matrix M Examples.grid33)).
Proof.
  split.
  - apply (shrink_rejected Examples.release7 (Examples.row_vec [1; 2; 3]%Z) 0 1);
      [reflexivity | vm_compute; lia | vm_compute; lia | vm_compute; lia].
  - apply (shrink_rejected Examples.debug7 Examples.grid33 3 0);
      [reflexivity | vm_compute; lia | vm_compute; lia | vm_compute; lia].
Defined.

(** * [left], [right] and [mid] *)

Section Slicing.
Context {T : Type} `{Element T}.
Variable E : build T.

Lemma tabulate_slice (buf : list T) (k n : nat) (d : T) :
  k + n <= length buf ->
  map (fun p => nth (k + p) buf d) (seq 0 n) = take n (drop k buf).
Proof.
  intros Hle. apply list_eq. intros p.
  rewrite lookup_take.
  destruct (decide (p < n)) as [Hp | Hp].
  - rewrite lookup_tabulate by assumption. rewrite lookup_drop.
    symmetry. apply lookup_nth. lia.
  - change (map ?f ?l) with (f <$> l).
    rewrite list_lookup_fmap, lookup_seq_ge by lia. reflexivity.
Qed.

Lemma slice_result_vector (this : matrix T) (n : nat) :
  is_vector this = true -> 1 <= n ->
  exists r c,
    slice_result E this n = Done (mk_matrix r c (allocate E n) (fake_junk E))
    /\ (sizet_rows this = 1 -> r = 1 /\ c = n)
    /\ (sizet_cols this = 1 -> r = n /\ c = 1).
Proof.
  intros Hv Hn. unfold slice_result.
  destruct (is_vector_cases this Hv) as [[Hr Hc] | [Hr Hc]].
  - exists 1, n. rewrite Hr.
    destruct (Nat.eqb_spec (sizet_cols this) 1); [lia |]. simpl.
    rewrite matrix_new_ok by lia. simpl. unfold assign. simpl.
    rewrite length_allocate, Nat.add_0_r.
    destruct (Nat.ltb_spec 0 n); [| lia].
    split; [reflexivity |]. split; [auto | lia].
  - exists n, 1. rewrite Hc.
    destruct (Nat.eqb_spec (sizet_rows this) 1); [lia |]. simpl.
    rewrite matrix_new_ok by lia. simpl. unfold assign. simpl.
    rewrite length_allocate, Nat.mul_1_r.
    destruct (Nat.ltb_spec 0 n); [| lia].
    split; [reflexivity |]. split; [lia | auto].
Qed.

Lemma matrix_left_run (this : matrix T) (n : nat) :
  is_vector this = true -> 1 <= n <= size this ->
  exists M, matrix_left E this n = Done M /\ is_slice this (take n (_matrix this)) M.
Proof.
  intros Hv [Hn Hle]. unfold size in Hle. unfold matrix_left, size.
  destruct (Nat.leb_spec n (length (_matrix this))); [| lia].
  rewrite assert_true. cbn [bind].
  destruct (slice_result_vector this n Hv Hn) as (r & c & Hslice & Hrow & Hcol).
  rewrite Hslice. cbn [bind].
  destruct (fill_elem_loop E
    (fun i => raw_read (_matrix this) i)
    (fun p => nth p (_matrix this) (fake_junk E)) (fun i => i)
    0 n (mk_matrix r c (allocate E n) (fake_junk E)))
    as (buf & Hrun & Hlen & Hcells & _).
  - lia.
  - simpl. rewrite length_allocate. lia.
  - intros i Hi. rewrite Nat.sub_0_r. split; [| reflexivity].
    apply raw_read_Some, lookup_nth. lia.
  - rewrite Hrun. eexists. split; [reflexivity |].
    simpl in Hlen. rewrite length_allocate in Hlen. rewrite Nat.sub_0_r in Hcells.
    assert (Hbuf : buf = take n (_matrix this)).
    { rewrite (list_tabulate_eq buf _ n Hlen Hcells).
      exact (tabulate_slice (_matrix this) 0 n (fake_junk E) ltac:(simpl; lia)). }
    assert (Hlen' : length (take n (_matrix this)) = n).
    { rewrite length_take. lia. }
    unfold is_slice, with_buf. simpl. rewrite Hbuf, Hlen'.
    split; [reflexivity |]. split; [exact Hrow | exact Hcol].
Qed.

Lemma right_index_inside (n L i : nat) :
  (Z.of_nat L < 2 ^ 64)%Z -> n <= L -> L - n < i <= L ->
  right_index n L i = i - 1 - (L - n).
Proof.
  intros Hbig Hn Hi. unfold right_index, wrap64.
  rewrite Zplus_mod_idemp_l.
  rewrite Zminus_mod_idemp_l.
  rewrite Z.mod_small by lia. lia.
Qed.

Lemma matrix_right_run (this : matrix T) (n : nat) :
  wf this -> is_vector this = true -> 1 <= n <= size this ->
  (Z.of_nat (size this) < 2 ^ 64)%Z ->
  exists M, matrix_right E this n = Done M
            /\ is_slice this (drop (size this - n) (_matrix this)) M.
Proof.
  intros Hwf Hv [Hn Hle] Hbig. unfold matrix_right.
  set (L := size this) in *.
  destruct (Nat.leb_spec n L); [| lia].
  rewrite assert_true. cbn [bind].
  destruct (Nat.ltb_spec L n); [lia |].
  destruct (Nat.eqb_spec L n) as [Heq | Hne].
  - (* the whole vector *)
    eexists. split; [reflexivity |].
    unfold copy_matrix. fold (size this). fold L.
    destruct (Nat.ltb_spec 0 L); [| lia].
    replace (L - n) with 0 by lia. rewrite drop_0.
    unfold is_slice. simpl. fold (size this). fold L.
    split; [reflexivity |]. unfold L, size. rewrite Hwf.
    split; intros Hone; rewrite Hone; lia.
  - destruct (slice_result_vector this n Hv Hn) as (r & c & Hslice & Hrow & Hcol).
    rewrite Hslice. cbn [bind].
    set (m0 := mk_matrix r c (allocate E n) (fake_junk E)).
    set (F := fun p => nth (L - n + p) (_matrix this) (fake_junk E)).
    destruct (for_loop_down_inv
      (fun i m => exists buf, m = with_buf m0 buf /\ length buf = n
         /\ forall p, i - (L - n) <= p < n -> buf !! p = Some (F p))
      L (L - n)
      (fun sizet_i mat_ret =>
         v <- raw_read (_matrix this) (sizet_i - 1) ;;
         put_elem E mat_ret (right_index n L sizet_i) v) m0)
      as (M & Hrun & buf & -> & Hlen & Hcells).
    + lia.
    + exists (allocate E n). split; [reflexivity |].
      split; [apply length_allocate |]. intros p Hp. lia.
    + intros j t Hj (buf & -> & Hlen & Hcells).
      rewrite (right_index_inside n L j) by (assumption || lia).
      rewrite (raw_read_Some (_matrix this) (j - 1)
                 (nth (j - 1) (_matrix this) (fake_junk E)))
        by (apply lookup_nth; fold (size this); fold L; lia).
      cbn [bind]. rewrite put_elem_in_range by (simpl; lia).
      eexists. split; [reflexivity |].
      exists (<[j - 1 - (L - n) := nth (j - 1) (_matrix this) (fake_junk E)]> buf).
      split; [reflexivity |]. split; [rewrite length_insert; assumption |].
      intros p Hp.
      destruct (Nat.eq_dec p (j - 1 - (L - n))) as [-> | Hneq].
      * rewrite list_lookup_insert_eq by lia. unfold F. do 2 f_equal. lia.
      * rewrite list_lookup_insert_ne by lia. apply Hcells. lia.
    + rewrite Hrun. eexists. split; [reflexivity |].
      assert (Hbuf : buf = drop (L - n) (_matrix this)).
      { rewrite (list_tabulate_eq buf F n Hlen) by (intros p Hp; apply Hcells; lia).
        unfold F. rewrite tabulate_slice by (fold (size this); fold L; lia).
        apply take_ge. rewrite length_drop. fold (size this). fold L. lia. }
      assert (Hlen' : length (drop (L - n) (_matrix this)) = n).
      { rewrite length_drop. fold (size this). fold L. lia. }
      unfold is_slice, with_buf, m0. simpl. rewrite Hbuf, Hlen'.
      split; [reflexivity |]. split; [exact Hrow | exact Hcol].
Qed.

Lemma matrix_mid_run (this : matrix T) (b e : nat) :
  is_vector this = true -> b < e -> e < size this ->
  exists M, matrix_mid E this b e = Done M
            /\ is_slice this (take (e - b + 1) (drop b (_matrix this))) M.
Proof.
  intros Hv Hbe He. unfold matrix_mid.
  destruct (Nat.ltb_spec b (size this)); [| lia].
  destruct (Nat.ltb_spec e (size this)); [| lia].
  destruct (Nat.ltb_spec b e); [| lia].
  cbn [andb]. rewrite assert_true. cbn [bind].
  destruct (slice_result_vector this (e - b + 1) Hv) as (r & c & Hslice & Hrow & Hcol);
    [lia |].
  rewrite Hslice. cbn [bind].
  destruct (fill_elem_loop E
    (fun i => raw_read (_matrix this) i)
    (fun p => nth (b + p) (_matrix this) (fake_junk E)) (fun i => i - b)
    b (e + 1) (mk_matrix r c (allocate E (e - b + 1)) (fake_junk E)))
    as (buf & Hrun & Hlen & Hcells & _).
  - lia.
  - simpl. rewrite length_allocate. lia.
  - intros i Hi. split; [| reflexivity].
    replace (b + (i - b)) with i by lia.
    apply raw_read_Some, lookup_nth. unfold size in *. lia.
  - rewrite Hrun. eexists. split; [reflexivity |].
    simpl in Hlen. rewrite length_allocate in Hlen.
    replace (e + 1 - b) with (e - b + 1) in Hcells by lia.
    assert (Hbuf : buf = take (e - b + 1) (drop b (_matrix this))).
    { rewrite (list_tabulate_eq buf _ (e - b + 1) Hlen Hcells).
      apply tabulate_slice. unfold size in *. lia. }
    assert (Hlen' : length (take (e - b + 1) (drop b (_matrix this))) = e - b + 1).
    { rewrite length_take, length_drop. unfold size in *. lia. }
    unfold is_slice, with_buf. simpl. rewrite Hbuf, Hlen'.
    split; [reflexivity |]. split; [exact Hrow | exact Hcol].
Qed.

End Slicing.

Section SliceTheorems.
Context {T : Type} `{Element T}.
Variable E : build T.

(** For a vector of fewer than 2^64 elements and [1 <= n < size]: [left(n)]
    returns its first [n] elements and [right(size - n)] the remaining
    ones, each in the orientation of the vector; together they are the
    vector. *)
Theorem left_right_split (this : matrix T) (n : nat) :
  wf this -> is_vector this = true -> 1 <= n -> n < size this ->
  (Z.of_nat (size this) < 2 ^ 64)%Z ->
  exists l r,
    matrix_left E this n = Done l
    /\ matrix_right E this (size this - n) = Done r
    /\ is_slice this (take n (_matrix this)) l
    /\ is_slice this (drop n (_matrix this)) r
    /\ _matrix l ++ _matrix r = _matrix this.
Proof.
  intros Hwf Hv Hn Hlt Hbig.
  destruct (matrix_left_run E this n Hv) as (l & Hl & Hsl); [lia |].
  destruct (matrix_right_run E this (size this - n) Hwf Hv) as (r & Hr & Hsr);
    [lia | assumption |].
  replace (size this - (size this - n)) with n in Hsr by lia.
  exists l, r. repeat (split; [assumption |]).
  destruct Hsl as [-> _]. destruct Hsr as [-> _]. apply take_drop.
Qed.

(** [mid(b, e)] of a vector, for [b < e] inside it, returns the elements at
    the indices [b] to [e], both included, in the orientation of the
    vector. *)
Theorem mid_takes_range (this : matrix T) (b e : nat) :
  is_vector this = true -> b < e -> e < size this ->
  exists M,
    matrix_mid E this b e = Done M
    /\ is_slice this (take (e - b + 1) (drop b (_matrix this))) M
    /\ size M = e - b + 1
    /\ forall p, p <= e - b -> get_elem E M p = get_elem E this (b + p).
Proof.
  intros Hv Hbe He.
  destruct (matrix_mid_run E this b e Hv Hbe He) as (M & Hrun & Hs).
  exists M. split; [assumption |]. split; [assumption |].
  destruct Hs as [Hbuf _].
  assert (Hlen : size M = e - b + 1).
  { unfold size in *. rewrite Hbuf, length_take, length_drop. lia. }
  split; [assumption |]. intros p Hp.
  rewrite (get_elem_in_range E M p (fake_junk E)) by (fold (size M); lia).
  rewrite (get_elem_in_range E this (b + p) (fake_junk E)) by (unfold size in *; lia).
  f_equal. rewrite !nth_lookup, Hbuf.
  rewrite lookup_take. destruct (decide (p < e - b + 1)); [| lia].
  rewrite lookup_drop. reflexivity.
Qed.

(** [mid(b, e)] with [e <= b], the one-element range [mid(b, b)] included,
    or with an index outside the receiver, halts in a build with assertions
    and returns the empty matrix in a build without. *)
Theorem mid_rejected (this : matrix T) (b e : nat) :
  e <= b \/ size this <= e ->
  (assertions E = true -> matrix_mid E this b e = Stop AssertionFailed)
  /\ (assertions E = false -> matrix_mid E this b e = Done (matrix_empty E)).
Proof.
  intros Hbad. unfold matrix_mid.
  assert (Hok : (b <? size this) && (e <? size this) && (b <? e) = false).
  { destruct (Nat.ltb_spec b (size this)), (Nat.ltb_spec e (size this)),
      (Nat.ltb_spec b e); simpl; try reflexivity; lia. }
  rewrite Hok. split; intros Hb.
  - rewrite assert_debug_false by assumption. reflexivity.
  - rewrite assert_release by assumption. reflexivity.
Qed.

Lemma put_elem_nowhere (m : matrix T) (i : nat) (v : T) :
  assertions E = false -> is_empty m ->
  exists m', put_elem E m i v = Done m' /\ is_empty m'.
Proof.
  intros Hrel (Hr & Hc & Hbuf). unfold put_elem, ref_elem, non_null, size.
  rewrite !assert_release by assumption. rewrite Hbuf. simpl.
  eexists. split; [reflexivity |]. repeat split; assumption.
Qed.

Lemma not_vector_cases (this : matrix T) :
  wf this -> 1 <= size this -> is_vector this = false ->
  (sizet_rows this = 1 /\ sizet_cols this = 1 /\ size this = 1)
  \/ (sizet_rows this <> 1 /\ sizet_cols this <> 1).
Proof.
  unfold wf, size, is_vector. intros Hwf Hsz.
  destruct (Nat.eqb_spec (sizet_rows this) 1) as [Hr | Hr],
           (Nat.eqb_spec (sizet_cols this) 1) as [Hc | Hc],
           (Nat.ltb_spec 1 (sizet_rows this)), (Nat.ltb_spec 1 (sizet_cols this));
    simpl; intros Hv; try discriminate; nia.
Qed.

(** [left(n)], [n >= 1], of a matrix that is not a vector (a 1x1 matrix is
    none) or with [n] above the number of elements, and [right(n)],
    [n >= 1], of a matrix that is not a vector with [n] below the number of
    elements or of any matrix with [n] above it: a build with assertions
    halts and a build without returns the empty matrix.  [right(n)] with [n]
    the number of elements returns a copy of the receiver, whatever its
    shape. *)
Theorem slice_rejected (this : matrix T) (n : nat) :
  wf this -> 1 <= n ->
  (is_vector this = false \/ size this < n ->
     (assertions E = true -> matrix_left E this n = Stop AssertionFailed)
     /\ (assertions E = false ->
           exists M, matrix_left E this n = Done M /\ is_empty M))
  /\ ((is_vector this = false /\ n < size this) \/ size this < n ->
        (assertions E = true -> matrix_right E this n = Stop AssertionFailed)
        /\ (assertions E = false ->
              exists M, matrix_right E this n = Done M /\ is_empty M))
  /\ (n = size this -> matrix_right E this n = Done (copy_matrix E this)).
Proof.
  intros Hwf Hn.
  assert (Hnil : is_empty (matrix_empty E)) by (repeat split).
  split; [| split]; [| | intros ->; unfold matrix_right;
    rewrite Nat.leb_refl, assert_true, Nat.ltb_irrefl, Nat.eqb_refl; reflexivity];
    intros Hbad.
  - unfold matrix_left.
    destruct (Nat.leb_spec n (size this)) as [Hle | Hgt].
    + destruct Hbad as [Hv | Hlong]; [| lia].
      rewrite assert_true. cbn [bind]. unfold slice_result.
      destruct (not_vector_cases this Hwf ltac:(lia) Hv)
        as [(Hr & Hc & Hsz) | (Hr & Hc)].
      * (* a 1x1 receiver: the result stays empty and is written to *)
        rewrite Hr, Hc. simpl. replace n with 1 by lia.
        unfold for_loop. simpl.
        rewrite (raw_read_Some (_matrix this) 0 (nth 0 (_matrix this) (fake_junk E)))
          by (apply lookup_nth; unfold size in *; lia).
        cbn [bind]. split; intros Hb.
        -- unfold put_elem, ref_elem, non_null. simpl.
           rewrite assert_debug_false by assumption. reflexivity.
        -- destruct (put_elem_nowhere (matrix_empty E) 0
                       (nth 0 (_matrix this) (fake_junk E)) Hb Hnil) as (m' & -> & Hm').
           exists m'. split; [reflexivity | assumption].
      * destruct (Nat.eqb_spec (sizet_rows this) 1); [contradiction |].
        destruct (Nat.eqb_spec (sizet_cols this) 1); [contradiction |]. simpl.
        split; intros Hb.
        -- rewrite assert_debug_false by assumption. reflexivity.
        -- rewrite assert_release by assumption. cbn [bind].
           apply (for_loop_inv (fun _ m => is_empty m)); [lia | assumption |].
           intros j t Hj Ht.
           rewrite (raw_read_Some (_matrix this) j (nth j (_matrix this) (fake_junk E)))
             by (apply lookup_nth; unfold size in *; lia).
           cbn [bind]. apply put_elem_nowhere; assumption.
    + split; intros Hb.
      * rewrite assert_debug_false by assumption. reflexivity.
      * rewrite assert_release by assumption. cbn [bind]. eauto.
  - unfold matrix_right.
    destruct (Nat.leb_spec n (size this)) as [Hle | Hgt].
    + destruct Hbad as [[Hv Hlt] | Hlong]; [| lia].
      rewrite assert_true. cbn [bind].
      destruct (Nat.ltb_spec (size this) n); [lia |].
      destruct (Nat.eqb_spec (size this) n); [lia |].
      unfold slice_result.
      destruct (not_vector_cases this Hwf ltac:(lia) Hv)
        as [(Hr & Hc & Hsz) | (Hr & Hc)]; [lia |].
      destruct (Nat.eqb_spec (sizet_rows this) 1); [contradiction |].
      destruct (Nat.eqb_spec (sizet_cols this) 1); [contradiction |]. simpl.
      split; intros Hb.
      * rewrite assert_debug_false by assumption. reflexivity.
      * rewrite assert_release by assumption. cbn [bind].
        apply (for_loop_down_inv (fun _ m => is_empty m)); [lia | assumption |].
        intros j t Hj Ht.
        rewrite (raw_read_Some (_matrix this) (j - 1)
                   (nth (j - 1) (_matrix this) (fake_junk E)))
          by (apply lookup_nth; unfold size in *; lia).
        cbn [bind]. apply put_elem_nowhere; assumption.
    + split; intros Hb.
      * rewrite assert_debug_false by assumption. reflexivity.
      * rewrite assert_release by assumption. cbn [bind].
        destruct (Nat.ltb_spec (size this) n); [| lia]. eauto.
Qed.

(** [left(0)] and [right(0)] of a vector are not empty: a build with
    assertions halts, and a build without returns a 1x1 matrix that nothing
    has written to. *)
Theorem slice_of_no_elements (this : matrix T) :
  is_vector this = true -> 1 <= size this ->
  (assertions E = true ->
     matrix_left E this 0 = Stop AssertionFailed
     /\ matrix_right E this 0 = Stop AssertionFailed)
  /\ (assertions E = false ->
        matrix_left E this 0 = Done (untouched E 1 1)
        /\ matrix_right E this 0 = Done (untouched E 1 1)).
Proof.
  intros Hv Hsz.
  assert (Hslice : slice_result E this 0
                   = (tmp <- matrix_new E 1 0 ;; Done (assign (matrix_empty E) tmp))
                   \/ slice_result E this 0
                      = (tmp <- matrix_new E 0 1 ;; Done (assign (matrix_empty E) tmp))).
  { unfold slice_result.
    destruct (is_vector_cases this Hv) as [[Hr Hc] | [Hr Hc]].
    - left. rewrite Hr. destruct (Nat.eqb_spec (sizet_cols this) 1); [lia |]. reflexivity.
    - right. rewrite Hc. destruct (Nat.eqb_spec (sizet_rows this) 1); [lia |]. reflexivity. }
  unfold matrix_left, matrix_right.
  destruct (Nat.ltb_spec (size this) 0); [lia |].
  destruct (Nat.eqb_spec (size this) 0); [lia |].
  change (0 <=? size this) with true. rewrite assert_true. cbn [bind].
  unfold for_loop_down, for_loop.
  replace (size this - (size this - 0)) with 0 by lia. cbn [iterate_down iterate Nat.sub].
  split; intros Hb; destruct Hslice as [-> | ->]; unfold matrix_new; simpl;
    first [ rewrite assert_debug_false by assumption; split; reflexivity
          | rewrite assert_release by assumption; split; reflexivity ].
Qed.

End SliceTheorems.

(** [left_right_split] of a row of five elements after the second. *)
Lemma left_right_split_witness :
  exists l r,
    matrix_left Examples.debug7 (Examples.row_vec [1; 2; 3; 4; 5]%Z) 2 = Done l
    /\ matrix_right Examples.debug7 (Examples.row_vec [1; 2; 3; 4; 5]%Z)
         (size (Examples.row_vec [1; 2; 3; 4; 5]%Z) - 2) = Done r
    /\ is_slice (Examples.row_vec [1; 2; 3; 4; 5]%Z)
         (take 2 (_matrix (Examples.row_vec [1; 2; 3; 4; 5]%Z))) l
    /\ is_slice (Examples.row_vec [1; 2; 3; 4; 5]%Z)
         (drop 2 (_matrix (Examples.row_vec [1; 2; 3; 4; 5]%Z))) r
    /\ _matrix l ++ _matrix r = _matrix (Examples.row_vec [1; 2; 3; 4; 5]%Z).
Proof.
  apply (left_right_split Examples.debug7 (Examples.row_vec [1; 2; 3; 4; 5]%Z) 2);
    [reflexivity | reflexivity | lia | vm_compute; lia | vm_compute; reflexivity].
Defined.

(** [mid_takes_range] on the indices 1 to 3 of a column of five elements. *)
Lemma mid_takes_range_witness :
  exists M,
    matrix_mid Examples.debug7 (Examples.col_vec [1; 2; 3; 4; 5]%Z) 1 3 = Done M
    /\ is_slice (Examples.col_vec [1; 2; 3; 4; 5]%Z)
         (take (3 - 1 + 1) (drop 1 (_matrix (Examples.col_vec [1; 2; 3; 4; 5]%Z)))) M
    /\ size M = 3 - 1 + 1
    /\ forall p, p <= 3 - 1 ->
         get_elem Examples.debug7 M p
         = get_elem Examples.debug7 (Examples.col_vec [1; 2; 3; 4; 5]%Z) (1 + p).
Proof.
  apply (mid_takes_range Examples.debug7 (Examples.col_vec [1; 2; 3; 4; 5]%Z) 1 3);
    [reflexivity | lia | vm_compute; lia].
Defined.

(** [mid_rejected] on the one-element range [mid(1, 1)]. *)
Lemma mid_rejected_witness :
  (assertions Examples.release7 = true ->
     matrix_mid Examples.release7 (Examples.row_vec [1; 2; 3]%Z) 1 1 = Stop AssertionFailed)
  /\ (assertions Examples.release7 = false ->
        matrix_mid Examples.release7 (Examples.row_vec [1; 2; 3]%Z) 1 1
        = Done (matrix_empty Examples.release7)).
Proof.
  apply (mid_rejected Examples.release7 (Examples.row_vec [1; 2; 3]%Z) 1 1). left. lia.
Defined.

(** [slice_rejected] on two elements of a 2x3 matrix. *)
Lemma slice_rejected_witness :
  (is_vector Examples.grid23 = false \/ size Examples.grid23 < 2 ->
     (assertions Examples.release7 = true ->
        matrix_left Examples.release7 Examples.grid23 2 = Stop AssertionFailed)
     /\ (assertions Examples.release7 = false ->
           exists M, matrix_left Examples.release7 Examples.grid23 2 = Done M
                     /\ is_empty M))
  /\ ((is_vector Examples.grid23 = false /\ 2 < size Examples.grid23)
      \/ size Examples.grid23 < 2 ->
        (assertions Examples.release7 = true ->
           matrix_right Examples.release7 Examples.grid23 2 = Stop AssertionFailed)
        /\ (assertions Examples.release7 = false ->
              exists M, matrix_right Examples.release7 Examples.grid23 2 = Done M
                        /\ is_empty M))
  /\ (2 = size Examples.grid23 ->
        matrix_right Examples.release7 Examples.grid23 2
        = Done (copy_matrix Examples.release7 Examples.grid23)).
Proof.
  apply (slice_rejected Examples.release7 Examples.grid23 2); [reflexivity | lia].
Defined.

(** [slice_of_no_elements] on a row of three elements. *)
Lemma slice_of_no_elements_witness :
  (assertions Examples.release7 = true ->
     matrix_left Examples.release7 (Examples.row_vec [1; 2; 3]%Z) 0 = Stop AssertionFailed
     /\ matrix_right Examples.release7 (Examples.row_vec [1; 2; 3]%Z) 0
        = Stop AssertionFailed)
  /\ (assertions Examples.release7 = false ->
        matrix_left Examples.release7 (Examples.row_vec [1; 2; 3]%Z) 0
        = Done (untouched Examples.release7 1 1)
        /\ matrix_right Examples.release7 (Examples.row_vec [1; 2; 3]%Z) 0
           = Done (untouched Examples.release7 1 1)).
Proof.
  apply (slice_of_no_elements Examples.release7 (Examples.row_vec [1; 2; 3]%Z));
    [reflexivity | vm_compute; lia].
Defined.

(** * The arithmetic operators on equal shapes *)

Section Elementwise.
Context {T : Type} `{Element T}.
Variable E : build T.

(** A loop whose pass [i] stores [F i] at the linear index [i] of the
    buffer, having read at most the elements from [i] on. *)
Lemma write_loop (body : nat -> matrix T -> result (matrix T)) (F : nat -> T)
    (n : nat) (m0 : matrix T) :
  n <= length (_matrix m0) ->
  (forall i buf, i < n -> length buf = length (_matrix m0) ->
     (forall p, i <= p -> buf !! p = _matrix m0 !! p) ->
     body i (with_buf m0 buf) = Done (with_buf m0 (<[i := F i]> buf))) ->
  exists buf,
    for_loop 0 n body m0 = Done (with_buf m0 buf)
    /\ length buf = length (_matrix m0)
    /\ (forall p, p < n -> buf !! p = Some (F p))
    /\ (forall p, n <= p -> buf !! p = _matrix m0 !! p).
Proof.
  intros Hroom Hbody.
  destruct (for_loop_inv
    (fun i m => exists buf, m = with_buf m0 buf
       /\ length buf = length (_matrix m0)
       /\ (forall p, p < i -> buf !! p = Some (F p))
       /\ (forall p, i <= p -> buf !! p = _matrix m0 !! p))
    0 n body m0) as (m & Hrun & buf & -> & Hlen & Hdone & Hrest).
  - lia.
  - exists (_matrix m0). split; [destruct m0; reflexivity |].
    split; [reflexivity |]. split; [intros; lia | reflexivity].
  - intros i t Hi (buf & -> & Hlen & Hdone & Hrest).
    rewrite (Hbody i buf) by (assumption || lia).
    eexists. split; [reflexivity |].
    exists (<[i := F i]> buf). split; [reflexivity |].
    split; [rewrite length_insert; assumption |]. split.
    + intros p Hp. destruct (Nat.eq_dec p i) as [-> | Hne].
      * apply list_lookup_insert_eq. lia.
      * rewrite list_lookup_insert_ne by lia. apply Hdone. lia.
    + intros p Hp. rewrite list_lookup_insert_ne by lia. apply Hrest. lia.
  - exists buf. auto.
Qed.

Lemma tabulate_zip_with (op : T -> T -> T) (l r : list T) (d : T) (n : nat) :
  length l = n -> length r = n ->
  map (fun p => op (nth p l d) (nth p r d)) (seq 0 n) = zip_with op l r.
Proof.
  intros Hl Hr. apply list_eq. intros p. rewrite lookup_zip_with.
  destruct (Nat.lt_ge_cases p n) as [Hlt | Hge].
  - rewrite lookup_tabulate by assumption.
    rewrite (lookup_nth l p d), (lookup_nth r p d) by lia. reflexivity.
  - change (map ?f ?s) with (f <$> s).
    rewrite list_lookup_fmap, lookup_seq_ge by assumption.
    rewrite (proj2 (lookup_ge_None l p)) by lia. reflexivity.
Qed.

Lemma tabulate_map (f : T -> T) (l : list T) (d : T) (n : nat) :
  length l = n -> map (fun p => f (nth p l d)) (seq 0 n) = map f l.
Proof.
  intros Hl. apply list_eq. intros p.
  destruct (Nat.lt_ge_cases p n) as [Hlt | Hge].
  - rewrite lookup_tabulate by assumption.
    change (map f l) with (f <$> l). rewrite list_lookup_fmap.
    rewrite (lookup_nth l p d) by lia. reflexivity.
  - change (map ?g ?s) with (g <$> s).
    rewrite !list_lookup_fmap, lookup_seq_ge by assumption.
    rewrite (proj2 (lookup_ge_None l p)) by lia. reflexivity.
Qed.

Lemma zip_loop_run (op : T -> T -> T) (a b m0 : matrix T) (n : nat) :
  length (_matrix a) = n -> length (_matrix b) = n -> length (_matrix m0) = n ->
  zip_loop (fun l r => Done (op l r)) n a b m0
  = Done (with_buf m0 (zip_with op (_matrix a) (_matrix b))).
Proof using E.
  intros Ha Hb Hm. unfold zip_loop.
  destruct (write_loop
    (fun sizet_index ret =>
       l <- raw_read (_matrix a) sizet_index ;;
       r <- raw_read (_matrix b) sizet_index ;;
       v <- Done (op l r) ;;
       buf <- raw_write (_matrix ret) sizet_index v ;;
       Done (with_buf ret buf))
    (fun p => op (nth p (_matrix a) (fake_junk E)) (nth p (_matrix b) (fake_junk E)))
    n m0) as (buf & Hrun & Hlen & Hcells & _).
  - lia.
  - intros i buf Hi Hlen _.
    rewrite (raw_read_Some _ i (nth i (_matrix a) (fake_junk E)))
      by (apply lookup_nth; lia).
    rewrite (raw_read_Some _ i (nth i (_matrix b) (fake_junk E)))
      by (apply lookup_nth; lia).
    unfold with_buf. simpl. rewrite raw_write_lt by lia. reflexivity.
  - rewrite Hrun. do 2 f_equal.
    rewrite (list_tabulate_eq buf _ n ltac:(lia) Hcells).
    apply tabulate_zip_with; assumption.
Qed.

Lemma map_loop_run (f : T -> T) (a : matrix T) :
  wf a -> 1 <= sizet_rows a -> 1 <= sizet_cols a ->
  map_loop E (fun x => Done (f x)) a
  = Done (mk_matrix (sizet_rows a) (sizet_cols a) (map f (_matrix a)) (fake_junk E)).
Proof.
  intros Hwf Hr Hc. unfold map_loop, matrix_of_shape, shape. simpl.
  rewrite matrix_new_ok by assumption. cbn [bind].
  set (n := sizet_rows a * sizet_cols a).
  assert (Hn : size a = n) by exact Hwf. rewrite Hn. unfold size in Hn.
  set (m0 := mk_matrix (sizet_rows a) (sizet_cols a) (allocate E n) (fake_junk E)).
  destruct (write_loop
    (fun sizet_index ret =>
       x <- raw_read (_matrix a) sizet_index ;;
       v <- Done (f x) ;;
       buf <- raw_write (_matrix ret) sizet_index v ;;
       Done (with_buf ret buf))
    (fun p => f (nth p (_matrix a) (fake_junk E)))
    n m0) as (buf & Hrun & Hlen & Hcells & _).
  - simpl. rewrite length_allocate. lia.
  - intros i buf Hi Hlen _. simpl in Hlen. rewrite length_allocate in Hlen.
    rewrite (raw_read_Some _ i (nth i (_matrix a) (fake_junk E)))
      by (apply lookup_nth; lia).
    unfold with_buf. simpl. rewrite raw_write_lt by lia. reflexivity.
  - transitivity (Done (with_buf m0 buf)); [exact Hrun |].
    unfold with_buf, m0. simpl. f_equal. f_equal.
    simpl in Hlen. rewrite length_allocate in Hlen.
    rewrite (list_tabulate_eq buf _ n Hlen Hcells).
    apply tabulate_map. assumption.
Qed.

Lemma assign_loop_run (op : T -> T -> T) (this arg : matrix T) :
  wf this -> wf arg -> 1 <= sizet_rows this -> 1 <= sizet_cols this ->
  same_shape arg this = true ->
  assign_loop E op this arg
  = Done (with_buf this (zip_with op (_matrix this) (_matrix arg))).
Proof.
  intros Hwf Hwf' Hr Hc Hsame. unfold assign_loop. rewrite Hsame.
  pose proof Hsame as Hshape. unfold same_shape in Hshape.
  apply andb_prop in Hshape. destruct Hshape as [Hr' Hc'].
  apply Nat.eqb_eq in Hr', Hc'.
  set (n := sizet_rows this * sizet_cols this).
  assert (Hn : length (_matrix this) = n) by exact Hwf.
  assert (Hn' : length (_matrix arg) = n) by (unfold n; rewrite <- Hr', <- Hc'; exact Hwf').
  assert (Hpos : 0 < n) by (unfold n; nia).
  unfold non_null, size. rewrite Hn.
  destruct (Nat.ltb_spec 0 n); [| lia].
  rewrite !assert_true. cbn [bind andb].
  destruct (write_loop
    (fun sizet_index m =>
       x <- raw_read (_matrix m) sizet_index ;;
       y <- raw_read (_matrix arg) sizet_index ;;
       buf <- raw_write (_matrix m) sizet_index (op x y) ;;
       Done (with_buf m buf))
    (fun p => op (nth p (_matrix this) (fake_junk E)) (nth p (_matrix arg) (fake_junk E)))
    n this) as (buf & Hrun & Hlen & Hcells & _).
  - lia.
  - intros i buf Hi Hlen Hrest. unfold with_buf. simpl.
    rewrite (raw_read_Some buf i (nth i (_matrix this) (fake_junk E)))
      by (rewrite Hrest by lia; apply lookup_nth; lia).
    rewrite (raw_read_Some _ i (nth i (_matrix arg) (fake_junk E)))
      by (apply lookup_nth; lia).
    unfold with_buf. simpl. rewrite raw_write_lt by lia. reflexivity.
  - rewrite Hrun. do 2 f_equal.
    rewrite (list_tabulate_eq buf _ n ltac:(lia) Hcells).
    apply tabulate_zip_with; assumption.
Qed.

Lemma operators_run (a b : matrix T) :
  wf a -> wf b -> 1 <= sizet_rows a -> 1 <= sizet_cols a -> same_shape a b = true ->
  op_add E a b
  = Done (mk_matrix (sizet_rows a) (sizet_cols a)
            (zip_with T_add (_matrix a) (_matrix b)) (fake_junk E))
  /\ op_sub E a b
     = Done (mk_matrix (sizet_rows a) (sizet_cols a)
               (zip_with T_sub (_matrix a) (_matrix b)) (fake_junk E))
  /\ op_mul E a b
     = Done (mk_matrix (sizet_rows a) (sizet_cols a)
               (zip_with T_mul (_matrix a) (_matrix b)) (fake_junk E)).
Proof.
  intros Hwf Hwf' Hr Hc Hsame.
  pose proof Hsame as Hshape. unfold same_shape in Hshape.
  apply andb_prop in Hshape. destruct Hshape as [Hr' Hc'].
  apply Nat.eqb_eq in Hr', Hc'.
  set (n := sizet_rows a * sizet_cols a).
  assert (Hn : length (_matrix a) = n) by exact Hwf.
  assert (Hn' : length (_matrix b) = n) by (unfold n; rewrite Hr', Hc'; exact Hwf').
  assert (Hzip : forall op,
            zip_objects E (fun l r => Done (op l r)) a b
            = Done (mk_matrix (sizet_rows a) (sizet_cols a)
                      (zip_with op (_matrix a) (_matrix b)) (fake_junk E))).
  { intros op. unfold zip_objects, matrix_of_shape, shape. simpl.
    rewrite matrix_new_ok by assumption. cbn [bind]. rewrite Hsame.
    rewrite assert_true. cbn [bind]. unfold size. rewrite Hn.
    rewrite (zip_loop_run op a b _ n) by (assumption || apply length_allocate).
    reflexivity. }
  split; [| split; apply Hzip].
  unfold op_add. rewrite matrix_new_ok by assumption. cbn [bind]. rewrite Hsame.
  rewrite assert_true. cbn [bind]. fold n.
  rewrite (zip_loop_run T_add a b _ n) by (assumption || apply length_allocate).
  reflexivity.
Qed.

End Elementwise.

Section ElementwiseTheorems.
Context {T : Type} `{Element T}.
Variable E : build T.

(** On two well-formed matrices of the same shape, with at least one row
    and one column, [operator+], [operator-] and [operator*] return a matrix
    of that shape whose element at (r, c) is the sum, the difference and the
    product of the operands' elements at (r, c): [operator*] is the
    element-wise product. *)
Theorem elementwise_operators (a b : matrix T) :
  wf a -> wf b -> 1 <= sizet_rows a -> 1 <= sizet_cols a -> same_shape a b = true ->
  exists s d p,
    op_add E a b = Done s /\ op_sub E a b = Done d /\ op_mul E a b = Done p
    /\ shape s = shape a /\ shape d = shape a /\ shape p = shape a
    /\ forall r c, r < sizet_rows a -> c < sizet_cols a ->
         exists x y,
           get E a r c = Done x /\ get E b r c = Done y
           /\ get E s r c = Done (T_add x y)
           /\ get E d r c = Done (T_sub x y)
           /\ get E p r c = Done (T_mul x y).
Proof.
  intros Hwf Hwf' Hr Hc Hsame.
  destruct (operators_run E a b Hwf Hwf' Hr Hc Hsame) as (Hadd & Hsub & Hmul).
  do 3 eexists. split; [exact Hadd |]. split; [exact Hsub |]. split; [exact Hmul |].
  do 3 (split; [reflexivity |]).
  intros r c Hlt Hlt'.
  unfold same_shape in Hsame. apply andb_prop in Hsame. destruct Hsame as [Hr' Hc'].
  apply Nat.eqb_eq in Hr', Hc'.
  pose proof (lindex_lt _ _ _ _ Hlt Hlt') as Hidx.
  exists (nth (r + c * sizet_rows a) (_matrix a) (fake_junk E)),
         (nth (r + c * sizet_rows a) (_matrix b) (fake_junk E)).
  assert (Ha : _matrix a !! (r + c * sizet_rows a)
               = Some (nth (r + c * sizet_rows a) (_matrix a) (fake_junk E))).
  { apply lookup_nth. rewrite Hwf. assumption. }
  assert (Hb : _matrix b !! (r + c * sizet_rows a)
               = Some (nth (r + c * sizet_rows a) (_matrix b) (fake_junk E))).
  { apply lookup_nth. rewrite Hwf', <- Hr', <- Hc'. assumption. }
  split; [apply get_Some; assumption |].
  split; [apply get_Some; rewrite <- ?Hr', <- ?Hc'; assumption |].
  repeat split; (apply get_Some; [assumption | assumption |]); simpl;
    rewrite lookup_zip_with, Ha, Hb; reflexivity.
Qed.

(** On a well-formed matrix with at least one row and one column the
    matrix-scalar operators keep the shape and act on every element:
    [M + s] and [s + M] both give [x + s], [M - s] gives [x - s], [s - M]
    gives [s - x], [M * s] gives [x * s] and [s * M] gives [s * x]. *)
Theorem scalar_operators (a : matrix T) (s : T) :
  wf a -> 1 <= sizet_rows a -> 1 <= sizet_cols a ->
  let result_of f :=
    Done (mk_matrix (sizet_rows a) (sizet_cols a) (map f (_matrix a)) (fake_junk E)) in
  op_add_scalar E a s = result_of (fun x => T_add x s)
  /\ scalar_add E s a = result_of (fun x => T_add x s)
  /\ op_sub_scalar E a s = result_of (fun x => T_sub x s)
  /\ scalar_sub E s a = result_of (fun x => T_sub s x)
  /\ op_mul_scalar E a s = result_of (fun x => T_mul x s)
  /\ scalar_mul E s a = result_of (fun x => T_mul s x).
Proof.
  intros Hwf Hr Hc. simpl.
  repeat split; apply (map_loop_run E); assumption.
Qed.

(** [a += b] and [a -= b] on well-formed operands of equal shape, with at
    least one row and one column, leave in [a] what [a + b] and [a - b]
    return. *)
Theorem compound_assignment (a b : matrix T) :
  wf a -> wf b -> 1 <= sizet_rows a -> 1 <= sizet_cols a -> same_shape a b = true ->
  exists a1 a2 s d,
    op_add_assign E a b = Done a1 /\ op_add E a b = Done s /\ same_matrix a1 s
    /\ op_sub_assign E a b = Done a2 /\ op_sub E a b = Done d /\ same_matrix a2 d.
Proof.
  intros Hwf Hwf' Hr Hc Hsame.
  assert (Hsame' : same_shape b a = true).
  { unfold same_shape in *. apply andb_prop in Hsame. destruct Hsame as [Hr' Hc'].
    apply Nat.eqb_eq in Hr', Hc'. rewrite Hr', Hc', !Nat.eqb_refl. reflexivity. }
  destruct (operators_run E a b Hwf Hwf' Hr Hc Hsame) as (Hadd & Hsub & _).
  do 4 eexists.
  split; [apply (assign_loop_run E T_add); assumption |].
  split; [exact Hadd |]. split; [repeat split |].
  split; [apply (assign_loop_run E T_sub); assumption |].
  split; [exact Hsub |]. repeat split.
Qed.

(** [a += b] and [a -= b] on different shapes halt in a build with
    assertions and leave [a] as it was in a build without. *)
Theorem compound_assignment_mismatch (a b : matrix T) :
  same_shape b a = false ->
  (assertions E = true ->
     op_add_assign E a b = Stop AssertionFailed
     /\ op_sub_assign E a b = Stop AssertionFailed)
  /\ (assertions E = false ->
        op_add_assign E a b = Done a /\ op_sub_assign E a b = Done a).
Proof.
  intros Hdiff. unfold op_add_assign, op_sub_assign, assign_loop. rewrite Hdiff.
  split; intros Hb.
  - destruct (non_null a).
    + rewrite assert_true. cbn [bind].
      rewrite assert_debug_false by assumption. split; reflexivity.
    + rewrite assert_debug_false by assumption. split; reflexivity.
  - rewrite !assert_release by assumption. split; reflexivity.
Qed.

Section RingLaws.
Hypothesis Hring :
  ring_theory zero one T_add T_mul T_sub (fun x => T_sub zero x) eq.

Add Ring element_ring_laws : Hring.

Lemma zip_with_add_comm (l r : list T) : zip_with T_add l r = zip_with T_add r l.
Proof using Hring.
  revert r. induction l as [|x l IH]; intros [|y r]; simpl; try reflexivity.
  rewrite IH. f_equal. ring.
Qed.

Lemma zip_with_add_sub (l r : list T) :
  length l = length r -> zip_with T_sub (zip_with T_add l r) r = l.
Proof using Hring.
  revert r. induction l as [|x l IH]; intros [|y r] Hlen; simpl in *;
    try reflexivity; try discriminate.
  rewrite IH by lia. f_equal. ring.
Qed.

End RingLaws.

(** Over a commutative ring and on well-formed operands of equal shape,
    with at least one row and one column, [a + b] is [b + a] and
    [(a + b) - b] is [a]. *)
Theorem add_commutes_sub_undoes (a b : matrix T) :
  element_ring ->
  wf a -> wf b -> 1 <= sizet_rows a -> 1 <= sizet_cols a -> same_shape a b = true ->
  exists s d,
    op_add E a b = Done s /\ op_add E b a = Done s
    /\ op_sub E s b = Done d /\ same_matrix d a.
Proof.
  intros Hring Hwf Hwf' Hr Hc Hsame.
  pose proof Hsame as Hshape. unfold same_shape in Hshape.
  apply andb_prop in Hshape. destruct Hshape as [Hr' Hc'].
  apply Nat.eqb_eq in Hr', Hc'.
  assert (Hsame' : same_shape b a = true).
  { unfold same_shape. rewrite Hr', Hc', !Nat.eqb_refl. reflexivity. }
  destruct (operators_run E a b Hwf Hwf' Hr Hc Hsame) as (Hadd & _ & _).
  destruct (operators_run E b a Hwf' Hwf ltac:(lia) ltac:(lia) Hsame') as (Hadd' & _ & _).
  assert (Hlen : length (_matrix a) = length (_matrix b)).
  { rewrite Hwf, Hwf', Hr', Hc'. reflexivity. }
  set (s := mk_matrix (sizet_rows a) (sizet_cols a)
              (zip_with T_add (_matrix a) (_matrix b)) (fake_junk E)).
  assert (Hwfs : wf s).
  { unfold wf, s. simpl. rewrite length_zip_with, <- Hlen, Nat.min_id. exact Hwf. }
  destruct (operators_run E s b Hwfs Hwf' Hr Hc Hsame) as (_ & Hsub & _).
  exists s. eexists. split; [exact Hadd |]. split; [| split; [exact Hsub |]].
  - rewrite Hadd', <- Hr', <- Hc', (zip_with_add_comm Hring). reflexivity.
  - repeat split. simpl. apply (zip_with_add_sub Hring). assumption.
Qed.

End ElementwiseTheorems.

(** [elementwise_operators] on a 2x3 matrix and itself. *)
Lemma elementwise_operators_witness :
  exists s d p,
    op_add Examples.debug7 Examples.grid23 Examples.grid23 = Done s
    /\ op_sub Examples.debug7 Examples.grid23 Examples.grid23 = Done d
    /\ op_mul Examples.debug7 Examples.grid23 Examples.grid23 = Done p
    /\ shape s = shape Examples.grid23 /\ shape d = shape Examples.grid23
    /\ shape p = shape Examples.grid23
    /\ forall r c, r < sizet_rows Examples.grid23 -> c < sizet_cols Examples.grid23 ->
         exists x y,
           get Examples.debug7 Examples.grid23 r c = Done x
           /\ get Examples.debug7 Examples.grid23 r c = Done y
           /\ get Examples.debug7 s r c = Done (T_add x y)
           /\ get Examples.debug7 d r c = Done (T_sub x y)
           /\ get Examples.debug7 p r c = Done (T_mul x y).
Proof.
  apply (elementwise_operators Examples.debug7 Examples.grid23 Examples.grid23);
    [reflexivity | reflexivity | vm_compute; lia | vm_compute; lia | reflexivity].
Defined.

(** [scalar_operators] on a 2x3 matrix and the scalar 10. *)
Lemma scalar_operators_witness :
  let result_of f :=
    Done (mk_matrix (sizet_rows Examples.grid23) (sizet_cols Examples.grid23)
            (map f (_matrix Examples.grid23)) (fake_junk Examples.debug7)) in
  op_add_scalar Examples.debug7 Examples.grid23 10%Z = result_of (fun x => T_add x 10%Z)
  /\ scalar_add Examples.debug7 10%Z Examples.grid23 = result_of (fun x => T_add x 10%Z)
  /\ op_sub_scalar Examples.debug7 Examples.grid23 10%Z = result_of (fun x => T_sub x 10%Z)
  /\ scalar_sub Examples.debug7 10%Z Examples.grid23 = result_of (fun x => T_sub 10%Z x)
  /\ op_mul_scalar Examples.debug7 Examples.grid23 10%Z = result_of (fun x => T_mul x 10%Z)
  /\ scalar_mul Examples.debug7 10%Z Examples.grid23 = result_of (fun x => T_mul 10%Z x).
Proof.
  apply (scalar_operators Examples.debug7 Examples.grid23 10%Z);
    [reflexivity | vm_compute; lia | vm_compute; lia].
Defined.

(** [compound_assignment] on a 2x3 matrix and itself. *)
Lemma compound_assignment_witness :
  exists a1 a2 s d,
    op_add_assign Examples.debug7 Examples.grid23 Examples.grid23 = Done a1
    /\ op_add Examples.debug7 Examples.grid23 Examples.grid23 = Done s
    /\ same_matrix a1 s
    /\ op_sub_assign Examples.debug7 Examples.grid23 Examples.grid23 = Done a2
    /\ op_sub Examples.debug7 Examples.grid23 Examples.grid23 = Done d
    /\ same_matrix a2 d.
Proof.
  apply (compound_assignment Examples.debug7 Examples.grid23 Examples.grid23);
    [reflexivity | reflexivity | vm_compute; lia | vm_compute; lia | reflexivity].
Defined.

(** [compound_assignment_mismatch] on a 2x3 and a 3x3 matrix. *)
Lemma compound_assignment_mismatch_witness :
  (assertions Examples.release7 = true ->
     op_add_assign Examples.release7 Examples.grid23 Examples.grid33 = Stop AssertionFailed
     /\ op_sub_assign Examples.release7 Examples.grid23 Examples.grid33
        = Stop AssertionFailed)
  /\ (assertions Examples.release7 = false ->
        op_add_assign Examples.release7 Examples.grid23 Examples.grid33
        = Done Examples.grid23
        /\ op_sub_assign Examples.release7 Examples.grid23 Examples.grid33
           = Done Examples.grid23).
Proof.
  apply (compound_assignment_mismatch Examples.release7 Examples.grid23 Examples.grid33).
  reflexivity.
Defined.

(** [add_commutes_sub_undoes] on a 2x3 matrix and its double. *)
Lemma add_commutes_sub_undoes_witness :
  exists s d,
    op_add Examples.debug7 Examples.grid23 (mk_matrix 2 3 [2; 4; 6; 8; 10; 12]%Z 0%Z)
    = Done s
    /\ op_add Examples.debug7 (mk_matrix 2 3 [2; 4; 6; 8; 10; 12]%Z 0%Z) Examples.grid23
       = Done s
    /\ op_sub Examples.debug7 s (mk_matrix 2 3 [2; 4; 6; 8; 10; 12]%Z 0%Z) = Done d
    /\ same_matrix d Examples.grid23.
Proof.
  apply (add_commutes_sub_undoes Examples.debug7 Examples.grid23
           (mk_matrix 2 3 [2; 4; 6; 8; 10; 12]%Z 0%Z));
    [exact Z_element_ring | reflexivity | reflexivity | vm_compute; lia
    | vm_compute; lia | reflexivity].
Defined.

(** * More on [upsample] and [downsample] *)

Section ResamplingMore.
Context {T : Type} `{Element T}.
Variable E : build T.

Lemma lookup_allocate (n i : nat) : i < n -> allocate E n !! i = Some (junk E i).
Proof.
  intros Hi. unfold allocate. rewrite list_lookup_fmap, lookup_seq_lt by assumption.
  reflexivity.
Qed.

(** [upsample] writes to the rows [j * u] only. *)
Lemma upsample_untouched (x : matrix T) (u : nat) :
  wf x -> 1 <= sizet_rows x -> 1 <= sizet_cols x -> 1 <= u ->
  fits (u * sizet_rows x) ->
  exists y,
    upsample E x u = Done y
    /\ filled (u * sizet_rows x) (sizet_cols x)
         (fun r c => junk E (r + c * (u * sizet_rows x)))
         (fun r _ => r mod u <> 0) (fake_junk E) y.
Proof.
  intros Hwf HR HC Hu Hfits.
  set (R := sizet_rows x) in *. set (C := sizet_cols x) in *.
  unfold upsample, no_rows, no_cols. fold R C.
  assert (HuR : 1 <= u * R) by (subst R; nia).
  rewrite (size_t_of_mul u R) by assumption.
  rewrite matrix_new_ok by assumption. simpl.
  apply (for_loop_inv
    (fun _ m => filled (u * R) C (fun r c => junk E (r + c * (u * R)))
                  (fun r _ => r mod u <> 0) (fake_junk E) m)).
  - lia.
  - repeat split.
    + apply length_allocate.
    + intros r c Hr Hc _. apply lookup_allocate. apply lindex_lt; assumption.
  - intros c m Hc Hm.
    apply (for_loop_inv
      (fun _ m' => filled (u * R) C (fun r c => junk E (r + c * (u * R)))
                     (fun r _ => r mod u <> 0) (fake_junk E) m')).
    + lia.
    + exact Hm.
    + intros j t Hj Ht.
      rewrite (get_in_range E x j c (fake_junk E)) by (assumption || fold R || fold C; lia).
      rewrite (size_t_of_mul j u) by (apply (fits_le _ (u * R)); [nia | assumption]).
      simpl. apply put_outside_filled; [assumption | nia | lia |].
      rewrite Nat.Div0.mod_mul. lia.
Qed.

(** [upsample] does not fill the rows it inserts: for a non-empty matrix
    and a factor [u >= 1] with [u * rows * cols] below 2^64, row [j * u] of
    the result is row [j] of the input, and every other row holds what the
    allocation left there. *)
Theorem upsample_inserted_rows (x : matrix T) (u : nat) :
  wf x -> 1 <= sizet_rows x -> 1 <= sizet_cols x -> 1 <= u ->
  fits (u * sizet_rows x * sizet_cols x) ->
  exists y,
    upsample E x u = Done y
    /\ sizet_rows y = u * sizet_rows x /\ sizet_cols y = sizet_cols x
    /\ forall r c, r < u * sizet_rows x -> c < sizet_cols x ->
         (r mod u = 0 -> get E y r c = get E x (r / u) c)
         /\ (r mod u <> 0 ->
               get E y r c = Done (junk E (r + c * (u * sizet_rows x)))).
Proof.
  intros Hwf HR HC Hu Hfits.
  assert (Hrows : fits (u * sizet_rows x)).
  { apply (fits_le _ (u * sizet_rows x * sizet_cols x)); [nia | assumption]. }
  destruct (upsample_filled E x u Hwf HR HC Hu Hrows) as (y & Hrun & Hy).
  destruct (upsample_untouched x u Hwf HR HC Hu Hrows) as (y' & Hrun' & Hy').
  rewrite Hrun in Hrun'. injection Hrun' as <-.
  exists y. split; [assumption |].
  pose proof Hy as (Hr & Hc & _). split; [assumption |]. split; [assumption |].
  intros r c Hlt Hlt'. split; intros Hmod.
  - rewrite (filled_get E _ _ _ _ _ y r c Hy Hlt Hlt' Hmod).
    symmetry. apply get_in_range; [assumption | | assumption].
    apply Nat.Div0.div_lt_upper_bound. lia.
  - apply (filled_get E _ _ _ _ _ y r c Hy' Hlt Hlt' Hmod).
Qed.

(** [downsample(x, d)] with [1 <= d <= rows] keeps the rows [0], [d],
    [2d], ...: the result has [rows / d] rows and its row [r] is row
    [r * d] of [x]. *)
Theorem downsample_takes_rows (x : matrix T) (d : nat) :
  wf x -> 1 <= sizet_cols x -> 1 <= d -> d <= sizet_rows x ->
  exists y,
    downsample E x d = Done y
    /\ sizet_rows y = sizet_rows x / d /\ sizet_cols y = sizet_cols x
    /\ forall r c, r < sizet_rows x / d -> c < sizet_cols x ->
         get E y r c = get E x (r * d) c.
Proof.
  intros Hwf HC Hd HR.
  set (R := sizet_rows x) in *. set (C := sizet_cols x) in *.
  set (Q := R / d).
  assert (HQ : 1 <= Q).
  { unfold Q. apply Nat.div_le_lower_bound; lia. }
  assert (Hin : forall j, j < Q -> j * d < R).
  { intros j Hj. pose proof (Nat.Div0.mul_div_le R d). fold Q in H0. nia. }
  set (G := fun r c => nth (r * d + c * R) (_matrix x) (fake_junk E)).
  unfold downsample, no_rows, no_cols, size_div. fold R C.
  destruct (Nat.eqb_spec d 0) as [-> | _]; [lia |]. simpl. fold Q.
  rewrite matrix_new_ok by assumption. simpl.
  destruct (for_loop_inv
    (fun c m => filled Q C G (fun _ c' => c' < c) (fake_junk E) m) 0 C
    (fun size_col mat_tmp =>
       for_loop 0 Q (fun uint_row mat_tmp0 =>
         v <- get E x (uint_row * d) size_col ;;
         put E mat_tmp0 uint_row size_col v) mat_tmp)
    (mk_matrix Q C (allocate E (Q * C)) (fake_junk E)))
    as (y & Hrun & Hy).
  - lia.
  - repeat split. + apply length_allocate. + intros r c _ _ Hc. lia.
  - intros c m Hc Hm.
    destruct (for_loop_inv
      (fun r m' => filled Q C G (fun r' c' => c' < c \/ (c' = c /\ r' < r))
                     (fake_junk E) m') 0 Q
      (fun uint_row mat_tmp0 =>
         v <- get E x (uint_row * d) c ;; put E mat_tmp0 uint_row c v) m)
      as (m' & Hrun' & Hm').
    + lia.
    + widen Hm.
    + intros j t Hj Ht.
      rewrite (get_in_range E x (j * d) c (fake_junk E))
        by (assumption || (fold R; apply Hin; lia) || (fold C; lia)).
      simpl. fold R.
      destruct (put_filled E _ _ _ _ _ t j c (nth (j * d + c * R) (_matrix x) (fake_junk E)) Ht)
        as (t' & Hput & Ht'); [lia | lia | reflexivity |].
      exists t'. split; [assumption |].
      eapply filled_weaken; [| exact Ht']. simpl. intros r' c' _ _ Hor. lia.
    + exists m'. split; [assumption |].
      eapply filled_weaken; [| exact Hm']. simpl. intros r' c' Hr' _ Hlt. lia.
  - exists y. split; [assumption |].
    pose proof Hy as (Hr & Hc & _). split; [assumption |]. split; [assumption |].
    intros r c Hlt Hlt'.
    rewrite (filled_get E _ _ _ _ _ y r c Hy) by (assumption || lia).
    symmetry. apply get_in_range; [assumption | apply Hin; assumption | assumption].
Qed.

(** [downsample] does not check its factor: [d = 0] divides by zero in
    every build, and a factor above the number of rows asks the constructor
    for zero rows, which halts a build with assertions and gives a
    1 x cols matrix that nothing has written to in a build without. *)
Theorem downsample_factor_unchecked (x : matrix T) (d : nat) :
  1 <= sizet_cols x -> sizet_rows x < d ->
  downsample E x 0 = Stop UndefinedBehaviour
  /\ (assertions E = true -> downsample E x d = Stop AssertionFailed)
  /\ (assertions E = false ->
        downsample E x d = Done (untouched E 1 (sizet_cols x))).
Proof.
  intros HC Hlt. split; [reflexivity |].
  unfold downsample, no_rows, no_cols, size_div.
  destruct (Nat.eqb_spec d 0) as [-> | _]; [lia |]. cbn [bind].
  rewrite Nat.div_small by assumption.
  unfold matrix_new. rewrite andb_false_r. split; intros Hb.
  - rewrite assert_debug_false by assumption. reflexivity.
  - rewrite assert_release by assumption. cbn [bind].
    change (0 <? 2) with true. cbv iota.
    assert (Hc : (if sizet_cols x <? 2 then 1 else sizet_cols x) = sizet_cols x).
    { destruct (Nat.ltb_spec (sizet_cols x) 2); lia. }
    rewrite Hc.
    destruct (for_loop_inv
      (fun _ m => m = untouched E 1 (sizet_cols x)) 0 (sizet_cols x)
      (fun size_col mat_tmp =>
         for_loop 0 0 (fun uint_row mat_tmp0 =>
           v <- get E x (uint_row * d) size_col ;;
           put E mat_tmp0 uint_row size_col v) mat_tmp)
      (untouched E 1 (sizet_cols x))) as (m & Hrun & ->).
    + lia.
    + reflexivity.
    + intros j t _ ->. eexists. split; reflexivity.
    + exact Hrun.
Qed.

End ResamplingMore.

(** [upsample_inserted_rows] on a 2x3 matrix and the factor 2. *)
Lemma upsample_inserted_rows_witness :
  exists y,
    upsample Examples.debug7 Examples.grid23 2 = Done y
    /\ sizet_rows y = 2 * sizet_rows Examples.grid23
    /\ sizet_cols y = sizet_cols Examples.grid23
    /\ forall r c, r < 2 * sizet_rows Examples.grid23 -> c < sizet_cols Examples.grid23 ->
         (r mod 2 = 0 ->
            get Examples.debug7 y r c = get Examples.debug7 Examples.grid23 (r / 2) c)
         /\ (r mod 2 <> 0 ->
               get Examples.debug7 y r c
               = Done (junk Examples.debug7 (r + c * (2 * sizet_rows Examples.grid23)))).
Proof.
  apply (upsample_inserted_rows Examples.debug7 Examples.grid23 2);
    [reflexivity | vm_compute; lia | vm_compute; lia | lia | vm_compute; reflexivity].
Defined.

(** [downsample_takes_rows] on a 3x3 matrix and the factor 2. *)
Lemma downsample_takes_rows_witness :
  exists y,
    downsample Examples.debug7 Examples.grid33 2 = Done y
    /\ sizet_rows y = sizet_rows Examples.grid33 / 2
    /\ sizet_cols y = sizet_cols Examples.grid33
    /\ forall r c, r < sizet_rows Examples.grid33 / 2 -> c < sizet_cols Examples.grid33 ->
         get Examples.debug7 y r c = get Examples.debug7 Examples.grid33 (r * 2) c.
Proof.
  apply (downsample_takes_rows Examples.debug7 Examples.grid33 2);
    [reflexivity | vm_compute; lia | lia | vm_compute; lia].
Defined.

(** [downsample_factor_unchecked] on a 2x3 matrix and the factor 5. *)
Lemma downsample_factor_unchecked_witness :
  downsample Examples.release7 Examples.grid23 0 = Stop UndefinedBehaviour
  /\ (assertions Examples.release7 = true ->
        downsample Examples.release7 Examples.grid23 5 = Stop AssertionFailed)
  /\ (assertions Examples.release7 = false ->
        downsample Examples.release7 Examples.grid23 5
        = Done (untouched Examples.release7 1 (sizet_cols Examples.grid23))).
Proof.
  apply (downsample_factor_unchecked Examples.release7 Examples.grid23 5);
    vm_compute; lia.
Defined.

(** * [toeplitz] with two arguments *)

(** A loop whose passes keep an invariant or end in the fault [f]. *)
Lemma iterate_safe {St : Type} (I : St -> Prop) (body : nat -> St -> result St)
    (f : fault) :
  forall count i s,
    I s ->
    (forall j t, i <= j < i + count -> I t ->
                 (exists t', body j t = Done t' /\ I t') \/ body j t = Stop f) ->
    (exists s', iterate count i body s = Done s' /\ I s')
    \/ iterate count i body s = Stop f.
Proof.
  induction count as [|count IH]; intros i s Hs Hstep; simpl.
  - left. eauto.
  - destruct (Hstep i s) as [(t & Hb & Ht) | Hb]; [lia | assumption | |].
    + rewrite Hb. simpl. apply IH; [assumption |].
      intros j u Hj Hu. apply Hstep; [lia | assumption].
    + rewrite Hb. right. reflexivity.
Qed.

Lemma for_loop_safe {St : Type} (I : St -> Prop) lo hi
    (body : nat -> St -> result St) (f : fault) (s : St) :
  I s ->
  (forall j t, lo <= j < hi -> I t ->
               (exists t', body j t = Done t' /\ I t') \/ body j t = Stop f) ->
  (exists s', for_loop lo hi body s = Done s' /\ I s')
  \/ for_loop lo hi body s = Stop f.
Proof.
  intros Hs Hstep. unfold for_loop. apply iterate_safe; [assumption |].
  intros j t Hj. apply Hstep. lia.
Qed.

Section ToeplitzTwo.
Context {T : Type} `{Element T}.
Variable E : build T.

Lemma get_elem_safe (m : matrix T) (i : nat) :
  (exists v, get_elem E m i = Done v) \/ get_elem E m i = Stop (halting_fault E).
Proof.
  unfold get_elem, non_null, size, SUSA_ASSERT, halting_fault, raw_read.
  destruct (assertions E); simpl.
  - destruct (Nat.ltb_spec 0 (length (_matrix m))); simpl; [| right; reflexivity].
    destruct (Nat.ltb_spec i (length (_matrix m))) as [Hi | Hi]; simpl;
      [| right; reflexivity].
    destruct (lookup_lt_is_Some_2 _ _ Hi) as [v ->]. left. eauto.
  - destruct (_matrix m !! i); [left; eauto | right; reflexivity].
Qed.

Lemma get_elem_outside (m : matrix T) (i : nat) :
  size m <= i -> get_elem E m i = Stop (halting_fault E).
Proof.
  intros Hout. unfold get_elem, non_null, SUSA_ASSERT, halting_fault, raw_read.
  destruct (Nat.ltb_spec i (size m)); [lia |].
  rewrite (proj2 (lookup_ge_None (_matrix m) i)) by assumption.
  destruct (assertions E); simpl; [| reflexivity].
  destruct (0 <? length (_matrix m)); reflexivity.
Qed.

Lemma put_safe (m : matrix T) (r c : nat) (v : T) :
  wf m ->
  (exists m', put E m r c v = Done m'
              /\ sizet_rows m' = sizet_rows m /\ sizet_cols m' = sizet_cols m /\ wf m')
  \/ put E m r c v = Stop (halting_fault E).
Proof.
  intros Hwf.
  destruct (Nat.ltb_spec r (sizet_rows m)) as [Hr | Hr];
    [destruct (Nat.ltb_spec c (sizet_cols m)) as [Hc | Hc] |].
  - left. rewrite put_in_range by assumption. eexists. split; [reflexivity |].
    unfold wf, with_buf. simpl. rewrite length_insert. auto.
  - unfold put, ref, SUSA_ASSERT, halting_fault.
    destruct (Nat.ltb_spec c (sizet_cols m)); [lia |]. rewrite andb_false_r.
    destruct (assertions E); simpl.
    + right. destruct (non_null m); reflexivity.
    + left. eexists. split; [reflexivity |]. auto.
  - unfold put, ref, SUSA_ASSERT, halting_fault.
    destruct (Nat.ltb_spec r (sizet_rows m)); [lia |]. cbn [andb].
    destruct (assertions E); simpl.
    + right. destruct (non_null m); reflexivity.
    + left. eexists. split; [reflexivity |]. auto.
Qed.

Lemma put_outside_debug (m : matrix T) (r c : nat) (v : T) :
  assertions E = true -> sizet_rows m <= r \/ sizet_cols m <= c ->
  put E m r c v = Stop AssertionFailed.
Proof.
  intros Hb Hout. unfold put, ref, SUSA_ASSERT. rewrite Hb.
  assert (Hin : (r <? sizet_rows m) && (c <? sizet_cols m) = false).
  { destruct (Nat.ltb_spec r (sizet_rows m)), (Nat.ltb_spec c (sizet_cols m));
      simpl; try reflexivity; lia. }
  rewrite Hin. destruct (non_null m); reflexivity.
Qed.

(** One cell of the loop nest. *)
Lemma toeplitz_cell_safe (mat_col t : matrix T) (r c A B : nat) :
  sizet_rows t = A /\ sizet_cols t = B /\ wf t ->
  (exists t', (v <- get_elem E mat_col (abs_diff c r) ;; put E t r c v) = Done t'
              /\ (sizet_rows t' = A /\ sizet_cols t' = B /\ wf t'))
  \/ (v <- get_elem E mat_col (abs_diff c r) ;; put E t r c v)
     = Stop (halting_fault E).
Proof.
  intros (Hr & Hc & Hwf).
  destruct (get_elem_safe mat_col (abs_diff c r)) as [[v ->] | ->];
    [| right; reflexivity].
  cbn [bind].
  destruct (put_safe t r c v Hwf) as [(t' & -> & Hr' & Hc' & Hwf') | ->];
    [left | right; reflexivity].
  exists t'. split; [reflexivity |]. rewrite Hr', Hc'. auto.
Qed.

Lemma toeplitz2_mismatch (mat_col mat_row : matrix T) :
  1 <= size mat_col -> 1 <= size mat_row -> size mat_col <> size mat_row ->
  (Z.of_nat (size mat_row) < 2 ^ 63)%Z ->
  (size mat_col < size mat_row -> toeplitz2 E mat_col mat_row = Stop (halting_fault E))
  /\ (size mat_row < size mat_col -> assertions E = true ->
        toeplitz2 E mat_col mat_row = Stop AssertionFailed).
Proof.
  intros HA HB Hne Hbig.
  set (A := size mat_col) in *. set (B := size mat_row) in *.
  set (Inv := fun t : matrix T => sizet_rows t = A /\ sizet_cols t = B /\ wf t).
  assert (Hinner : forall r t, Inv t ->
            (exists t', for_loop 0 A (fun size_col mat_ret =>
                          v <- get_elem E mat_col (abs_diff size_col r) ;;
                          put E mat_ret r size_col v) t = Done t' /\ Inv t')
            \/ for_loop 0 A (fun size_col mat_ret =>
                 v <- get_elem E mat_col (abs_diff size_col r) ;;
                 put E mat_ret r size_col v) t = Stop (halting_fault E)).
  { intros r t Ht. apply (for_loop_safe Inv); [assumption |].
    intros c u _ Hu. apply toeplitz_cell_safe. assumption. }
  assert (Hstart : Inv (mk_matrix A B (allocate E (A * B)) (fake_junk E))).
  { repeat split. apply length_allocate. }
  unfold toeplitz2. fold A B. rewrite matrix_new_ok by assumption. cbn [bind].
  split.
  - intros Hlt.
    apply (for_loop_stops (fun _ t => Inv t)); [lia | assumption | |].
    + intros r t _ Ht. apply Hinner. assumption.
    + intros t Ht. unfold for_loop.
      replace (A - 0) with (S (A - 1)) by lia. simpl.
      rewrite get_elem_outside; [reflexivity |].
      rewrite abs_diff_distance by lia. unfold abs_index. fold A. lia.
  - intros Hlt Hb.
    assert (Hf : halting_fault E = AssertionFailed).
    { unfold halting_fault. rewrite Hb. reflexivity. }
    rewrite Hf in Hinner.
    apply (for_loop_stops (fun _ t => Inv t)); [lia | assumption | |].
    + intros r t _ Ht. apply Hinner. assumption.
    + intros t Ht.
      apply (for_loop_stops (fun _ u => Inv u)); [lia | assumption | |].
      * intros c u _ Hu. rewrite <- Hf. apply toeplitz_cell_safe. assumption.
      * intros u (Hr & Hc & Hwf).
        destruct (get_elem_safe mat_col (abs_diff (A - 1) (B - 1))) as [[v ->] | ->];
          [| rewrite Hf; reflexivity].
        cbn [bind]. apply put_outside_debug; [assumption |]. right. lia.
Qed.

(** [toeplitz(col, row)] reads of its second argument the number of
    elements only: with arguments of the same length [n >= 1], [n * n]
    below 2^64, it returns what [toeplitz(col)] returns, the n x n matrix
    with [col[|j - i|]] at (i, j). *)
Theorem toeplitz2_ignores_row (mat_col mat_row : matrix T) (n : nat) :
  size mat_col = n -> size mat_row = n -> 1 <= n -> fits (n * n) ->
  exists M,
    toeplitz2 E mat_col mat_row = Done M
    /\ toeplitz E mat_col = Done M
    /\ sizet_rows M = n /\ sizet_cols M = n
    /\ forall i j, i < n -> j < n ->
         exists v, _matrix mat_col !! abs_index i j = Some v
                   /\ get E M i j = Done v.
Proof.
  intros Hcol Hrow Hn Hfits. subst n.
  assert (Hbig : (Z.of_nat (size mat_col) < 2 ^ 63)%Z)
    by (pose proof (fits_square _ Hfits); lia).
  destruct (toeplitz_filled E mat_col Hn Hbig) as (M & Hrun & HM).
  exists M. split; [| split; [exact Hrun |]].
  - unfold toeplitz2. rewrite Hrow. exact Hrun.
  - pose proof HM as (Hr & Hc & _). split; [assumption |]. split; [assumption |].
    intros i j Hi Hj. eexists. split.
    + apply lookup_nth. apply abs_index_lt; assumption.
    + apply (filled_get E _ _ _ _ _ M i j HM); auto.
Qed.


End ToeplitzTwo.

(** [toeplitz2_ignores_row] on the column [1;2;3] and the row [9;8;7]. *)
Lemma toeplitz2_ignores_row_witness :
  exists M,
    toeplitz2 Examples.debug7 (Examples.col_vec [1; 2; 3]%Z) (Examples.row_vec [9; 8; 7]%Z)
    = Done M
    /\ toeplitz Examples.debug7 (Examples.col_vec [1; 2; 3]%Z) = Done M
    /\ sizet_rows M = 3 /\ sizet_cols M = 3
    /\ forall i j, i < 3 -> j < 3 ->
         exists v, _matrix (Examples.col_vec [1; 2; 3]%Z) !! abs_index i j = Some v
                   /\ get Examples.debug7 M i j = Done v.
Proof.
  apply (toeplitz2_ignores_row Examples.debug7 (Examples.col_vec [1; 2; 3]%Z)
           (Examples.row_vec [9; 8; 7]%Z) 3);
    [reflexivity | reflexivity | lia | vm_compute; reflexivity].
Defined.


(** * [conv] on two vectors and on unsupported shapes *)

Section ConvolutionOfVectors.
Context {T : Type} `{Element T}.
Variable E : build T.

Section Sums.
Hypothesis Hring :
  ring_theory zero one T_add T_mul T_sub (fun x => T_sub zero x) eq.

Add Ring element_ring_sums : Hring.

(** The accumulation of the first inner loop of [filter], as a sum. *)
Lemma fir_acc_sigma (b xs : list T) (n : nat) :
  fir_acc b xs (length xs) n (length b)
  = sigma 0 (length b) (fun k => T_mul (sample xs n k) (nth k b zero)).
Proof using Hring.
  unfold fir_acc, sigma. rewrite (fold_left_add Hring), Nat.sub_0_r.
  rewrite (sum_ext_in _ (fun k => T_mul (sample xs n k) (nth k b zero))).
  - ring.
  - intros k _. rewrite tap_sample. reflexivity.
Qed.

End Sums.

Lemma vector_size (a : matrix T) :
  wf a -> is_vector a = true ->
  2 <= size a
  /\ (sizet_cols a = 1 -> sizet_rows a = size a)
  /\ (sizet_rows a = 1 -> sizet_cols a = size a).
Proof.
  intros Hwf Hv. unfold size. rewrite Hwf.
  destruct (is_vector_cases a Hv) as [[Hr Hc] | [Hr Hc]]; rewrite ?Hr, ?Hc; lia.
Qed.

(** [conv(a, b)] of two vectors is their full linear convolution: it has
    [|a| + |b| - 1] elements in the orientation of [a], and element [n] is
    the sum over [k] of [a[n - k] * b[k]], with [a[n - k]] zero outside
    [a].  The element type is any commutative ring. *)
Theorem conv_of_vectors (a b : matrix T) :
  element_ring -> wf a -> wf b -> is_vector a = true -> is_vector b = true ->
  exists y,
    conv E a b = Done y
    /\ size y = size a + size b - 1
    /\ (sizet_cols a = 1 -> sizet_cols y = 1 /\ sizet_rows y = size a + size b - 1)
    /\ (sizet_rows a = 1 -> sizet_rows y = 1 /\ sizet_cols y = size a + size b - 1)
    /\ forall n, n < size a + size b - 1 ->
         get_elem E y n
         = Done (sigma 0 (size b)
                   (fun k => T_mul (sample (_matrix a) n k) (nth k (_matrix b) zero))).
Proof.
  intros Hring Hwf Hwf' Hva Hvb.
  destruct (vector_size a Hwf Hva) as (Ha & Hacol & Harow).
  destruct (vector_size b Hwf' Hvb) as (Hb & _ & _).
  assert (HN : size a + (size b - 1) = size a + size b - 1) by lia.
  set (buf := map (fun i => fir_acc (_matrix b) (_matrix a) (size a) i (size b))
                  (seq 0 (size a + size b - 1))).
  assert (Hlen : length buf = size a + size b - 1).
  { unfold buf. rewrite length_map, length_seq. reflexivity. }
  assert (Hget : forall (y : matrix T) n, _matrix y = buf -> n < size a + size b - 1 ->
            get_elem E y n
            = Done (sigma 0 (size b)
                      (fun k => T_mul (sample (_matrix a) n k) (nth k (_matrix b) zero)))).
  { intros y n Hy Hn. apply get_elem_Some. rewrite Hy. unfold buf.
    rewrite lookup_tabulate by assumption. f_equal.
    apply (fir_acc_sigma Hring). }
  destruct (is_vector_cases a Hva) as [[Hr Hc] | [Hr Hc]].
  - eexists. split; [apply conv_row; assumption |].
    simpl. rewrite (Harow Hr), HN. fold buf.
    split; [exact Hlen |]. split; [intros; lia |]. split; [auto |].
    intros n Hn. apply Hget; [reflexivity | assumption].
  - eexists. split; [apply conv_column; assumption |].
    simpl. rewrite (Hacol Hc), HN. fold buf.
    split; [exact Hlen |]. split; [auto |]. split; [intros; lia |].
    intros n Hn. apply Hget; [reflexivity | assumption].
Qed.

(** [conv] of two operands neither of which is a vector or a 1x1 matrix
    (two general matrices, or an empty operand) is not implemented: a build
    with assertions halts and a build without returns the empty matrix. *)
Theorem conv_unsupported (a b : matrix T) :
  is_column_or_row a = false -> is_column_or_row b = false ->
  is_scalar a = false -> is_scalar b = false ->
  (assertions E = true -> conv E a b = Stop AssertionFailed)
  /\ (assertions E = false -> conv E a b = Done (matrix_empty E)).
Proof.
  intros Ha Hb Hsa Hsb. unfold conv. rewrite Ha, Hb.
  unfold is_scalar, no_rows, no_cols in *.
  rewrite (andb_comm (sizet_cols b =? 1)), Hsb.
  rewrite (andb_comm (sizet_cols a =? 1)), Hsa.
  split; intros Hbuild;
    match goal with
    | |- context [if ?g then _ else _] => destruct g
    end;
    first [ rewrite assert_debug_false by assumption; reflexivity
          | rewrite assert_release by assumption; reflexivity ].
Qed.

End ConvolutionOfVectors.

(** [conv_of_vectors] on the column [1;2;3] and the row [1;1]. *)
Lemma conv_of_vectors_witness :
  exists y,
    conv Examples.debug7 (Examples.col_vec [1; 2; 3]%Z) (Examples.row_vec [1; 1]%Z) = Done y
    /\ size y = size (Examples.col_vec [1; 2; 3]%Z) + size (Examples.row_vec [1; 1]%Z) - 1
    /\ (sizet_cols (Examples.col_vec [1; 2; 3]%Z) = 1 ->
          sizet_cols y = 1
          /\ sizet_rows y
             = size (Examples.col_vec [1; 2; 3]%Z) + size (Examples.row_vec [1; 1]%Z) - 1)
    /\ (sizet_rows (Examples.col_vec [1; 2; 3]%Z) = 1 ->
          sizet_rows y = 1
          /\ sizet_cols y
             = size (Examples.col_vec [1; 2; 3]%Z) + size (Examples.row_vec [1; 1]%Z) - 1)
    /\ forall n,
         n < size (Examples.col_vec [1; 2; 3]%Z) + size (Examples.row_vec [1; 1]%Z) - 1 ->
         get_elem Examples.debug7 y n
         = Done (sigma 0 (size (Examples.row_vec [1; 1]%Z))
                   (fun k => T_mul (sample (_matrix (Examples.col_vec [1; 2; 3]%Z)) n k)
                                   (nth k (_matrix (Examples.row_vec [1; 1]%Z)) zero))).
Proof.
  apply (conv_of_vectors Examples.debug7 (Examples.col_vec [1; 2; 3]%Z)
           (Examples.row_vec [1; 1]%Z));
    [exact Z_element_ring | reflexivity | reflexivity | reflexivity | reflexivity].
Defined.

(** [conv_unsupported] on a 2x3 and a 3x3 matrix. *)
Lemma conv_unsupported_witness :
  (assertions Examples.release7 = true ->
     conv Examples.release7 Examples.grid23 Examples.grid33 = Stop AssertionFailed)
  /\ (assertions Examples.release7 = false ->
        conv Examples.release7 Examples.grid23 Examples.grid33
        = Done (matrix_empty Examples.release7)).
Proof.
  apply (conv_unsupported Examples.release7 Examples.grid23 Examples.grid33);
    reflexivity.
Defined.

(** * The shape [parser] gives the matrix *)

Section ParserShape.
Context {T : Type} `{Element T}.
Variable E : build T.
Variable pre_parser : string -> string.

(** [parser] takes the shape from the separators alone: with [r0] row
    separators and [c0] column separators counted, a count [c0 + 1] that
    [r0 + 1] divides gives a matrix of [r0 + 1] rows and
    [(c0 + 1) / (r0 + 1)] columns, every store staying inside its buffer
    whatever the tokens are; any other count halts a build with assertions
    and returns false, the receiver untouched, in a build without. *)
Theorem parser_shape (this : matrix T) (str : string) (r0 c0 : nat) :
  count_separators (list_ascii_of_string (pre_parser str)) = (r0, c0) ->
  ((c0 + 1) mod (r0 + 1) = 0 ->
     exists m,
       parser E pre_parser this str = Done (true, m)
       /\ sizet_rows m = r0 + 1 /\ sizet_cols m = (c0 + 1) / (r0 + 1) /\ wf m)
  /\ ((c0 + 1) mod (r0 + 1) <> 0 ->
        (assertions E = true -> parser E pre_parser this str = Stop AssertionFailed)
        /\ (assertions E = false -> parser E pre_parser this str = Done (false, this))).
Proof.
  intros Hcount. unfold parser. rewrite Hcount.
  set (R := r0 + 1). set (K := c0 + 1).
  assert (HR : 1 <= R) by (unfold R; lia).
  assert (HK : 1 <= K) by (unfold K; lia).
  split; intros Hmod.
  - rewrite Hmod. change (0 =? 0) with true. cbn [negb].
    rewrite assert_true. cbn [bind].
    set (C := K / R).
    assert (HC : 1 <= C).
    { unfold C. apply Nat.div_le_lower_bound; [lia |].
      pose proof (Nat.Div0.div_mod K R) as Hdiv. rewrite Hmod in Hdiv.
      destruct (K / R); lia. }
    destruct (Nat.eqb_spec (K * R) 0) as [Hz | _]; [nia |]. cbn [negb].
    set (buf0 := if negb (size this =? C * R) then allocate E (C * R) else _matrix this).
    assert (Hbuf0 : length buf0 = C * R).
    { unfold buf0. destruct (Nat.eqb_spec (size this) (C * R)) as [Heq | Hne]; simpl.
      - exact Heq.
      - apply length_allocate. }
    set (Inv := fun st : matrix T * stream =>
                  sizet_rows (fst st) = R /\ sizet_cols (fst st) = C
                  /\ length (_matrix (fst st)) = C * R).
    match goal with
    | |- exists m, (st <- for_loop 0 R ?body ?init ;; _) = _ /\ _ =>
        destruct (for_loop_inv (fun _ st => Inv st) 0 R body init)
          as ([m ss] & Hrun & Hm)
    end.
    + lia.
    + repeat split. exact Hbuf0.
    + intros row [m ss] Hrow Hm.
      destruct (getline ss MAX_STR_LEN ";") as [char_buff ss_all].
      match goal with
      | |- exists t', (st <- for_loop 0 C ?body ?init ;; _) = _ /\ _ =>
          destruct (for_loop_inv (fun _ st => Inv st) 0 C body init)
            as ([m' ss'] & Hrun' & Hm')
      end.
      * lia.
      * exact Hm.
      * intros col [t ssrow] Hcol (Htr & Htc & Htl). simpl in Htr, Htc, Htl.
        destruct (getline ssrow MAX_STR_LEN " ") as [tok ssrow'].
        unfold get_lindex. rewrite Htr.
        rewrite raw_write_lt.
        -- eexists. split; [reflexivity |]. unfold Inv. simpl.
           rewrite length_insert. auto.
        -- rewrite Htl. replace (C * R) with (R * C) by lia. apply lindex_lt; lia.
      * rewrite Hrun'. eexists. split; [reflexivity |]. exact Hm'.
    + rewrite Hrun. exists m. split; [reflexivity |].
      destruct Hm as (Hr & Hc & Hl). simpl in Hr, Hc, Hl.
      split; [exact Hr |]. split; [exact Hc |].
      unfold wf. rewrite Hr, Hc, Hl. apply Nat.mul_comm.
  - destruct (Nat.eqb_spec (K mod R) 0) as [Hz | _]; [contradiction |]. cbn [negb].
    split; intros Hb.
    + rewrite assert_debug_false by assumption. reflexivity.
    + rewrite assert_release by assumption. reflexivity.
Qed.

End ParserShape.

(** [parser_shape] on a literal of two rows of two tokens, and on one whose
    second row is short of a token. *)
Lemma parser_shape_witness :
  (exists m,
     parser Examples.debug7 (fun s => s) Examples.grid23 "1 2;3 4" = Done (true, m)
     /\ sizet_rows m = 1 + 1 /\ sizet_cols m = (3 + 1) / (1 + 1) /\ wf m)
  /\ ((assertions Examples.release7 = true ->
         parser Examples.release7 (fun s => s) Examples.grid23 "1 2;3" = Stop AssertionFailed)
      /\ (assertions Examples.release7 = false ->
            parser Examples.release7 (fun s => s) Examples.grid23 "1 2;3"
            = Done (false, Examples.grid23))).
Proof.
  split.
  - apply (parser_shape Examples.debug7 (fun s => s) Examples.grid23 "1 2;3 4" 1 3);
      reflexivity.
  - apply (parser_shape Examples.release7 (fun s => s) Examples.grid23 "1 2;3" 1 2);
      [reflexivity | vm_compute; lia].
Defined.

(** * [conv] on two vectors does not depend on their order *)

Section ConvolutionCommutes.
Context {T : Type} `{Element T}.
Variable E : build T.

Section SumLaws.
Hypothesis Hring :
  ring_theory zero one T_add T_mul T_sub (fun x => T_sub zero x) eq.

Add Ring element_ring_sum_laws : Hring.

Lemma sum_app (f : nat -> T) (l1 l2 : list nat) :
  fold_right (fun k acc => T_add (f k) acc) zero (l1 ++ l2)
  = T_add (fold_right (fun k acc => T_add (f k) acc) zero l1)
          (fold_right (fun k acc => T_add (f k) acc) zero l2).
Proof using Hring.
  induction l1 as [|k l1 IH]; simpl.
  - ring.
  - rewrite IH. ring.
Qed.

Lemma sum_zero (f : nat -> T) (l : list nat) :
  (forall k, In k l -> f k = zero) ->
  fold_right (fun k acc => T_add (f k) acc) zero l = zero.
Proof using Hring.
  induction l as [|k l IH]; intros Hz; simpl; [reflexivity |].
  rewrite Hz by (left; reflexivity). rewrite IH; [ring |].
  intros k' Hin. apply Hz. right. assumption.
Qed.

Lemma sum_shift (f : nat -> T) (m : nat) :
  fold_right (fun k acc => T_add (f k) acc) zero (seq 1 m)
  = fold_right (fun k acc => T_add (f (S k)) acc) zero (seq 0 m).
Proof using Hring.
  rewrite <- seq_shift. induction (seq 0 m) as [|k l IH]; simpl; [reflexivity |].
  rewrite IH. reflexivity.
Qed.

(** A sum does not change when terms that are zero are added to its
    range. *)
Lemma sigma_extend (f : nat -> T) (m m' : nat) :
  m <= m' -> (forall k, m <= k < m' -> f k = zero) ->
  sigma 0 m f = sigma 0 m' f.
Proof using Hring.
  intros Hle Hz. unfold sigma. rewrite !Nat.sub_0_r.
  replace m' with (m + (m' - m)) by lia.
  rewrite seq_app, sum_app. simpl.
  rewrite (sum_zero f (seq m (m' - m))); [ring |].
  intros k Hin. apply in_seq in Hin. apply Hz. lia.
Qed.

(** A sum read from its last term to its first. *)
Lemma sigma_reverse (g : nat -> T) (m : nat) :
  sigma 0 m g = sigma 0 m (fun k => g (m - 1 - k)).
Proof using Hring.
  unfold sigma. rewrite !Nat.sub_0_r.
  induction m as [|m IH]; [reflexivity |].
  transitivity (T_add (fold_right (fun k acc => T_add (g k) acc) zero (seq 0 m)) (g m)).
  { rewrite seq_S, sum_app. simpl. ring. }
  change (seq 0 (S m)) with (0 :: seq 1 m). cbn [fold_right].
  rewrite (sum_shift (fun k => g (S m - 1 - k))).
  rewrite (sum_ext_in (fun k => g (S m - 1 - S k)) (fun k => g (m - 1 - k)))
    by (intros; f_equal; lia).
  rewrite <- IH. replace (S m - 1 - 0) with m by lia. ring.
Qed.

(** The sum of [conv], with both operands read as zero outside their
    index range. *)
Lemma convolution_sum (a b : list T) (n : nat) :
  sigma 0 (length b) (fun k => T_mul (sample a n k) (nth k b zero))
  = sigma 0 (n + 1) (fun k => T_mul (nth (n - k) a zero) (nth k b zero)).
Proof using Hring.
  set (f := fun k => T_mul (sample a n k) (nth k b zero)).
  assert (Hf : forall k, length b <= k \/ n + 1 <= k -> f k = zero).
  { intros k [Hk | Hk]; unfold f.
    - rewrite (nth_overflow b) by assumption. ring.
    - unfold sample. destruct (Nat.leb_spec k n); [lia |]. simpl. ring. }
  rewrite (sigma_extend f (length b) (Nat.max (length b) (n + 1)))
    by (try lia; intros k Hk; apply Hf; lia).
  rewrite <- (sigma_extend f (n + 1) (Nat.max (length b) (n + 1)))
    by (try lia; intros k Hk; apply Hf; lia).
  unfold sigma. rewrite Nat.sub_0_r. apply sum_ext_in.
  intros k Hin. apply in_seq in Hin. unfold f, sample.
  destruct (Nat.leb_spec k n); [| lia].
  destruct (Nat.ltb_spec (n - k) (length a)); simpl; [reflexivity |].
  rewrite (nth_overflow a) by assumption. reflexivity.
Qed.

Lemma convolution_sum_comm (a b : list T) (n : nat) :
  sigma 0 (length b) (fun k => T_mul (sample a n k) (nth k b zero))
  = sigma 0 (length a) (fun k => T_mul (sample b n k) (nth k a zero)).
Proof using Hring.
  rewrite !convolution_sum.
  rewrite (sigma_reverse (fun k => T_mul (nth (n - k) a zero) (nth k b zero))).
  unfold sigma. rewrite Nat.sub_0_r. apply sum_ext_in.
  intros k Hin. apply in_seq in Hin.
  replace (n - (n + 1 - 1 - k)) with k by lia.
  replace (n + 1 - 1 - k) with (n - k) by lia. ring.
Qed.

End SumLaws.

(** [conv(a, b)] and [conv(b, a)] of two vectors hold the same elements in
    the same order, over a commutative ring; only the orientation, which is
    that of the first operand, can differ. *)
Theorem conv_commutes (a b : matrix T) :
  element_ring -> wf a -> wf b -> is_vector a = true -> is_vector b = true ->
  exists y y',
    conv E a b = Done y /\ conv E b a = Done y' /\ _matrix y = _matrix y'.
Proof.
  intros Hring Hwfa Hwfb Hva Hvb.
  destruct (vector_size a Hwfa Hva) as (Ha & Hacol & Harow).
  destruct (vector_size b Hwfb Hvb) as (Hb & Hbcol & Hbrow).
  assert (Hbuf : map (fun i => fir_acc (_matrix b) (_matrix a) (size a) i (size b))
                     (seq 0 (size a + (size b - 1)))
                 = map (fun i => fir_acc (_matrix a) (_matrix b) (size b) i (size a))
                       (seq 0 (size b + (size a - 1)))).
  { replace (size b + (size a - 1)) with (size a + (size b - 1)) by lia.
    apply map_ext. intros n. unfold size.
    rewrite (fir_acc_sigma Hring (_matrix b) (_matrix a) n).
    rewrite (fir_acc_sigma Hring (_matrix a) (_matrix b) n).
    apply (convolution_sum_comm Hring). }
  destruct (is_vector_cases a Hva) as [[Har Hac] | [Har Hac]];
    destruct (is_vector_cases b Hvb) as [[Hbr Hbc] | [Hbr Hbc]];
    do 2 eexists;
    (split; [first [apply conv_row; assumption | apply conv_column; assumption] |]);
    (split; [first [apply conv_row; assumption | apply conv_column; assumption] |]);
    simpl; rewrite ?(Harow Har), ?(Hacol Hac), ?(Hbrow Hbr), ?(Hbcol Hbc); exact Hbuf.
Qed.

End ConvolutionCommutes.

(** [conv_commutes] on the column [1;2;3] and the row [4;5]. *)
Lemma conv_commutes_witness :
  exists y y',
    conv Examples.debug7 (Examples.col_vec [1; 2; 3]%Z) (Examples.row_vec [4; 5]%Z) = Done y
    /\ conv Examples.debug7 (Examples.row_vec [4; 5]%Z) (Examples.col_vec [1; 2; 3]%Z)
       = Done y'
    /\ _matrix y = _matrix y'.
Proof.
  apply (conv_commutes Examples.debug7 (Examples.col_vec [1; 2; 3]%Z)
           (Examples.row_vec [4; 5]%Z));
    [exact Z_element_ring | reflexivity | reflexivity | reflexivity | reflexivity].
Defined.
